(** * MGIS automated framework: extraction, masking and Q&A generation

    A shallow embedding of the Python sources
    [processing/pdf_processor.py], [processing/qa_generator.py],
    [utils/config_manager.py], [utils/storage.py] and [main.py],
    together with the properties of the design document that can be
    stated over it. *)

From Stdlib Require Import List NArith ZArith QArith Bool Lia String Ascii.
From Stdlib Require Import DecimalString DecimalNat Decimal.
From Stdlib Require Import Permutation Sorted.
From stdpp Require Import base countable gmap.
Import ListNotations.

Set Default Proof Using "Type".
Local Open Scope N_scope.
Local Open Scope list_scope.

(** ** Python text

    A Python [str] is a sequence of code points.  The ASCII range is
    classified concretely; what Python's Unicode tables say about the
    code points from 128 on is left to the host ([Unicode]), so every
    statement below holds whatever those tables contain. *)

Abbreviation char := N.
Abbreviation str := (list N).

Class Unicode := {
  uni_space : N -> bool;          (* str.isspace, regex \s *)
  uni_word : N -> bool;           (* regex \w *)
  uni_decimal : N -> option N;    (* value of a decimal digit: regex \d, int() *)
  uni_digit : N -> bool;          (* str.isdigit *)
  uni_lower : N -> list N;        (* str.lower *)
  uni_variants : N -> list N;     (* the other cases of a character, for
                                     re.IGNORECASE *)
  uni_islower : N -> bool;        (* lower or title case: str.isupper fails *)
  uni_isupper : N -> bool         (* upper case *)
}.

Module Py.

Definition of_string (s : string) : str :=
  map N_of_ascii (list_ascii_of_string s).

Definition chr (c : ascii) : N := N_of_ascii c.

Definition in_range (a b c : N) : bool := (a <=? c) && (c <=? b).

Definition ascii_digit (c : N) : bool := in_range 48 57 c.
Definition ascii_upper (c : N) : bool := in_range 65 90 c.
Definition ascii_lower (c : N) : bool := in_range 97 122 c.
Definition ascii_alpha (c : N) : bool := ascii_upper c || ascii_lower c.

Section Classes.
Context {U : Unicode}.

(** [str.isspace] on one character; below 128 these are tab, LF, VT, FF,
    CR, the four separators 28..31 and the space. *)
Definition is_space (c : N) : bool :=
  if c <? 128 then in_range 9 13 c || in_range 28 32 c else uni_space c.

(** [\w] of a [str] pattern. *)
Definition is_word (c : N) : bool :=
  if c <? 128 then ascii_alpha c || ascii_digit c || (c =? 95)
  else uni_word c.

(** [\d] of a [str] pattern. *)
Definition is_decimal (c : N) : bool :=
  if c <? 128 then ascii_digit c
  else match uni_decimal c with Some _ => true | None => false end.

Definition decimal_value (c : N) : option N :=
  if c <? 128 then (if ascii_digit c then Some (c - 48) else None)
  else uni_decimal c.

(** [str.isdigit] on one character. *)
Definition is_digit (c : N) : bool :=
  if c <? 128 then ascii_digit c else uni_digit c.

Definition ascii_toupper (c : N) : N := if ascii_lower c then c - 32 else c.
Definition ascii_tolower (c : N) : N := if ascii_upper c then c + 32 else c.

(** The characters that differ from [c] by case at most. *)
Definition variants (c : N) : list N :=
  if c <? 128 then [c; ascii_tolower c; ascii_toupper c]
  else c :: uni_variants c.

Definition is_lower (c : N) : bool :=
  if c <? 128 then ascii_lower c else uni_islower c.

Definition is_upper (c : N) : bool :=
  if c <? 128 then ascii_upper c else uni_isupper c.

(** [s.lower()] *)
Definition lower (s : str) : str :=
  flat_map (fun c => if c <? 128 then [ascii_tolower c] else uni_lower c) s.

(** [s.lstrip()], [s.rstrip()], [s.strip()] *)
Fixpoint lstrip (s : str) : str :=
  match s with
  | c :: s' => if is_space c then lstrip s' else s
  | [] => []
  end.

Definition rstrip (s : str) : str := rev (lstrip (rev s)).

Definition strip (s : str) : str := rstrip (lstrip s).

(** [s.split()]: the maximal runs of non-space characters. *)
Fixpoint split_ws_go (cur : str) (s : str) : list str :=
  match s with
  | [] => match cur with [] => [] | _ => [rev cur] end
  | c :: s' =>
      if is_space c
      then match cur with
           | [] => split_ws_go [] s'
           | _ => rev cur :: split_ws_go [] s'
           end
      else split_ws_go (c :: cur) s'
  end.

Definition split_ws (s : str) : list str := split_ws_go [] s.

(** [s.isdigit()] *)
Definition isdigit (s : str) : bool :=
  match s with [] => false | _ => forallb is_digit s end.

(** [s.isupper()]: no lower-case character and at least one upper-case
    one. *)
Definition isupper (s : str) : bool :=
  negb (existsb is_lower s) && existsb is_upper s.

(** [int(s)] for a string on which [isdigit] holds: [None] stands for
    the [ValueError] raised on a digit that has no decimal value. *)
Fixpoint int_go (acc : N) (s : str) : option N :=
  match s with
  | [] => Some acc
  | c :: s' =>
      match decimal_value c with
      | Some d => int_go (10 * acc + d) s'
      | None => None
      end
  end.

Definition int (s : str) : option N :=
  match s with [] => None | _ => int_go 0 s end.

End Classes.

(** [sep.split]-style splitting on one separator character:
    [s.split('\n')]. *)
Fixpoint split_on_go (sep : N) (cur : str) (s : str) : list str :=
  match s with
  | [] => [rev cur]
  | c :: s' =>
      if c =? sep then rev cur :: split_on_go sep [] s'
      else split_on_go sep (c :: cur) s'
  end.

Definition split_on (sep : N) (s : str) : list str := split_on_go sep [] s.

(** [sep.join(parts)] *)
Fixpoint join (sep : str) (parts : list str) : str :=
  match parts with
  | [] => []
  | [p] => p
  | p :: ps => p ++ sep ++ join sep ps
  end.

Fixpoint str_eqb (a b : str) : bool :=
  match a, b with
  | [], [] => true
  | x :: a', y :: b' => (x =? y) && str_eqb a' b'
  | _, _ => false
  end.

(** [s.startswith(p)] *)
Fixpoint startswith (p s : str) : bool :=
  match p, s with
  | [], _ => true
  | x :: p', y :: s' => (x =? y) && startswith p' s'
  | _ :: _, [] => false
  end.

(** [s.endswith(p)] *)
Definition endswith (p s : str) : bool := startswith (rev p) (rev s).

(** [p in s] *)
Fixpoint contains (p s : str) : bool :=
  startswith p s ||
  match s with
  | [] => false
  | _ :: s' => contains p s'
  end.

(** Truth value of a string. *)
Definition truthy (s : str) : bool :=
  match s with [] => false | _ => true end.

End Py.

(** String literals of the sources. *)
Definition txt (s : string) : str := Py.of_string s.
Arguments txt s%_string.

(** [str(n)] for a non-negative [int], and [f"{n:03d}"]. *)
Definition str_of_nat (n : nat) : str :=
  Py.of_string (NilEmpty.string_of_uint (Nat.to_uint n)).

Definition zero_pad (width : nat) (s : str) : str :=
  repeat 48 (width - length s)%nat ++ s.

(** ** Exceptions

    A computation that may raise returns a [result]. *)
Inductive exn : Type :=
| IndexError
| KeyError (key : str)
| TypeError
| ValueError (message : str)
| AttributeError
| OSError.

Inductive result (A : Type) : Type :=
| Ok (a : A)
| Raise (e : exn).
Arguments Ok {A} a.
Arguments Raise {A} e.

Definition bind {A B} (m : result A) (k : A -> result B) : result B :=
  match m with
  | Ok a => k a
  | Raise e => Raise e
  end.

Notation "x <- m ;; k" := (bind m (fun x => k))
  (at level 100, m at next level, right associativity).

(** A [for] loop whose body may raise. *)
Fixpoint for_each {A S} (body : S -> A -> result S) (l : list A) (st : S)
    : result S :=
  match l with
  | [] => Ok st
  | a :: l' => st' <- body st a ;; for_each body l' st'
  end.

(** [enumerate(l, start)] *)
Fixpoint enumerate {A} (start : nat) (l : list A) : list (nat * A) :=
  match l with
  | [] => []
  | a :: l' => (start, a) :: enumerate (S start) l'
  end.

(** ** Regular expressions of the [re] module

    The fragment the sources use: character classes under greedy
    counted repetition, sequence, ordered alternative, the optional
    group and the word boundary.  [run] is the backtracking matcher:
    alternatives are tried left to right and repetitions longest first,
    so the match it returns is the one [re] returns. *)

Module Re.

Inductive regex : Type :=
| Eps
| Bnd                                                  (* \b *)
| Rep (cls : N -> bool) (lo : nat) (hi : option nat)   (* cls{lo,hi} *)
| Seq (r1 r2 : regex)
| Alt (r1 r2 : regex).                                 (* r1|r2 *)

Definition Chr (cls : N -> bool) : regex := Rep cls 1 (Some 1%nat).
Definition Star (cls : N -> bool) : regex := Rep cls 0 None.        (* cls* *)
Definition Plus (cls : N -> bool) : regex := Rep cls 1 None.        (* cls+ *)
Definition Count (cls : N -> bool) (n : nat) : regex := Rep cls n (Some n).
Definition Opt (r : regex) : regex := Alt r Eps.                    (* (r)? *)

Definition eqc (c : N) : N -> bool := N.eqb c.

Fixpoint Lit (s : str) : regex :=
  match s with
  | [] => Eps
  | [c] => Chr (eqc c)
  | c :: s' => Seq (Chr (eqc c)) (Lit s')
  end.

Fixpoint seq (rs : list regex) : regex :=
  match rs with
  | [] => Eps
  | [r] => r
  | r :: rs' => Seq r (seq rs')
  end.

Fixpoint alt (rs : list regex) : regex :=
  match rs with
  | [] => Rep (fun _ => false) 1 (Some 1%nat)
  | [r] => r
  | r :: rs' => Alt r (alt rs')
  end.

Section Engine.
Context {U : Unicode}.

Definition wordb (o : option N) : bool :=
  match o with Some c => Py.is_word c | None => false end.

(** [\b] between the character before the position and the one at it. *)
Definition boundary (l : option N) (s : str) : bool :=
  xorb (wordb l) (wordb (head s)).

Definition hi_open (hi : option nat) : bool :=
  match hi with Some O => false | _ => true end.

Definition hi_pred (hi : option nat) : option nat :=
  match hi with Some n => Some (Nat.pred n) | None => None end.

(** The continuation receives the character before the new position and
    the text from it on, and answers with the text left after the whole
    match. *)
Definition cont : Type := option N -> str -> option str.

Fixpoint rep (cls : N -> bool) (lo : nat) (hi : option nat)
    (l : option N) (s : str) (k : cont) {struct s} : option str :=
  let stop := match lo with O => k l s | S _ => None end in
  match s with
  | c :: s' =>
      if cls c && hi_open hi then
        match rep cls (Nat.pred lo) (hi_pred hi) (Some c) s' k with
        | Some out => Some out
        | None => stop
        end
      else stop
  | [] => stop
  end.

Fixpoint run (r : regex) (l : option N) (s : str) (k : cont) : option str :=
  match r with
  | Eps => k l s
  | Bnd => if boundary l s then k l s else None
  | Rep cls lo hi => rep cls lo hi l s k
  | Seq r1 r2 => run r1 l s (fun l' s' => run r2 l' s' k)
  | Alt r1 r2 =>
      match run r1 l s k with
      | Some out => Some out
      | None => run r2 l s k
      end
  end.

(** [pattern.match] at one position: the text left after the match. *)
Definition match_at (r : regex) (l : option N) (s : str) : option str :=
  run r l s (fun _ s' => Some s').

(** Length of the match at one position. *)
Definition match_len (r : regex) (l : option N) (s : str) : option nat :=
  match match_at r l s with
  | Some rest => Some (length s - length rest)%nat
  | None => None
  end.

(** [re.sub(r, tok, s)]: scan from the left; at a position where the
    pattern matches, emit the replacement and resume after the match
    ([skip] counts the characters of a match still to pass over);
    elsewhere copy the character.  An empty match emits the replacement
    and copies the character. *)
Fixpoint sub_go (r : regex) (tok : str) (l : option N) (s : str)
    (skip : nat) : str :=
  match s with
  | [] =>
      match skip, match_len r l [] with
      | O, Some _ => tok
      | _, _ => []
      end
  | c :: s' =>
      match skip with
      | S n => sub_go r tok (Some c) s' n
      | O =>
          match match_len r l s with
          | Some (S n) => tok ++ sub_go r tok (Some c) s' n
          | Some O => tok ++ c :: sub_go r tok (Some c) s' 0
          | None => c :: sub_go r tok (Some c) s' 0
          end
      end
  end.

Definition sub (r : regex) (tok : str) (s : str) : str :=
  sub_go r tok None s 0.

(** [re.IGNORECASE] on a class that contains letters: a character is in
    it when one of its cases is.  Classes without letters ([\d], [\s],
    punctuation) are matched as they are. *)
Definition ci (cls : N -> bool) : N -> bool :=
  fun c => existsb cls (Py.variants c).

Fixpoint LitI (s : str) : regex :=
  match s with
  | [] => Eps
  | [c] => Chr (ci (eqc c))
  | c :: s' => Seq (Chr (ci (eqc c))) (LitI s')
  end.

(** Classes of the patterns. *)
Definition w : N -> bool := Py.is_word.          (* \w *)
Definition d : N -> bool := Py.is_decimal.       (* \d *)
Definition sp : N -> bool := Py.is_space.        (* \s *)
Definition one_of (s : str) : N -> bool := fun c => existsb (N.eqb c) s.
Definition range (a b : string) : N -> bool :=
  match a, b with
  | String x _, String y _ => Py.in_range (N_of_ascii x) (N_of_ascii y)
  | _, _ => fun _ => false
  end.
Definition union (cs : list (N -> bool)) : N -> bool :=
  fun c => existsb (fun cls => cls c) cs.
Definition Maybe (cls : N -> bool) : regex := Rep cls 0 (Some 1%nat). (* cls? *)


(** *** What a pattern matches

    [matches r l w rest]: [r] matches the word [w] when the character
    before it is [l] and the text after it is [rest]. *)

Fixpoint lastc (l : option N) (w : str) : option N :=
  match w with
  | [] => l
  | c :: w' => lastc (Some c) w'
  end.

Definition within (hi : option nat) (n : nat) : Prop :=
  match hi with Some h => (n <= h)%nat | None => True end.

Inductive matches : regex -> option N -> str -> str -> Prop :=
| M_eps l rest : matches Eps l [] rest
| M_bnd l rest : boundary l rest = true -> matches Bnd l [] rest
| M_rep cls lo hi l w rest :
    Forall (fun c => cls c = true) w ->
    (lo <= length w)%nat -> within hi (length w) ->
    matches (Rep cls lo hi) l w rest
| M_seq r1 r2 l w1 w2 rest :
    matches r1 l w1 (w2 ++ rest) ->
    matches r2 (lastc l w1) w2 rest ->
    matches (Seq r1 r2) l (w1 ++ w2) rest
| M_alt_l r1 r2 l w rest :
    matches r1 l w rest -> matches (Alt r1 r2) l w rest
| M_alt_r r1 r2 l w rest :
    matches r2 l w rest -> matches (Alt r1 r2) l w rest.

(** A match at the head of [s]. *)
Definition head_match (r : regex) (l : option N) (s : str) : Prop :=
  exists w rest, s = w ++ rest /\ matches r l w rest.

(** No match of [r] at any position of [s]. *)
Fixpoint no_match (r : regex) (l : option N) (s : str) : Prop :=
  ~ head_match r l s /\
  match s with
  | [] => True
  | c :: s' => no_match r (Some c) s'
  end.

(** No match of [r] starting inside the part [u] of [u ++ v]. *)
Fixpoint no_match_in (r : regex) (l : option N) (u v : str) : Prop :=
  match u with
  | [] => True
  | c :: u' => ~ head_match r l (u ++ v) /\ no_match_in r (Some c) u' v
  end.

(** Syntactic checks on a pattern. *)
Fixpoint nullable (r : regex) : bool :=
  match r with
  | Eps | Bnd => true
  | Rep _ lo _ => Nat.eqb lo 0
  | Seq r1 r2 => nullable r1 && nullable r2
  | Alt r1 r2 => nullable r1 || nullable r2
  end.

Fixpoint no_bnd (r : regex) : bool :=
  match r with
  | Bnd => false
  | Eps | Rep _ _ _ => true
  | Seq r1 r2 | Alt r1 r2 => no_bnd r1 && no_bnd r2
  end.

(** No class of the pattern contains a square bracket. *)
Fixpoint no_bracket (r : regex) : bool :=
  match r with
  | Eps | Bnd => true
  | Rep cls _ _ => negb (cls 91) && negb (cls 93)
  | Seq r1 r2 | Alt r1 r2 => no_bracket r1 && no_bracket r2
  end.

(** The square brackets, code points 91 and 93. *)
Definition bracket (c : N) : bool := (c =? 91) || (c =? 93).

(** The run of [sub] as a derivation: the text is cut into characters
    kept, where the pattern has no match, and matches replaced by the
    token. *)
Inductive Subst (r : regex) (tok : str) : option N -> str -> str -> Prop :=
| Subst_nil l : Subst r tok l [] []
| Subst_keep l c s o :
    match_at r l (c :: s) = None ->
    Subst r tok (Some c) s o ->
    Subst r tok l (c :: s) (c :: o)
| Subst_rep l m rest o :
    m <> [] ->
    matches r l m rest ->
    Subst r tok (lastc l m) rest o ->
    Subst r tok l (m ++ rest) (tok ++ o).

(** Wherever [rj] has no match in [s], [ri] has none either. *)
Fixpoint safe (ri rj : regex) (l : option N) (s : str) : Prop :=
  (match_at rj l s = None -> ~ head_match ri l s) /\
  match s with
  | [] => True
  | c :: s' => safe ri rj (Some c) s'
  end.

(** [\b body \b] *)
Definition bounded (body : regex) : regex := Seq Bnd (Seq body Bnd).

(** The replacement [[NAME]]. *)
Definition token (name : str) : str := 91 :: name ++ [93].

(** A rule of the masker: the body of its pattern and the name in its
    replacement. *)
Definition rule : Type := regex * str.

Definition apply_rule (t : str) (rl : rule) : str :=
  sub (bounded (fst rl)) (token (snd rl)) t.

Definition good_body (b : regex) : bool :=
  no_bnd b && no_bracket b && negb (nullable b).

Definition is_none {A} (o : option A) : bool :=
  match o with None => true | Some _ => false end.

(** A rule is well formed among [rs] when its body has no boundary of
    its own, matches no bracket and no empty word, and its name is made
    of word characters that no pattern of [rs] matches as a whole. *)
Definition good_rule (rs : list rule) (rl : rule) : bool :=
  good_body (fst rl) && forallb Py.is_word (snd rl) &&
  forallb (fun rl' =>
             is_none (match_at (bounded (fst rl')) (Some 91) (snd rl ++ [93])))
          rs.

Definition good_rules (rs : list rule) : bool := forallb (good_rule rs) rs.

End Engine.
End Re.

(** ** processing/pdf_processor.py: ContentMasker *)

Module ContentMasker.
Import Re.

Section Masker.
Context {U : Unicode}.

(** [self.company_names] *)
Definition company_names : list str :=
  [txt "Unum"; txt "Hartford"; txt "Lincoln"].

(** [[\w\.-]] *)
Definition word_dot_dash : N -> bool := union [w; one_of (txt ".-")].
(** [[\s.-]] *)
Definition space_dot_dash : N -> bool := union [sp; one_of (txt ".-")].

(** [\b[\w\.-]+@[\w\.-]+\.\w+\b] *)
Definition email_body : regex :=
  seq [Plus word_dot_dash; Lit (txt "@"); Plus word_dot_dash;
       Lit (txt "."); Plus w].

(** [\b(\+\d{1,2}\s?)?\(?\d{3}\)?[\s.-]?\d{3}[\s.-]?\d{4}\b] *)
Definition phone_body : regex :=
  seq [Opt (seq [Lit (txt "+"); Rep d 1 (Some 2%nat); Maybe sp]);
       Maybe (one_of (txt "(")); Count d 3; Maybe (one_of (txt ")"));
       Maybe space_dot_dash; Count d 3; Maybe space_dot_dash; Count d 4].

(** [\b\d{3}-\d{2}-\d{4}\b] *)
Definition ssn_body : regex :=
  seq [Count d 3; Lit (txt "-"); Count d 2; Lit (txt "-"); Count d 4].

(** The street words of the address pattern, in the order of the
    alternative. *)
Definition street_words : list str :=
  map Py.of_string
    ["Street"; "St"; "Avenue"; "Ave"; "Road"; "Rd"; "Boulevard"; "Blvd";
     "Lane"; "Ln"; "Drive"; "Dr"; "Court"; "Ct"; "Circle"; "Cir"; "Way";
     "Parkway"; "Pkwy"; "Highway"; "Hwy"; "Suite"; "Ste"; "Unit"; "#"]%string.

(** [\b\d+\s+([A-Za-z0-9\s,.-]+\s+)(Street|St|...|Unit|#)\.?\s*,?\s*
      ([A-Za-z\s]+,\s*[A-Z]{2}\s*\d{5}(-\d{4})?)\b] with [re.IGNORECASE] *)
Definition address_body : regex :=
  seq [Plus d; Plus sp;
       Plus (ci (union [range "A" "Z"; range "a" "z"; range "0" "9"; sp;
                        one_of (txt ",.-")]));
       Plus sp;
       alt (map LitI street_words);
       Maybe (one_of (txt ".")); Star sp; Maybe (one_of (txt ",")); Star sp;
       Plus (ci (union [range "A" "Z"; range "a" "z"; sp]));
       Lit (txt ","); Star sp; Count (ci (range "A" "Z")) 2; Star sp;
       Count d 5; Opt (seq [Lit (txt "-"); Count d 4])].

(** [\b\d{5}(-\d{4})?\b] *)
Definition zip_body : regex :=
  seq [Count d 5; Opt (seq [Lit (txt "-"); Count d 4])].

(** [\b\d{5,10}\b] *)
Definition policy_body : regex := Rep d 5 (Some 10%nat).

Definition months : list str :=
  map Py.of_string
    ["Jan"; "Feb"; "Mar"; "Apr"; "May"; "Jun"; "Jul"; "Aug"; "Sep"; "Oct";
     "Nov"; "Dec"]%string.

(** [\b(Jan|...|Dec)[a-z]* \d{1,2},? \d{4}\b] *)
Definition date_body : regex :=
  seq [alt (map Lit months); Star (range "a" "z"); Lit (txt " ");
       Rep d 1 (Some 2%nat); Maybe (one_of (txt ",")); Lit (txt " "); Count d 4].

(** [\b\d{1,2}/\d{1,2}/\d{2,4}\b] *)
Definition numeric_date_body : regex :=
  seq [Rep d 1 (Some 2%nat); Lit (txt "/"); Rep d 1 (Some 2%nat);
       Lit (txt "/"); Rep d 2 (Some 4%nat)].

(** [\b\d+\s*(day|week|month|year)s?\b] *)
Definition time_period_body : regex :=
  seq [Plus d; Star sp;
       alt (map Lit [txt "day"; txt "week"; txt "month"; txt "year"]);
       Maybe (one_of (txt "s"))].

(** [rf'\b{company}\b'] with [re.IGNORECASE] *)
Definition company_body (company : str) : regex := LitI company.

(** [mask_sensitive_info]: the substitutions in the order of the
    source, then one per company name. *)
Definition mask_sensitive_info (text : str) : str :=
  let text := sub (bounded email_body) (txt "[EMAIL]") text in
  let text := sub (bounded phone_body) (txt "[PHONE]") text in
  let text := sub (bounded ssn_body) (txt "[SSN]") text in
  let text := sub (bounded address_body) (txt "[ADDRESS]") text in
  let text := sub (bounded zip_body) (txt "[ZIP]") text in
  let text := sub (bounded policy_body) (txt "[POLICY_NUMBER]") text in
  let text := sub (bounded date_body) (txt "[DATE]") text in
  let text := sub (bounded numeric_date_body) (txt "[DATE]") text in
  let text := sub (bounded time_period_body) (txt "[TIME_PERIOD]") text in
  fold_left
    (fun text company =>
       sub (bounded (company_body company)) (txt "[COMPANY_NAME]") text)
    company_names text.

(** The same substitutions as a list of rules. *)
Definition rules : list rule :=
  [ (email_body, txt "EMAIL"); (phone_body, txt "PHONE");
    (ssn_body, txt "SSN"); (address_body, txt "ADDRESS");
    (zip_body, txt "ZIP"); (policy_body, txt "POLICY_NUMBER");
    (date_body, txt "DATE"); (numeric_date_body, txt "DATE");
    (time_period_body, txt "TIME_PERIOD") ]
  ++ map (fun company => (company_body company, txt "COMPANY_NAME"))
         company_names.

End Masker.
End ContentMasker.

(** The host whose tables classify no character beyond ASCII. *)
Definition ascii_only : Unicode := {|
  uni_space := fun _ => false; uni_word := fun _ => false;
  uni_decimal := fun _ => None; uni_digit := fun _ => false;
  uni_lower := fun c => [c]; uni_variants := fun _ => [];
  uni_islower := fun _ => false; uni_isupper := fun _ => false |}.


(** ** utils/config_manager.py *)

Module ConfigurationManager.

Record StorageConfig : Type := {
  provider : str;
  project_id : option str;
  bucket_name : option str;
  credentials_path : option str
}.

Record OutputConfig : Type := {
  base_folder : str;
  subfolder_names : list (str * str)
}.

Record ProcessingConfig : Type := {
  augmentation_factor : nat;
  parallel_prompts : bool;
  max_workers : Z;
  checkpointing : bool;
  checkpoint_file : str
}.

Record OllamaConfig : Type := {
  model_name : str;
  base_url : str;
  temperature : Q;
  timeout : nat;
  retries : nat;
  retry_delay : nat
}.

(** The attributes of a [ConfigurationManager] once [__init__] has
    returned. *)
Record t : Type := {
  storage : StorageConfig;
  output : OutputConfig;
  processing : ProcessingConfig;
  ollama : OllamaConfig;
  keywords : list str;
  prompts : list (str * str)
}.

Fixpoint get {A} (k : str) (d : list (str * A)) : option A :=
  match d with
  | [] => None
  | (k', v) :: d' => if Py.str_eqb k k' then Some v else get k d'
  end.

Definition truthy_opt (o : option str) : bool :=
  match o with Some s => Py.truthy s | None => false end.

(** [get_prompt_template] *)
Definition get_prompt_template (c : t) (template_name : str) : str :=
  match get template_name (prompts c) with
  | Some tpl => tpl
  | None => match get (txt "default") (prompts c) with
            | Some tpl => tpl
            | None => []
            end
  end.

(** [validate]: each [raise ValueError] of the [try] block is caught by
    its [except], which logs and returns [False]. *)
Definition validate (c : t) : bool :=
  if negb (match keywords c with [] => false | _ => true end) then false
  else if negb (truthy_opt (get (txt "default") (prompts c))) then false
  else if negb (Py.str_eqb (provider (storage c)) (txt "local") ||
                Py.str_eqb (provider (storage c)) (txt "gcp")) then false
  else if Py.str_eqb (provider (storage c)) (txt "gcp") &&
          (negb (truthy_opt (project_id (storage c))) ||
           negb (truthy_opt (bucket_name (storage c)))) then false
  else true.

End ConfigurationManager.

(** ** utils/storage.py *)

Module StorageFactory.
Import ConfigurationManager.

Inductive provider_kind : Type := LocalStorageProvider | GCPStorageProvider.

Section Factory.
Context {U : Unicode}.
(** The constructor [GCPStorageProvider(project_id=..., bucket_name=...,
    credentials_path=...)] on the fields of the configuration: what
    reading the credentials file and creating the client of the cloud
    library raise, if anything. *)
Variable connect : StorageConfig -> result unit.

(** [create_provider] *)
Definition create_provider (config : StorageConfig) : result provider_kind :=
  let provider := Py.lower (provider config) in
  if Py.str_eqb provider (txt "local") then Ok LocalStorageProvider
  else if Py.str_eqb provider (txt "gcp") then
    if negb (truthy_opt (project_id config)) ||
       negb (truthy_opt (bucket_name config))
    then Raise (ValueError (txt "GCP storage requires project_id and bucket_name"))
    else _ <- connect config ;; Ok GCPStorageProvider
  else Raise (ValueError (txt "Unsupported storage provider: " ++ provider)).

End Factory.
End StorageFactory.

(** ** processing/pdf_processor.py: PDFProcessor *)

Module PDFProcessor.

(** What the document parser yields ([page.get_text("dict")]): a page
    is a list of blocks; a block may have [lines]; a line may have
    [spans]; a span carries its [text] and, optionally, a font [size]
    and style [flags]. *)
Record span : Type := {
  span_text : str;
  span_size : option Q;
  span_flags : option Z
}.

Record line : Type := { line_spans : option (list span) }.

Record block : Type := { block_lines : option (list line) }.

Definition page : Type := list block.

(** The dictionary of a span as [_is_header] reads it: the two optional
    keys.  [{}] is the empty dictionary of the defaults. *)
Definition attrs : Type := (option Q * option Z)%type.
Definition span_attrs (s : span) : attrs := (span_size s, span_flags s).
Definition empty_dict : attrs := (None, None).

(** One occurrence record, as [_create_metadata] builds it. *)
Record finding : Type := {
  source_file : str;
  page_number : str;
  line_number : str;
  selected_text : str;
  full_extracted_part : str;
  extraction_timestamp : str
}.

(** [findings]: keyword -> occurrences, in insertion order. *)
Definition findings : Type := list (str * list finding).

Record document : Type := {
  original_filename : str;
  doc_findings : findings
}.

(** The attributes of a processor that the methods below read or
    change. *)
Record processor_state : Type := {
  file_counter : nat;
  combined_results : list (str * document)
}.

(** [PDFProcessor.__init__] *)
Definition new_processor : processor_state :=
  {| file_counter := 1; combined_results := [] |}.

Fixpoint lookup {A} (k : str) (d : list (str * A)) : option A :=
  match d with
  | [] => None
  | (k', v) :: d' => if Py.str_eqb k k' then Some v else lookup k d'
  end.

(** [d[k] = v] *)
Fixpoint store {A} (k : str) (v : A) (d : list (str * A)) : list (str * A) :=
  match d with
  | [] => [(k, v)]
  | (k', v') :: d' =>
      if Py.str_eqb k k' then (k, v) :: d' else (k', v') :: store k v d'
  end.

(** [if k not in d: d[k] = []] then [d[k].append(x)] *)
Definition append_to (k : str) (x : finding) (d : findings) : findings :=
  match lookup k d with
  | None => store k [x] d
  | Some xs => store k (xs ++ [x]) d
  end.

(** [_generate_doc_id] *)
Definition _generate_doc_id (st : processor_state)
    : str * processor_state :=
  let doc_id := txt "doc_" ++ zero_pad 3 (str_of_nat (file_counter st)) in
  (doc_id,
   {| file_counter := file_counter st + 1;
      combined_results := combined_results st |}).

(** The identifier drawn when the counter is [n]. *)
Definition doc_id_of (n : nat) : str :=
  txt "doc_" ++ zero_pad 3 (str_of_nat n).

Section Processor.
Context {U : Unicode}.

(** The number in an identifier, read the way [_get_policy_doc_name]
    reads it: [int(doc_id.split('_')[1])]. *)
Definition doc_number (doc_id : str) : option N :=
  match nth_error (Py.split_on 95 doc_id) 1 with
  | Some part => Py.int part
  | None => None
  end.

(** The [num2words] library. *)
Variable num2words : N -> str.
(** [self.config.keywords] *)
Variable keywords : list str.

(** [_convert_numbers_to_words] *)
Definition _convert_numbers_to_words (text : str) : result str :=
  words <- for_each
             (fun acc word =>
                if Py.isdigit word then
                  match Py.int word with
                  | Some n => Ok (acc ++ [num2words n])
                  | None => Raise (ValueError word)
                  end
                else Ok (acc ++ [word]))
             (Py.split_ws text) [] ;;
  Ok (Py.join (txt " ") words).

(** [_create_metadata].  [now k] is what [datetime.now().isoformat()]
    gives at its [k]-th reading during the processing of the document;
    the second component of the result counts the reading made. *)
Definition _create_metadata (now : nat -> str) (doc_id : str)
    (page line : nat)
    (selected_text full_content : str) (clk : nat) : result (finding * nat) :=
  let masked_selected_text := ContentMasker.mask_sensitive_info selected_text in
  let masked_full_content := ContentMasker.mask_sensitive_info full_content in
  pn <- _convert_numbers_to_words (str_of_nat page) ;;
  ln <- _convert_numbers_to_words (str_of_nat line) ;;
  Ok ({| source_file := doc_id;
         page_number := pn;
         line_number := ln;
         selected_text := masked_selected_text;
         full_extracted_part := masked_full_content;
         extraction_timestamp := now clk |},
      S clk).

Definition size_gt_12 (a : attrs) : bool :=
  match fst a with
  | Some sz => negb (Qle_bool sz 12)
  | None => false                      (* .get('size', 0) > 12 *)
  end.

Definition bold_bit (a : attrs) : bool :=
  match snd a with
  | Some fl => negb (Z.land fl 16 =? 0)%Z
  | None => false                      (* .get('flags', 0) & 16 *)
  end.

(** [_is_header]: the truth value of what it returns.  [spans[0]] is
    read only when the first two tests fail. *)
Definition _is_header (text : str) (spans : list attrs) : result bool :=
  if negb (Py.truthy text) then Ok false
  else if Py.isupper text then Ok true
  else if Py.endswith (txt ":") (Py.rstrip text) then Ok true
  else match spans with
       | [] => Raise IndexError
       | s0 :: _ => Ok (size_gt_12 s0 || bold_bit s0)
       end.

(** [" ".join(span["text"] for span in line["spans"]).strip()] *)
Definition line_text (spans : list span) : str :=
  Py.strip (Py.join (txt " ") (map span_text spans)).

Definition last_char (s : str) : option N := head (rev s).

(** The loop of [_get_block_text]: the sentences closed so far and the
    lines of the sentence under way. *)
Fixpoint block_sentences (lines : list line) (sentences current : list str)
    : list str :=
  match lines with
  | [] =>
      match current with
      | [] => sentences
      | _ => sentences ++ [Py.join (txt " ") current]
      end
  | ln :: lines' =>
      match line_spans ln with
      | None | Some [] => block_sentences lines' sentences current
      | Some spans =>
          let text := line_text spans in
          if negb (Py.truthy text) then block_sentences lines' sentences current
          else
            let current := current ++ [text] in
            match last_char (Py.rstrip text) with
            | Some c =>
                if Re.one_of (txt ".!?") c
                then block_sentences lines'
                       (sentences ++ [Py.join (txt " ") current]) []
                else block_sentences lines' sentences current
            | None => block_sentences lines' sentences current
            end
      end
  end.

(** [_get_block_text] *)
Definition _get_block_text (b : block) : str :=
  match block_lines b with
  | None => []
  | Some lines => Py.join (txt " ") (block_sentences lines [] [])
  end.

(** [block.get("lines", [{}])[0].get("spans", [{}])] *)
Definition first_line_spans (b : block) : result (list attrs) :=
  match block_lines b with
  | None => Ok [empty_dict]
  | Some [] => Raise IndexError
  | Some (ln :: _) =>
      match line_spans ln with
      | None => Ok [empty_dict]
      | Some spans => Ok (map span_attrs spans)
      end
  end.

(** [text.split('\n')[0]] *)
Definition first_line (text : str) : str := hd [] (Py.split_on 10 text).

(** The loop [for i in range(1, 4)] of [_find_keyword_context] over the
    offsets still to visit. *)
Fixpoint extend_forward (blocks : list block) (current_block_idx : nat)
    (offsets : list nat) (content_parts : list str) : result (list str) :=
  match offsets with
  | [] => Ok content_parts
  | i :: offsets' =>
      match nth_error blocks (current_block_idx + i) with
      | Some next_block =>
          let next_block_text := _get_block_text next_block in
          if Py.truthy next_block_text then
            let content_parts := content_parts ++ [next_block_text] in
            spans <- first_line_spans next_block ;;
            header <- _is_header (first_line next_block_text) spans ;;
            if header then Ok content_parts
            else extend_forward blocks current_block_idx offsets' content_parts
          else extend_forward blocks current_block_idx offsets' content_parts
      | None => extend_forward blocks current_block_idx offsets' content_parts
      end
  end.

(** [_find_keyword_context] *)
Definition _find_keyword_context (blocks : list block) (keyword : str)
    (current_block_idx : nat) : result (option str) :=
  match nth_error blocks current_block_idx with
  | None => Raise IndexError
  | Some current_block =>
      let current_text := _get_block_text current_block in
      if negb (Py.contains keyword current_text) then Ok None
      else
        let content_parts :=
          match current_block_idx with
          | O => []
          | S prev =>
              match nth_error blocks prev with
              | Some b =>
                  let previous_text := _get_block_text b in
                  if Py.truthy previous_text then [previous_text] else []
              | None => []
              end
          end in
        let content_parts := content_parts ++ [current_text] in
        parts <- extend_forward blocks current_block_idx [1; 2; 3]%nat
                   content_parts ;;
        Ok (Some (Py.join (txt " ") parts))
  end.

(** The assembled text of the block at index [j]. *)
Definition text_at (blocks : list block) (j : nat) : str :=
  match nth_error blocks j with
  | Some b => _get_block_text b
  | None => []
  end.

(** The first line of a block is classified as a heading, in the words
    of the design document: [_is_header] holds of the text of the first
    line of the block and of the spans of that line.  This is what the
    forward loop is to stop at; what the loop tests itself is in
    [extend_forward]. *)
Definition first_line_is_heading (b : block) : result bool :=
  match block_lines b with
  | Some (ln :: _) =>
      match line_spans ln with
      | Some spans => _is_header (line_text spans) (map span_attrs spans)
      | None => Ok false
      end
  | _ => Ok false
  end.

(** The body of [for keyword in self.config.keywords]. *)
Definition scan_keyword (now : nat -> str) (blocks : list block)
    (doc_id : str)
    (page_num block_num line_num : nat) (text : str)
    (acc : findings * nat) (keyword : str) : result (findings * nat) :=
  full_context <- _find_keyword_context blocks keyword block_num ;;
  match full_context with
  | Some ctx =>
      if Py.truthy ctx then
        m <- _create_metadata now doc_id page_num line_num text ctx (snd acc) ;;
        Ok (append_to keyword (fst m) (fst acc), snd m)
      else Ok acc
  | None => Ok acc
  end.

(** The body of [for line_num, line in enumerate(block["lines"], 1)]. *)
Definition scan_line (now : nat -> str) (blocks : list block)
    (doc_id : str)
    (page_num block_num : nat) (acc : findings * nat) (nl : nat * line)
    : result (findings * nat) :=
  match line_spans (snd nl) with
  | None | Some [] => Ok acc
  | Some spans =>
      let text := line_text spans in
      for_each (scan_keyword now blocks doc_id page_num block_num (fst nl) text)
               keywords acc
  end.

(** The body of [for block_num, block in enumerate(blocks)]. *)
Definition scan_block (now : nat -> str) (blocks : list block) (doc_id : str)
    (page_num : nat)
    (acc : findings * nat) (nb : nat * block) : result (findings * nat) :=
  match block_lines (snd nb) with
  | None => Ok acc
  | Some lines =>
      for_each (scan_line now blocks doc_id page_num (fst nb))
               (enumerate 1 lines) acc
  end.

(** The body of [for page_num, page in enumerate(doc, 1)]. *)
Definition scan_page (now : nat -> str) (doc_id : str) (acc : findings * nat)
    (np : nat * page) : result (findings * nat) :=
  for_each (scan_block now (snd np) doc_id (fst np)) (enumerate 0 (snd np)) acc.

(** [Path(pdf_path).name] *)
Definition path_name (pdf_path : str) : str :=
  List.last (Py.split_on 47 pdf_path) [].

(** [process_single_pdf].  [opened] is what [storage.read_file] and
    [fitz.open] give for the path: the pages, or the exception they
    raise.  The state is returned on both outcomes: an exception inside
    the loops leaves the counter advanced. *)
Definition process_single_pdf (now : nat -> str) (st : processor_state)
    (pdf_path : str) (opened : result (list page))
    : processor_state * result findings :=
  match opened with
  | Raise e => (st, Raise e)
  | Ok doc =>
      let (doc_id, st) := _generate_doc_id st in
      match for_each (scan_page now doc_id) (enumerate 1 doc) ([], 0%nat) with
      | Raise e => (st, Raise e)
      | Ok (fs, _) =>
          let results :=
            match fs with
            | [] => combined_results st
            | _ => store doc_id
                     {| original_filename := path_name pdf_path;
                        doc_findings := fs |}
                     (combined_results st)
            end in
          ({| file_counter := file_counter st;
              combined_results := results |},
           Ok fs)
      end
  end.

(** One document handed to [process_single_pdf]: its path, what
    opening it gives, and the clock during its processing. *)
Record job : Type := {
  pdf_path : str;
  opened : result (list page);
  now : nat -> str
}.

(** The identifier [process_single_pdf] draws for a job, if it gets as
    far as drawing one. *)
Definition issued_id (st : processor_state) (j : job) : list str :=
  match opened j with
  | Ok _ => [fst (_generate_doc_id st)]
  | Raise _ => []
  end.

(** Calls of [process_single_pdf] made one after the other on the same
    processor, each returning before the next begins, as the pool of
    [process_directory] makes them when it has one worker: the
    identifiers drawn, in order, and the final state.  A document that
    raises is logged and skipped, as in [process_directory].  The calls
    of a pool of several workers interleave; what that does to the
    identifiers is in [Workers] below. *)
Fixpoint process_documents (st : processor_state) (jobs : list job)
    : list str * processor_state :=
  match jobs with
  | [] => ([], st)
  | j :: jobs' =>
      let (st', _) := process_single_pdf (now j) st (pdf_path j) (opened j) in
      let (ids, st'') := process_documents st' jobs' in
      (issued_id st j ++ ids, st'')
  end.

End Processor.

(** Blocks for examples: every span carries its text only. *)
Definition text_span (s : string) : span :=
  {| span_text := txt s; span_size := None; span_flags := None |}.
Definition line_of (ss : list string) : line :=
  {| line_spans := Some (map text_span ss) |}.
Definition block_of (ls : list (list string)) : block :=
  {| block_lines := Some (map line_of ls) |}.

(** A block with the keyword, followed by a block whose first line has
    an empty list of spans and whose second line has text. *)
Definition blocks_first_line_without_spans : list block :=
  [ block_of [["claim"]]; block_of [[]; ["hello"]] ]%string.

(** A one-page document whose only block has a line with the keyword
    and a line made of one blank span. *)
Definition doc_with_blank_line : list page :=
  [ [ block_of [["Hartford policy"]; [" "]] ] ]%string.

(** The keyword, then a block whose first line is a heading and whose
    second line is not, then more text. *)
Definition block_heading_over_body : block :=
  block_of [["SECTION TWO"]; ["body text"]]%string.
Definition blocks_heading_over_body : list block :=
  [ block_of [["the claim is filed"]]; block_heading_over_body;
    block_of [["later text"]] ]%string.

(** Three blocks: the keyword, a heading, and text after the heading. *)
Definition blocks_with_heading : list block :=
  [ block_of [["intro"]]; block_of [["the claim is filed"]];
    block_of [["NEXT SECTION"]]; block_of [["later text"]] ]%string.

End PDFProcessor.

(** ** The worker threads of [process_directory]

    [process_directory] submits [process_single_pdf] to a
    [ThreadPoolExecutor]; every worker calls [_generate_doc_id] on the
    one processor, and nothing (no lock, no queue) orders the
    statements of one worker with respect to those of another.  The
    model lets a worker be interrupted between the two statements of
    [_generate_doc_id] only: each statement is taken as a whole. *)

Module Workers.
Import PDFProcessor.

(** Where a worker is in [_generate_doc_id]: before the first
    statement, between the two with the identifier it has built, or
    returned with it. *)
Inductive worker : Type :=
| Entering
| Built (doc_id : str)
| Returned (doc_id : str).

(** The next statement of a worker, on the attribute [file_counter]
    that the workers share: [doc_id = f"doc_{self.file_counter:03d}"],
    then [self.file_counter += 1], then [return doc_id]. *)
Definition step (counter : nat) (w : worker) : nat * worker :=
  match w with
  | Entering => (counter, Built (doc_id_of counter))
  | Built doc_id => ((counter + 1)%nat, Returned doc_id)
  | Returned doc_id => (counter, Returned doc_id)
  end.

Fixpoint replace_nth {A} (i : nat) (x : A) (l : list A) : list A :=
  match l, i with
  | [], _ => []
  | _ :: l', O => x :: l'
  | y :: l', S i' => y :: replace_nth i' x l'
  end.

(** A schedule names, statement by statement, the worker that runs. *)
Fixpoint run (schedule : list nat) (counter : nat)
    (workers : list worker) : nat * list worker :=
  match schedule with
  | [] => (counter, workers)
  | i :: schedule' =>
      match nth_error workers i with
      | Some w =>
          let (counter', w') := step counter w in
          run schedule' counter' (replace_nth i w' workers)
      | None => run schedule' counter workers
      end
  end.

(** The identifiers the workers have returned with. *)
Definition returned (workers : list worker) : list str :=
  flat_map (fun w => match w with Returned doc_id => [doc_id] | _ => [] end)
           workers.

End Workers.

(** ** processing/qa_generator.py *)

Module QAGenerator.
Import ConfigurationManager.

(** [PromptType = Literal['default', 'alternative']] *)
Inductive PromptType : Type := default | alternative.

Definition prompt_type_name (prompt_type : PromptType) : str :=
  match prompt_type with
  | default => txt "default"
  | alternative => txt "alternative"
  end.

Record qa_pair : Type := { question : str; answer : str }.

(** The file name kept with a document: a string, or, when the findings
    of a single file have a keyword called [original_filename], the
    occurrences of that keyword. *)
Inductive filename : Type :=
| FileName (name : str)
| FileOccurrences (occurrences : list PDFProcessor.finding).

(** One entry of [qa_json[policy_doc_name][keyword]]. *)
Record entry : Type := {
  entry_qa_pairs : list qa_pair;
  entry_content : list PDFProcessor.finding;
  entry_original_filename : filename
}.

Record stats : Type := { characters : nat; words : nat }.

(** [QAOutputManager]: the attributes that change. *)
Record manager : Type := {
  qa_text : list (str * list str);
  qa_json : list (str * list (str * entry));
  doc_stats : list (str * stats)
}.

Definition new_manager : manager :=
  {| qa_text := []; qa_json := []; doc_stats := [] |}.

(** What the generation service does with a request: a response with
    its status code and the [response] field of its body ([None] when
    reading the field raises), or an exception of [requests]. *)
Inductive reply : Type :=
| Response (status_code : nat) (response_field : option str)
| ReadTimeout
| ConnectionError
| OtherException.

(** The effects of the generator, in the order they happen.  A request
    is tagged with the unit it is made for. *)
Inductive event : Type :=
| Post (policy_doc_name keyword : str) (prompt_type : PromptType)
       (prompt : str)
| Sleep (seconds : nat)
| AddKeywordContent (doc_id keyword : str) (prompt_type : PromptType)
                    (qa_pairs : list qa_pair)
| AddQAPair (doc_id : str) (prompt_type : PromptType) (qa_text : str)
| Checkpoint (key : str)
| WriteFile (path : str).

(** [QAGenerator]: the attributes that change, the number of requests
    posted so far and the effects so far. *)
Record generator_state : Type := {
  processed_sections : gset (list N);
  default_manager : manager;
  alternative_manager : manager;
  posted : nat;
  log : list event
}.

(** [QAGenerator.__init__] *)
Definition new_generator : generator_state :=
  {| processed_sections := ∅;
     default_manager := new_manager;
     alternative_manager := new_manager;
     posted := 0;
     log := [] |}.

Definition output_manager (st : generator_state) (prompt_type : PromptType)
    : manager :=
  match prompt_type with
  | default => default_manager st
  | alternative => alternative_manager st
  end.

Definition set_manager (prompt_type : PromptType) (m : manager)
    (st : generator_state) : generator_state :=
  match prompt_type with
  | default =>
      {| processed_sections := processed_sections st;
         default_manager := m;
         alternative_manager := alternative_manager st;
         posted := posted st; log := log st |}
  | alternative =>
      {| processed_sections := processed_sections st;
         default_manager := default_manager st;
         alternative_manager := m;
         posted := posted st; log := log st |}
  end.

Definition emit (e : event) (st : generator_state) : generator_state :=
  {| processed_sections := processed_sections st;
     default_manager := default_manager st;
     alternative_manager := alternative_manager st;
     posted := posted st; log := log st ++ [e] |}.

(** [self.processed_sections.add(key)] *)
Definition add_checkpoint (key : str) (st : generator_state)
    : generator_state :=
  emit (Checkpoint key)
    {| processed_sections := {[ key ]} ∪ processed_sections st;
       default_manager := default_manager st;
       alternative_manager := alternative_manager st;
       posted := posted st; log := log st |}.

(** A method that changes the generator and may raise. *)
Definition M (A : Type) : Type :=
  generator_state -> generator_state * result A.

Definition ret {A} (a : A) : M A := fun st => (st, Ok a).
Definition raise {A} (e : exn) : M A := fun st => (st, Raise e).
Definition lift {A} (r : result A) : M A := fun st => (st, r).
Definition mbind {A B} (m : M A) (k : A -> M B) : M B :=
  fun st =>
    match m st with
    | (st', Ok a) => k a st'
    | (st', Raise e) => (st', Raise e)
    end.
Definition modify (f : generator_state -> generator_state) : M unit :=
  fun st => (f st, Ok tt).

Notation "x <~ m ;; k" := (mbind m (fun x => k))
  (at level 100, m at next level, right associativity).
Notation "m ;;; k" := (mbind m (fun _ => k))
  (at level 100, right associativity).

(** A [for] loop with an accumulator. *)
Fixpoint mfold {A B} (body : B -> A -> M B) (l : list A) (b : B) : M B :=
  match l with
  | [] => ret b
  | a :: l' => b' <~ body b a ;; mfold body l' b'
  end.

(** The fields a template is filled with. *)
Record prompt_fields : Type := {
  field_keyword : str;
  field_policy_doc_name : str;
  field_formatted_pages : str;
  field_content : str
}.

(** The key of [sorted] in [generate_prompt]. *)
Inductive sort_key : Type := KInt (n : N) | KStr (s : str).

(** [<] on strings: by code point, a proper prefix first. *)
Fixpoint str_ltb (a b : str) : bool :=
  match a, b with
  | _, [] => false
  | [], _ :: _ => true
  | x :: a', y :: b' => (x <? y) || ((x =? y) && str_ltb a' b')
  end.

Definition all_int (ks : list sort_key) : bool :=
  forallb (fun k => match k with KInt _ => true | KStr _ => false end) ks.
Definition all_str (ks : list sort_key) : bool :=
  forallb (fun k => match k with KStr _ => true | KInt _ => false end) ks.

(** [<] on keys of one kind. *)
Definition key_ltb (a b : sort_key) : bool :=
  match a, b with
  | KInt m, KInt n => m <? n
  | KStr s, KStr t => str_ltb s t
  | _, _ => false
  end.

(** The sort of [list.sort]: stable. *)
Fixpoint insert_by {A} (ltb : A -> A -> bool) (x : A) (l : list A) : list A :=
  match l with
  | [] => [x]
  | y :: l' => if ltb x y then x :: l else y :: insert_by ltb x l'
  end.

Definition stable_sort {A} (ltb : A -> A -> bool) (l : list A) : list A :=
  fold_left (fun acc x => insert_by ltb x acc) l [].

(** [pages.add(x)] on the elements of a set. *)
Definition set_add (x : str) (s : list str) : list str :=
  if existsb (Py.str_eqb x) s then s else s ++ [x].

Section Generator.
Context {U : Unicode}.
Variable config : ConfigurationManager.t.
(** [template.format(keyword=..., policy_doc_name=..., formatted_pages=...,
    content=...)] *)
Variable format_template : str -> prompt_fields -> result str.
(** The order in which a set of the given elements is iterated. *)
Variable set_order : list str -> list str.
(** The reply to the [n]-th request posted. *)
Variable service : nat -> reply.

(** The key function of the sort: [int(str(x)) if str(x).isdigit() else x]. *)
Definition page_key (x : str) : result sort_key :=
  if Py.isdigit x then
    match Py.int x with
    | Some n => Ok (KInt n)
    | None => Raise (ValueError x)
    end
  else Ok (KStr x).

(** [sorted(pages, key=...)]: the keys are computed first; two keys of
    different kinds cannot be compared. *)
Definition sorted_pages (pages : list str) : result (list str) :=
  keyed <- for_each (fun acc x => k <- page_key x ;; Ok (acc ++ [(k, x)]))
             pages [] ;;
  let ks := map fst keyed in
  if all_int ks || all_str ks
  then Ok (map snd (stable_sort (fun a b => key_ltb (fst a) (fst b)) keyed))
  else Raise TypeError.

(** The pages of the occurrences, as the elements of the set [pages]. *)
Definition collect_pages (content : list PDFProcessor.finding) : list str :=
  fold_left (fun pages occurrence =>
               set_add (PDFProcessor.page_number occurrence) pages)
            content [].

(** [", ".join(sorted(pages, key=...)[:2])] *)
Definition formatted_pages (content : list PDFProcessor.finding) : result str :=
  sorted <- sorted_pages (set_order (collect_pages content)) ;;
  Ok (Py.join (txt ", ") (firstn 2 sorted)).

Definition merged_content (content : list PDFProcessor.finding) : list str :=
  fold_left
    (fun merged occurrence =>
       let selected_text := Py.strip (PDFProcessor.selected_text occurrence) in
       let full_context :=
         Py.strip (PDFProcessor.full_extracted_part occurrence) in
       let content_text :=
         if Py.truthy full_context then full_context else selected_text in
       if Py.truthy content_text then merged ++ [content_text] else merged)
    content [].

(** [generate_prompt] *)
Definition generate_prompt (policy_doc_name keyword : str)
    (content : list PDFProcessor.finding) (prompt_type : PromptType)
    : result str :=
  pages <- formatted_pages content ;;
  match get (prompt_type_name prompt_type) (prompts config) with
  | None => Raise (KeyError (prompt_type_name prompt_type))
  | Some template =>
      format_template template
        {| field_keyword := keyword;
           field_policy_doc_name := policy_doc_name;
           field_formatted_pages := pages;
           field_content := Py.join (txt " ") (merged_content content) |}
  end.

(** The validation of a pair in [parse_qa_response]. *)
Definition accepts (prompt_type : PromptType) (current_q current_a : str)
    : bool :=
  match prompt_type with
  | alternative => true
  | default =>
      Py.endswith (txt "?") current_q &&
      (Py.contains (txt "based on") current_q ||
       Py.contains (txt "as per") current_q) &&
      Py.endswith (txt ")") current_a
  end.

Definition valid (prompt_type : PromptType) (p : qa_pair) : bool :=
  accepts prompt_type (question p) (answer p).

(** [if current_q and current_a: if ...: qa_pairs.append(...)] *)
Definition flush (prompt_type : PromptType) (qa_pairs : list qa_pair)
    (current_q current_a : option str) : list qa_pair :=
  match current_q, current_a with
  | Some q, Some a =>
      if Py.truthy q && Py.truthy a && accepts prompt_type q a
      then qa_pairs ++ [{| question := q; answer := a |}]
      else qa_pairs
  | _, _ => qa_pairs
  end.

(** [[line.strip() for line in response_text.split('\n') if line.strip()]] *)
Definition response_lines (response_text : str) : list str :=
  List.filter Py.truthy (map Py.strip (Py.split_on 10 response_text)).

(** The loop of [parse_qa_response] and the flush after it. *)
Fixpoint parse_lines (prompt_type : PromptType) (lines : list str)
    (qa_pairs : list qa_pair) (current_q current_a : option str)
    : list qa_pair :=
  match lines with
  | [] => flush prompt_type qa_pairs current_q current_a
  | line :: lines' =>
      if Py.startswith (txt "Q:") line then
        parse_lines prompt_type lines'
          (flush prompt_type qa_pairs current_q current_a)
          (Some (Py.strip (skipn 2 line))) None
      else if Py.startswith (txt "A:") line then
        parse_lines prompt_type lines' qa_pairs current_q
          (Some (Py.strip (skipn 2 line)))
      else parse_lines prompt_type lines' qa_pairs current_q current_a
  end.

(** [parse_qa_response] *)
Definition parse_qa_response (response_text : str) (prompt_type : PromptType)
    : list qa_pair :=
  parse_lines prompt_type (response_lines response_text) [] None None.

(** The pairs of question and answer, both not empty, that the scan
    reaches a flush with: what a response text holds, whatever the
    variant. *)
Fixpoint pending_pairs (lines : list str) (current_q current_a : option str)
    : list qa_pair :=
  let here :=
    match current_q, current_a with
    | Some q, Some a =>
        if Py.truthy q && Py.truthy a
        then [{| question := q; answer := a |}] else []
    | _, _ => []
    end in
  match lines with
  | [] => here
  | line :: lines' =>
      if Py.startswith (txt "Q:") line then
        here ++ pending_pairs lines' (Some (Py.strip (skipn 2 line))) None
      else if Py.startswith (txt "A:") line then
        pending_pairs lines' current_q (Some (Py.strip (skipn 2 line)))
      else pending_pairs lines' current_q current_a
  end.

Definition pairs_of (response_text : str) : list qa_pair :=
  pending_pairs (response_lines response_text) None None.

(** [self.session.post(...)]: the request is logged and counted. *)
Definition post (policy_doc_name keyword : str) (prompt_type : PromptType)
    (prompt : str) (st : generator_state) : generator_state * reply :=
  (emit (Post policy_doc_name keyword prompt_type prompt)
     {| processed_sections := processed_sections st;
        default_manager := default_manager st;
        alternative_manager := alternative_manager st;
        posted := S (posted st); log := log st |},
   service (posted st)).

(** The text of a reply that ends the loop: status 200 and a response
    field that is not blank. *)
Definition success_text (r : reply) : option str :=
  match r with
  | Response 200 (Some text) =>
      if Py.truthy (Py.strip text) then Some (Py.strip text) else None
  | _ => None
  end.

(** The [while retry_count < retries] loop of [generate_qa_pairs].
    [fuel] bounds the number of iterations; [retries] of them suffice. *)
Fixpoint attempts (fuel : nat) (policy_doc_name keyword : str)
    (prompt_type : PromptType) (prompt : str) (retry_count : nat)
    (st : generator_state) : generator_state * list qa_pair :=
  match fuel with
  | O => (st, [])
  | S fuel' =>
      if (retry_count <? retries (ollama config))%nat then
        let (st, r) := post policy_doc_name keyword prompt_type prompt st in
        match success_text r with
        | Some qa_text => (st, parse_qa_response qa_text prompt_type)
        | None =>
            let retry_count := (retry_count + 1)%nat in
            let st :=
              if (retry_count <? retries (ollama config))%nat
              then emit (Sleep (retry_delay (ollama config) *
                                (retry_count + 1))%nat) st
              else st in
            attempts fuel' policy_doc_name keyword prompt_type prompt
              retry_count st
        end
      else (st, [])
  end.

(** [generate_qa_pairs] *)
Definition generate_qa_pairs (policy_doc_name keyword : str)
    (occurrences : list PDFProcessor.finding) (prompt_type : PromptType)
    : M (list qa_pair) :=
  match occurrences with
  | [] => ret []
  | _ =>
      prompt <~ lift (generate_prompt policy_doc_name keyword occurrences
                        prompt_type) ;;
      fun st =>
        let (st, qa_pairs) :=
          attempts (retries (ollama config)) policy_doc_name keyword
            prompt_type prompt 0 st in
        (st, Ok qa_pairs)
  end.

(** [_get_policy_doc_name], for identifiers whose second part is a
    string of decimal digits, as [_generate_doc_id] makes them.  Python's
    [int] also reads a sign, blanks around the digits and underscores
    between them; the model does not follow it there and answers
    [ValueError], so what is proved of this function outside the
    identifiers of [_generate_doc_id] is proved of digit strings only. *)
Definition _get_policy_doc_name (doc_id : str) : result str :=
  match nth_error (Py.split_on 95 doc_id) 1 with
  | None => Raise IndexError
  | Some part =>
      match Py.int part with
      | None => Raise (ValueError part)
      | Some num =>
          Ok (txt "[POLICY_DOC_" ++ zero_pad 3 (str_of_nat (N.to_nat num))
              ++ txt "]")
      end
  end.

(** [f"{doc_id}|{keyword}|{prompt_type}"] *)
Definition checkpoint_key (doc_id keyword : str) (prompt_type : PromptType)
    : str :=
  doc_id ++ txt "|" ++ keyword ++ txt "|" ++ prompt_type_name prompt_type.

(** [QAOutputManager.add_keyword_content] *)
Definition add_keyword_content (doc_id policy_doc_name keyword : str)
    (qa_pairs : list qa_pair) (content : list PDFProcessor.finding)
    (original_filename : filename) (prompt_type : PromptType) : M unit :=
  modify (fun st =>
    let m := output_manager st prompt_type in
    let per_doc :=
      match get policy_doc_name (qa_json m) with
      | Some d => d
      | None => []
      end in
    let e := {| entry_qa_pairs := qa_pairs; entry_content := content;
                entry_original_filename := original_filename |} in
    emit (AddKeywordContent doc_id keyword prompt_type qa_pairs)
      (set_manager prompt_type
         {| qa_text := qa_text m;
            qa_json := PDFProcessor.store policy_doc_name
                         (PDFProcessor.store keyword e per_doc) (qa_json m);
            doc_stats := doc_stats m |} st)).

(** [QAOutputManager.add_qa_pair] *)
Definition add_qa_pair (doc_id qa_text_ : str) (prompt_type : PromptType)
    : M unit :=
  modify (fun st =>
    let m := output_manager st prompt_type in
    let texts :=
      match get doc_id (qa_text m) with
      | Some l => l
      | None => []
      end in
    emit (AddQAPair doc_id prompt_type qa_text_)
      (set_manager prompt_type
         {| qa_text := PDFProcessor.store doc_id (texts ++ [qa_text_])
                         (qa_text m);
            qa_json := qa_json m;
            doc_stats := doc_stats m |} st)).

(** [QAOutputManager.get_output_dir] *)
Definition get_output_dir (prompt_type : PromptType) : result str :=
  let names := subfolder_names (output config) in
  match get (txt "qa") names with
  | None => Raise (KeyError (txt "qa"))
  | Some qa =>
      let key := prompt_type_name prompt_type ++ txt "_prompt" in
      match get key names with
      | None => Raise (KeyError key)
      | Some sub =>
          Ok (base_folder (output config) ++ txt "/" ++ qa ++ txt "/" ++ sub)
      end
  end.

(** [QAOutputManager.count_text_stats] *)
Definition count_text_stats (text : str) : stats :=
  {| characters := length text; words := length (Py.split_ws text) |}.

(** [QAOutputManager.save_doc_outputs]; the contents written are not
    part of the model, the paths are. *)
Definition save_doc_outputs (doc_id policy_doc_name : str)
    (prompt_type : PromptType) : M unit :=
  fun st =>
    let m := output_manager st prompt_type in
    match get doc_id (qa_text m) with
    | None | Some [] => (st, Ok tt)
    | Some texts =>
        match get_output_dir prompt_type with
        | Raise e => (st, Raise e)
        | Ok output_dir =>
            let all_text :=
              Py.join (10 :: txt "<EOS>" ++ [10]) texts in
            let st :=
              set_manager prompt_type
                {| qa_text := qa_text m; qa_json := qa_json m;
                   doc_stats := PDFProcessor.store doc_id
                                  (count_text_stats all_text) (doc_stats m) |}
                st in
            let st :=
              emit (WriteFile (output_dir ++ txt "/" ++ doc_id
                               ++ txt "_qa.txt")) st in
            let st :=
              match get policy_doc_name (qa_json m) with
              | Some _ =>
                  emit (WriteFile (output_dir ++ txt "/" ++ doc_id
                                   ++ txt "_qa.json")) st
              | None => st
              end in
            (st, Ok tt)
        end
    end.

(** [QAOutputManager.save_combined_outputs] *)
Definition save_combined_outputs (prompt_type : PromptType) : M unit :=
  fun st =>
    let m := output_manager st prompt_type in
    match qa_json m with
    | [] => (st, Ok tt)
    | _ =>
        match get_output_dir prompt_type with
        | Raise e => (st, Raise e)
        | Ok output_dir =>
            let st :=
              match flat_map snd (qa_text m) with
              | [] => st
              | _ => emit (WriteFile (output_dir ++ txt "/combined_qa.txt")) st
              end in
            (emit (WriteFile (output_dir ++ txt "/combined_qa.json")) st,
             Ok tt)
        end
    end.

(** [f"Q: {qa['question']}\nA: {qa['answer']}"] *)
Definition qa_text_of (qa : qa_pair) : str :=
  txt "Q: " ++ question qa ++ 10 :: txt "A: " ++ answer qa.

(** The body of [for keyword in self.config.keywords] in
    [process_document_keywords]; the accumulator is [has_content]. *)
Definition process_keyword (doc_id : str) (findings : PDFProcessor.findings)
    (original_filename : filename) (prompt_type : PromptType)
    (policy_doc_name : str) (has_content : bool) (keyword : str) : M bool :=
  match PDFProcessor.lookup keyword findings with
  | None => ret has_content
  | Some occurrences =>
      fun st =>
        let key := checkpoint_key doc_id keyword prompt_type in
        if decide (key ∈ processed_sections st) then (st, Ok has_content)
        else
          match occurrences with
          | [] => (st, Ok has_content)
          | _ =>
              (qa_pairs <~ generate_qa_pairs policy_doc_name keyword
                             occurrences prompt_type ;;
               match qa_pairs with
               | [] => ret has_content
               | _ =>
                   add_keyword_content doc_id policy_doc_name keyword
                     qa_pairs occurrences original_filename prompt_type ;;;
                   mfold (fun (_ : unit) qa =>
                            add_qa_pair doc_id (qa_text_of qa) prompt_type)
                         qa_pairs tt ;;;
                   modify (add_checkpoint key) ;;;
                   ret true
               end) st
          end
  end.

(** [process_document_keywords] *)
Definition process_document_keywords (doc_id : str)
    (findings : PDFProcessor.findings) (original_filename : filename)
    (prompt_type : PromptType) : M unit :=
  policy_doc_name <~ lift (_get_policy_doc_name doc_id) ;;
  has_content <~ mfold (process_keyword doc_id findings original_filename
                          prompt_type policy_doc_name)
                   (keywords config) false ;;
  if has_content then save_doc_outputs doc_id policy_doc_name prompt_type
  else ret tt.

End Generator.

(** *** The vocabulary of the page field *)

(** The order [a <= b] that goes with a test [a < b]. *)
Definition le_of {A} (ltb : A -> A -> bool) (a b : A) : Prop :=
  ltb b a = false.

(** [a <= b] on strings and on the numbers of digit strings. *)
Definition str_le (a b : str) : Prop := str_ltb b a = false.

Section PageOrder.
Context {U : Unicode}.



End PageOrder.


(** A configuration with three retries, an occurrence, and a service
    that answers 500, then times out, then answers with one pair. *)
Definition config3 : ConfigurationManager.t :=
  {| storage := {| provider := txt "local"; project_id := None;
                   bucket_name := None; credentials_path := None |};
     output := {| base_folder := txt "out"; subfolder_names := [] |};
     processing := {| augmentation_factor := 1; parallel_prompts := false;
                      max_workers := 1%Z; checkpointing := true;
                      checkpoint_file := txt "c.pkl" |};
     ollama := {| model_name := txt "m"; base_url := txt "http://h";
                  temperature := 0; timeout := 30; retries := 3;
                  retry_delay := 5 |};
     keywords := [txt "claim"];
     prompts := [(txt "default", txt "T"); (txt "alternative", txt "T")] |}.

Definition one_finding : PDFProcessor.finding :=
  {| PDFProcessor.source_file := txt "doc_001";
     PDFProcessor.page_number := txt "one";
     PDFProcessor.line_number := txt "one";
     PDFProcessor.selected_text := txt "the claim";
     PDFProcessor.full_extracted_part := txt "the claim is filed";
     PDFProcessor.extraction_timestamp := txt "t" |}.

Definition flaky_service (n : nat) : reply :=
  match n with
  | 0%nat => Response 500 None
  | 1%nat => ReadTimeout
  | _ => Response 200 (Some (txt "Q: Why"%string ++ 10 :: txt "A: Because"))
  end.

(** *** The vocabulary of the checkpoint contract *)

(** A request made for the unit of [keyword] and [prompt_type]. *)
Definition is_post_for (keyword : str) (prompt_type : PromptType)
    (e : event) : Prop :=
  match e with
  | Post _ k t _ => k = keyword /\ t = prompt_type
  | _ => False
  end.

Definition is_checkpoint (e : event) : Prop :=
  match e with Checkpoint _ => True | _ => False end.

(** What recording a result leaves in the log: the entry of the
    keyword, then one text per pair. *)
Definition recorded (doc_id keyword : str) (prompt_type : PromptType)
    (qa_pairs : list qa_pair) : list event :=
  AddKeywordContent doc_id keyword prompt_type qa_pairs
  :: map (fun qa => AddQAPair doc_id prompt_type (qa_text_of qa)) qa_pairs.

(** The contract between the completed-set before ([done]) and after
    ([done']) and the effects [new] of a call for one document and one
    variant. *)
Definition contract (doc_id : str) (prompt_type : PromptType)
    (done done' : gset (list N)) (new : list event) : Prop :=
  (forall keyword,
     checkpoint_key doc_id keyword prompt_type ∈ done ->
     forall e, In e new -> ~ is_post_for keyword prompt_type e) /\
  (forall pre key post,
     new = pre ++ Checkpoint key :: post ->
     exists pre' policy_doc_name keyword prompt qa_pairs,
       qa_pairs <> [] /\
       key = checkpoint_key doc_id keyword prompt_type /\
       pre = pre' ++ Post policy_doc_name keyword prompt_type prompt
                  :: recorded doc_id keyword prompt_type qa_pairs) /\
  (forall key, key ∈ done' <-> key ∈ done \/ In (Checkpoint key) new).

End QAGenerator.

(** ** QAGenerator.process_content and main.py *)

Module Main.
Import ConfigurationManager.

(** What [main] hands to [process_content]: the findings of a single
    file, or the registry of a directory. *)
Inductive masked_content : Type :=
| Single (findings : PDFProcessor.findings)
| Corpus (documents : list (str * PDFProcessor.document)).

(** [parse_arguments]: the command line. *)
Record arguments : Type := {
  arg_config : str;
  arg_input : str;
  arg_single_file : bool;
  arg_keyword : option str
}.

(** The operations of a run, in order: an extraction is a call of
    [process_single_pdf]. *)
Inductive operation : Type :=
| Extraction (pdf_path : str)
| SaveMasked (path : str)
| Generation (e : QAGenerator.event).

Definition has_key {A} (k : str) (d : list (str * A)) : bool :=
  match PDFProcessor.lookup k d with Some _ => true | None => false end.

Section Run.
Context {U : Unicode}.
(** The host: the libraries, the files and the generation service. *)
Variable num2words : N -> str.
Variable format_template : str -> QAGenerator.prompt_fields -> result str.
Variable set_order : list str -> list str.
Variable service : nat -> QAGenerator.reply.
(** [ConfigurationManager(args.config)] *)
Variable load_config : str -> result ConfigurationManager.t.
(** [storage.list_files(path, extension='.pdf')] *)
Variable list_files : str -> list str.
(** [storage.read_file] followed by [fitz.open], and the clock while the
    document is processed. *)
Variable open_pdf : str -> result (list PDFProcessor.page).
Variable clock : str -> nat -> str.
(** The constructor of the cloud storage provider. *)
Variable connect : StorageConfig -> result unit.

Section Configured.
Variable config : ConfigurationManager.t.

(** The two passes of [process_content] over one document. *)
Definition process_document (doc_id : str)
    (findings : PDFProcessor.findings)
    (original_filename : QAGenerator.filename) : QAGenerator.M unit :=
  QAGenerator.mbind
    (QAGenerator.process_document_keywords config format_template set_order
       service doc_id findings original_filename QAGenerator.default)
    (fun _ =>
       QAGenerator.process_document_keywords config format_template set_order
         service doc_id findings original_filename QAGenerator.alternative).

Definition process_each_document
    (docs : list (str * QAGenerator.filename * PDFProcessor.findings))
    : QAGenerator.M unit :=
  QAGenerator.mbind
    (QAGenerator.mfold
       (fun (_ : unit) d => process_document (fst (fst d)) (snd d) (snd (fst d)))
       docs tt)
    (fun _ =>
       QAGenerator.mbind
         (QAGenerator.save_combined_outputs config QAGenerator.default)
         (fun _ =>
            QAGenerator.save_combined_outputs config QAGenerator.alternative)).

(** [QAGenerator.process_content].  The model covers the registries in
    which no document identifier is a configured keyword; on the others
    the source takes the registry for the findings of a single file,
    and the model answers [None]. *)
Definition process_content (masked : masked_content) (st : QAGenerator.generator_state)
    : option (QAGenerator.generator_state * result unit) :=
  match masked with
  | Single [] | Corpus [] => Some (st, Ok tt)
  | Single fs =>
      if negb (has_key (txt "findings") fs) &&
         existsb (fun k => has_key k fs) (keywords config)
      then
        let filename :=
          match PDFProcessor.lookup (txt "original_filename") fs with
          | Some occurrences => QAGenerator.FileOccurrences occurrences
          | None => QAGenerator.FileName (txt "single_file.pdf")
          end in
        Some (process_each_document [(txt "doc_001", filename, fs)] st)
      else
        (* [doc_data['findings']] on the list of a keyword *)
        Some (st, Raise TypeError)
  | Corpus docs =>
      if negb (has_key (txt "findings") docs) &&
         existsb (fun k => has_key k docs) (keywords config)
      then None
      else
        Some (process_each_document
                (map (fun d =>
                        (fst d,
                         QAGenerator.FileName
                           (PDFProcessor.original_filename (snd d)),
                         PDFProcessor.doc_findings (snd d)))
                     docs)
                st)
  end.

(** [pdf_path not in self.processed_files], on the elements of the set. *)
Definition not_processed (processed_files : list str) (pdf_path : str) : bool :=
  negb (existsb (Py.str_eqb pdf_path) processed_files).

(** What a call of [process_directory] leaves: the operations made, the
    processor, the set [processed_files] and what is returned or
    raised. *)
Record directory_run : Type := {
  run_trace : list operation;
  run_processor : PDFProcessor.processor_state;
  run_processed_files : list str;
  run_result : result (list (str * PDFProcessor.document))
}.

(** The calls that a pool of one worker makes for the paths submitted,
    one after the other in the order of submission, and the loop over
    the futures: the path of a call that returns is added to
    [processed_files], the exception of a call that raises is logged and
    dropped. *)
Definition run_submitted (st : PDFProcessor.processor_state)
    (processed_files submitted : list str)
    : list operation * (PDFProcessor.processor_state * list str) :=
  fold_left
    (fun acc pdf_path =>
       let call :=
         PDFProcessor.process_single_pdf num2words (keywords config)
           (clock pdf_path) (fst (snd acc)) pdf_path (open_pdf pdf_path) in
       (fst acc ++ [Extraction pdf_path],
        (fst call,
         match snd call with
         | Ok _ => QAGenerator.set_add pdf_path (snd (snd acc))
         | Raise _ => snd (snd acc)
         end)))
    submitted ([], (st, processed_files)).

(** [PDFProcessor.process_directory] on a processor in the state [st]
    whose set [processed_files] is given.  [ThreadPoolExecutor] refuses
    a number of workers that is not positive.  With one worker the
    calls submitted run one after the other in the order of
    submission, which is what the model follows; with more workers
    they interleave (see [Workers] for what that does to
    [_generate_doc_id]), and the model answers [None]. *)
Definition process_directory (st : PDFProcessor.processor_state)
    (processed_files : list str) (directory_path : str)
    : option directory_run :=
  match list_files directory_path with
  | [] =>
      Some {| run_trace := []; run_processor := st;
              run_processed_files := processed_files;
              run_result :=
                Raise (ValueError (txt "No PDF files found in "
                                   ++ directory_path)) |}
  | pdf_files =>
      let pdf_files := QAGenerator.stable_sort QAGenerator.str_ltb pdf_files in
      if (max_workers (processing config) <=? 0)%Z then
        Some {| run_trace := []; run_processor := st;
                run_processed_files := processed_files;
                run_result :=
                  Raise (ValueError
                           (txt "max_workers must be greater than 0")) |}
      else if (max_workers (processing config) =? 1)%Z then
        let run :=
          run_submitted st processed_files
            (List.filter (not_processed processed_files) pdf_files) in
        let st' := fst (snd run) in
        let processed := snd (snd run) in
        match PDFProcessor.combined_results st' with
        | [] =>
            Some {| run_trace := fst run; run_processor := st';
                    run_processed_files := processed; run_result := Ok [] |}
        | results =>
            match get (txt "masked") (subfolder_names (output config)) with
            | None =>
                Some {| run_trace := fst run; run_processor := st';
                        run_processed_files := processed;
                        run_result := Raise (KeyError (txt "masked")) |}
            | Some masked =>
                Some {| run_trace :=
                          fst run ++
                          [SaveMasked (base_folder (output config) ++ txt "/"
                                       ++ masked
                                       ++ txt "/combined_masked.json")];
                        run_processor := st';
                        run_processed_files := processed;
                        run_result := Ok results |}
            end
        end
      else None
  end.

Definition generate (trace : list operation) (masked : masked_content)
    : option (list operation * result unit) :=
  match process_content masked QAGenerator.new_generator with
  | None => None
  | Some (st, r) => Some (trace ++ map Generation (QAGenerator.log st), r)
  end.

(** The body of [main] once the configuration is loaded. *)
Definition run_configured (args : arguments) : option (list operation * result unit) :=
  (* PDFProcessor(config) *)
  match StorageFactory.create_provider connect (storage config) with
  | Raise e => Some ([], Raise e)
  | Ok _ =>
      if arg_single_file args then
        let pdf_path := arg_input args in
        match snd (PDFProcessor.process_single_pdf num2words (keywords config)
                     (clock pdf_path) PDFProcessor.new_processor pdf_path
                     (open_pdf pdf_path)) with
        | Raise e => Some ([Extraction pdf_path], Raise e)
        | Ok findings =>
            match arg_keyword args with
            | Some (_ :: _) =>
                (* [QAGenerator] has no [process_single_keyword] *)
                Some ([Extraction pdf_path], Raise AttributeError)
            | _ => generate [Extraction pdf_path] (Single findings)
            end
        end
      else
        (* a processor just made: nothing registered, no file processed *)
        match process_directory PDFProcessor.new_processor [] (arg_input args)
        with
        | None => None
        | Some run =>
            match run_result run with
            | Raise e => Some (run_trace run, Raise e)
            | Ok results => generate (run_trace run) (Corpus results)
            end
        end
  end.

End Configured.

(** [main]: the operations of the run and how it ends; [Raise] stands
    for the exception that [main] logs and raises again. *)
Definition main (args : arguments) : option (list operation * result unit) :=
  match load_config (arg_config args) with
  | Raise e => Some ([], Raise e)
  | Ok config => run_configured config args
  end.

End Run.

(** A configuration that has no keywords and is complete otherwise, and
    one that has no prompt templates. *)
Definition config_template (kws : list str) (ps : list (str * str))
    : ConfigurationManager.t :=
  {| storage := {| provider := txt "local"; project_id := None;
                   bucket_name := None; credentials_path := None |};
     output := {| base_folder := txt "out";
                  subfolder_names :=
                    [(txt "masked", txt "masked_content");
                     (txt "qa", txt "qa_outputs");
                     (txt "default_prompt", txt "default");
                     (txt "alternative_prompt", txt "alternative")] |};
     processing := {| augmentation_factor := 1; parallel_prompts := false;
                      max_workers := 1%Z; checkpointing := true;
                      checkpoint_file := txt "processing_checkpoint.pkl" |};
     ollama := {| model_name := txt "m"; base_url := txt "http://h";
                  temperature := 0; timeout := 30; retries := 3;
                  retry_delay := 5 |};
     keywords := kws;
     prompts := ps |}.

Definition config_without_keywords : ConfigurationManager.t :=
  config_template [] [(txt "default", txt "T"); (txt "alternative", txt "T")].

Definition config_without_prompts : ConfigurationManager.t :=
  config_template [txt "Hartford"] [].

(** A host for examples: three number words, templates rendered as they
    are, sets iterated in insertion order, a service that times out, one
    document behind every path, a cloud client that is created without
    an error. *)
Definition words (n : N) : str :=
  match n with
  | 1 => txt "one"
  | 2 => txt "two"
  | _ => txt "many"
  end.

Definition example_main (config : ConfigurationManager.t) (args : arguments)
    : option (list operation * result unit) :=
  @main ascii_only words (fun template _ => Ok template) (fun l => l)
    (fun _ => QAGenerator.ReadTimeout) (fun _ => Ok config) (fun _ => [])
    (fun _ => Ok PDFProcessor.doc_with_blank_line) (fun _ _ => txt "t")
    (fun _ => Ok tt) args.

(** A service that answers every request with one pair, and two calls
    of [process_document_keywords] for the same document and variant,
    the second in the state the first has left. *)
Definition steady_service (n : nat) : QAGenerator.reply :=
  QAGenerator.Response 200
    (Some (txt "Q: Why" ++ 10 :: txt "A: Because")).

Definition example_call (st : QAGenerator.generator_state)
    : QAGenerator.generator_state * result unit :=
  @QAGenerator.process_document_keywords ascii_only
    (config_template [txt "claim"]
       [(txt "default", txt "T"); (txt "alternative", txt "T")])
    (fun template _ => Ok template) (fun l => l) steady_service
    (txt "doc_001") [(txt "claim", [QAGenerator.one_finding])]
    (QAGenerator.FileName (txt "a.pdf")) QAGenerator.alternative st.

Definition single_file_arguments : arguments :=
  {| arg_config := txt "config.yaml"; arg_input := txt "a.pdf";
     arg_single_file := true; arg_keyword := None |}.

End Main.
(** ** Vocabulary of the properties *)

Module Text.
Section Strip.
Context {U : Unicode}.

(** A string that does not begin with a space character. *)
Definition head_ok (s : str) : Prop :=
  match s with [] => True | c :: _ => Py.is_space c = false end.

(** A question or an answer as the parser keeps it: not empty, stripped
    and on one line. *)
Definition one_line (s : str) : Prop :=
  s <> [] /\ Py.strip s = s /\ ~ In 10 s.

End Strip.
End Text.

Module Extraction.
Import PDFProcessor.

Section Lines.
Context {U : Unicode}.

(** The texts that the loop of [_get_block_text] appends: those of the
    lines that have spans and are not blank, stripped. *)
Definition line_texts (lines : list line) : list str :=
  flat_map (fun ln =>
              match line_spans ln with
              | None | Some [] => []
              | Some spans =>
                  if Py.truthy (line_text spans) then [line_text spans] else []
              end)
           lines.

(** The first line of a block, if it has one, has no empty list of
    spans: the case on which the heading test reads [spans[0]] of an
    empty list. *)
Definition first_line_has_span (b : block) : Prop :=
  forall ln lines,
    block_lines b = Some (ln :: lines) -> line_spans ln <> Some [].

(** What an occurrence record of the document [doc_id] with [pages]
    pages looks like. *)
Definition recorded_in (num2words : N -> str) (doc_id : str) (pages : nat)
    (f : finding) : Prop :=
  source_file f = doc_id /\
  full_extracted_part f <> [] /\
  (exists p, (1 <= p <= pages)%nat /\ page_number f = num2words (N.of_nat p)) /\
  (exists l, (1 <= l)%nat /\ line_number f = num2words (N.of_nat l)).

End Lines.

Section Registry.
Context {U : Unicode}.
Variable num2words : N -> str.
Variable keywords : list str.


End Registry.

(** A two-page document: a heading, and a block of two lines. *)
Definition two_pages : list page :=
  [ [ block_of [["COVERAGE"]] ];
    [ block_of [["The claim is filed."; "Benefits follow the claim"]] ] ]%string.

End Extraction.

(** ** Vocabulary of the generation *)

Module Generation.
Import QAGenerator.


(** The other variant. *)
Definition other (prompt_type : PromptType) : PromptType :=
  match prompt_type with
  | default => alternative
  | alternative => default
  end.

(** A service that never answers. *)
Definition silent_service (n : nat) : reply := ReadTimeout.

(** A response with two pairs, the second of which the default variant
    accepts. *)
Definition two_pairs : str :=
  txt "Q: Why" ++ 10 :: txt "A: Because" ++ 10
  :: txt "Q: What is covered as per the policy?" ++ 10
  :: txt "A: Everything (page one)".

(** A generator that has completed the unit of the document
    [doc_001], the keyword [claim] and the alternative variant. *)
Definition resumed : generator_state :=
  {| processed_sections :=
       {[ checkpoint_key (txt "doc_001") (txt "claim") alternative ]};
     default_manager := new_manager;
     alternative_manager := new_manager;
     posted := 0;
     log := [] |}.

End Generation.

(** ** Vocabulary of the masking *)

Module Masking.
Import Re ContentMasker.

Section Clean.
Context {U : Unicode}.

(** No pattern of the masker has a match at any position of [x]: what
    [re.search] would report for each of them is nothing. *)
Definition clean (x : str) : Prop :=
  forall rl u v, In rl rules -> x = u ++ v ->
    match_at (bounded (fst rl)) (lastc None u) v = None.

(** Every word that the pattern matches holds a character of [P]. *)
Fixpoint needs (P : N -> bool) (r : regex) : Prop :=
  match r with
  | Eps | Bnd => False
  | Rep cls lo _ => (1 <= lo)%nat /\ forall c, cls c = true -> P c = true
  | Seq r1 r2 => needs P r1 \/ needs P r2
  | Alt r1 r2 => needs P r1 /\ needs P r2
  end.

(** A decimal digit or the character [@]. *)
Definition digit_or_at (c : N) : bool := Py.is_decimal c || (c =? 64).

(** The substitutions of the company names, the last ones of
    [mask_sensitive_info], alone. *)
Definition mask_company_names (text : str) : str :=
  fold_left
    (fun text company =>
       sub (bounded (company_body company)) (txt "[COMPANY_NAME]") text)
    company_names text.

End Clean.

(** The search for the part of a pattern that needs a digit or [@]:
    a repetition of [\d] at least once, or the literal [@]. *)
Ltac by_digit :=
  split; [lia | intros c Hc; unfold digit_or_at; unfold Re.d in Hc;
                rewrite Hc; reflexivity].
Ltac by_at :=
  split; [lia | intros c Hc; destruct c as [|q]; [discriminate Hc|];
                apply Pos.eqb_eq in Hc; subst q; reflexivity].
Ltac find_needed :=
  simpl;
  repeat (first [ left; solve [by_digit | by_at] | right ]);
  solve [by_digit | by_at].

End Masking.

(** ** utils/config_manager.py: the defaults of the output section *)

Module OutputSection.
Import ConfigurationManager.

(** The [output] section of the configuration file: its two optional
    keys. *)
Record yaml : Type := {
  yaml_base_folder : option str;
  yaml_subfolder_names : option (list (str * str))
}.

(** [_init_output_config]; [None] stands for a file without an
    [output] section, read as [{}]. *)
Definition _init_output_config (section : option yaml) : OutputConfig :=
  let output_config :=
    match section with
    | Some s => s
    | None => {| yaml_base_folder := None; yaml_subfolder_names := None |}
    end in
  {| base_folder :=
       match yaml_base_folder output_config with
       | Some folder => folder
       | None => txt "processed_outputs"
       end;
     subfolder_names :=
       match yaml_subfolder_names output_config with
       | Some names => names
       | None => [(txt "masked", txt "masked_content");
                  (txt "qa", txt "qa_outputs")]
       end |}.

(** The configuration [config3] with the output section left to its
    defaults. *)
Definition config_default_output : ConfigurationManager.t :=
  {| storage := storage QAGenerator.config3;
     output := _init_output_config None;
     processing := processing QAGenerator.config3;
     ollama := ollama QAGenerator.config3;
     keywords := keywords QAGenerator.config3;
     prompts := prompts QAGenerator.config3 |}.

(** The command line [--single-file --input a.pdf --keyword claim]. *)
Definition keyword_arguments : Main.arguments :=
  {| Main.arg_config := txt "config.yaml"; Main.arg_input := txt "a.pdf";
     Main.arg_single_file := true; Main.arg_keyword := Some (txt "claim") |}.

End OutputSection.
(* ------------------------------------------------------------------ *)
(** * Properties *)

(** ** The matcher finds a match exactly where the pattern has one *)

Module ReFacts.
Import Re.

Section Facts.
Context {U : Unicode}.

Lemma lastc_app l w1 w2 : lastc l (w1 ++ w2) = lastc (lastc l w1) w2.
Proof. revert l; induction w1 as [|c w1 IH]; intros l; simpl; auto. Qed.

Lemma lastc_nonempty l l' w : w <> [] -> lastc l w = lastc l' w.
Proof. destruct w; [congruence|reflexivity]. Qed.

Lemma rep_sound cls k out s : forall lo hi l,
  rep cls lo hi l s k = Some out ->
  exists w rest, s = w ++ rest /\ Forall (fun c => cls c = true) w /\
    (lo <= length w)%nat /\ within hi (length w) /\
    k (lastc l w) rest = Some out.
Proof.
  induction s as [|c s IH]; intros lo hi l H; simpl in H.
  - destruct lo; [|discriminate].
    exists [], []. repeat split; auto. destruct hi; simpl; auto with arith.
  - assert (Hstop : match lo with O => k l (c :: s) | S _ => None end = Some out ->
              exists w rest, c :: s = w ++ rest /\
                Forall (fun c => cls c = true) w /\
                (lo <= length w)%nat /\ within hi (length w) /\
                k (lastc l w) rest = Some out).
    { intros H'. destruct lo; [|discriminate].
      exists [], (c :: s). repeat split; auto.
      destruct hi; simpl; auto with arith. }
    destruct (cls c) eqn:Hc; simpl in H; [|auto].
    destruct (hi_open hi) eqn:Hh; [|auto].
    destruct (rep cls (Nat.pred lo) (hi_pred hi) (Some c) s k) eqn:Hr; [|auto].
    injection H as <-.
    apply IH in Hr as (w & rest & -> & Hw & Hlo & Hhi & Hk).
    exists (c :: w), rest. simpl. repeat split; auto.
    + lia.
    + destruct hi as [[|h]|]; simpl in *; try discriminate; auto. lia.
Qed.

Lemma rep_complete cls k rest w : forall lo hi l,
  Forall (fun c => cls c = true) w ->
  (lo <= length w)%nat -> within hi (length w) ->
  k (lastc l w) rest <> None ->
  rep cls lo hi l (w ++ rest) k <> None.
Proof.
  induction w as [|c w IH]; intros lo hi l Hw Hlo Hhi Hk; simpl in *.
  - assert (lo = 0%nat) as -> by lia.
    destruct rest as [|c s]; simpl; auto.
    destruct (cls c && hi_open hi); auto.
    destruct (rep cls _ _ _ _ _); [discriminate|auto].
  - inversion Hw as [|? ? Hc Hw']; subst. rewrite Hc. simpl.
    assert (hi_open hi = true) as -> by (destruct hi as [[|h]|]; simpl in *; auto; lia).
    assert (Hin : rep cls (Nat.pred lo) (hi_pred hi) (Some c) (w ++ rest) k <> None).
    { apply IH; auto; [lia|]. destruct hi as [h|]; simpl in *; auto. lia. }
    destruct (rep cls _ _ _ _ _); [discriminate|congruence].
Qed.

Lemma run_sound r : forall l s k out,
  run r l s k = Some out ->
  exists w rest, s = w ++ rest /\ matches r l w rest /\
    k (lastc l w) rest = Some out.
Proof.
  induction r as [| |cls lo hi|r1 IH1 r2 IH2|r1 IH1 r2 IH2];
    intros l s k out H; simpl in H.
  - exists [], s. repeat split; auto. constructor.
  - destruct (boundary l s) eqn:Hb; [|discriminate].
    exists [], s. repeat split; auto. constructor; auto.
  - apply rep_sound in H as (w & rest & -> & Hw & Hlo & Hhi & Hk).
    exists w, rest. repeat split; auto. constructor; auto.
  - apply IH1 in H as (w1 & rest1 & -> & H1 & H).
    apply IH2 in H as (w2 & rest & -> & H2 & H).
    exists (w1 ++ w2), rest. rewrite <- app_assoc, lastc_app.
    repeat split; auto. constructor; auto.
  - destruct (run r1 l s k) eqn:H1.
    + injection H as <-. apply IH1 in H1 as (w & rest & -> & Hm & Hk).
      exists w, rest. repeat split; auto. apply M_alt_l; auto.
    + apply IH2 in H as (w & rest & -> & Hm & Hk).
      exists w, rest. repeat split; auto. apply M_alt_r; auto.
Qed.

Lemma run_complete r l w rest :
  matches r l w rest ->
  forall k, k (lastc l w) rest <> None -> run r l (w ++ rest) k <> None.
Proof.
  induction 1 as [l rest|l rest Hb|cls lo hi l w rest Hw Hlo Hhi
                  |r1 r2 l w1 w2 rest _ IH1 _ IH2
                  |r1 r2 l w rest _ IH|r1 r2 l w rest _ IH];
    intros k Hk; simpl in *; auto.
  - rewrite Hb; auto.
  - apply rep_complete; auto.
  - rewrite <- app_assoc. apply IH1. apply IH2. rewrite <- lastc_app; auto.
  - specialize (IH k Hk). destruct (run r1 l (w ++ rest) k); [discriminate|congruence].
  - destruct (run r1 l (w ++ rest) k); [discriminate|auto].
Qed.

Lemma match_at_sound r l s rest :
  match_at r l s = Some rest -> exists w, s = w ++ rest /\ matches r l w rest.
Proof.
  unfold match_at. intros H.
  apply run_sound in H as (w & rest' & -> & Hm & Hk).
  injection Hk as <-. eauto.
Qed.

Lemma match_at_complete r l w rest :
  matches r l w rest -> match_at r l (w ++ rest) <> None.
Proof. intros H. apply (run_complete _ _ _ _ H). discriminate. Qed.

Lemma match_at_none r l s : match_at r l s = None <-> ~ head_match r l s.
Proof.
  split.
  - intros H (w & rest & -> & Hm). now apply match_at_complete in Hm.
  - intros H. destruct (match_at r l s) eqn:E; auto.
    apply match_at_sound in E as (w & -> & Hm). exfalso. apply H. red; eauto.
Qed.

End Facts.
End ReFacts.

(** ** Substitution leaves nothing of its own pattern behind, and makes
       nothing new for the other patterns *)

Module SubFacts.
Import Re ReFacts.

Section Facts.
Context {U : Unicode}.

Lemma sub_go_skip r tok m : forall l rest,
  sub_go r tok l (m ++ rest) (length m) = sub_go r tok (lastc l m) rest 0.
Proof. induction m as [|c m IH]; intros l rest; simpl; auto. Qed.

Lemma nullable_complete r l w rest :
  matches r l w rest -> w = [] -> nullable r = true.
Proof.
  induction 1 as [| |cls lo hi l w rest Hw Hlo Hhi
                  |r1 r2 l w1 w2 rest _ IH1 _ IH2
                  |r1 r2 l w rest _ IH|r1 r2 l w rest _ IH];
    intros E; simpl; auto.
  - subst. simpl in Hlo. apply Nat.eqb_eq. lia.
  - apply app_eq_nil in E as [-> ->]. rewrite IH1, IH2; auto.
  - rewrite IH; auto.
  - rewrite IH; auto. apply orb_true_r.
Qed.

Lemma no_bracket_sound r l w rest :
  matches r l w rest -> no_bracket r = true ->
  Forall (fun c => bracket c = false) w.
Proof.
  induction 1 as [| |cls lo hi l w rest Hw Hlo Hhi
                  |r1 r2 l w1 w2 rest _ IH1 _ IH2
                  |r1 r2 l w rest _ IH|r1 r2 l w rest _ IH];
    simpl; intros Hn; auto.
  - apply andb_prop in Hn as [H1 H2].
    apply negb_true_iff in H1, H2.
    eapply List.Forall_impl; [|exact Hw]. intros c Hc. unfold bracket.
    destruct (N.eqb_spec c 91) as [->|]; [congruence|].
    destruct (N.eqb_spec c 93) as [->|]; [congruence|]. reflexivity.
  - apply andb_prop in Hn as [H1 H2]. apply List.Forall_app; split; auto.
  - apply andb_prop in Hn as [H1 H2]; auto.
  - apply andb_prop in Hn as [H1 H2]; auto.
Qed.

(** A pattern without boundary of its own matches a word whatever
    stands around it. *)
Lemma no_bnd_context r l w rest :
  matches r l w rest -> no_bnd r = true ->
  forall l' rest', matches r l' w rest'.
Proof.
  induction 1 as [| |cls lo hi l w rest Hw Hlo Hhi
                  |r1 r2 l w1 w2 rest _ IH1 _ IH2
                  |r1 r2 l w rest _ IH|r1 r2 l w rest _ IH];
    simpl; intros Hn l' rest'; try discriminate.
  - constructor.
  - constructor; auto.
  - apply andb_prop in Hn as [H1 H2]. constructor; auto.
  - apply andb_prop in Hn as [H1 H2]. apply M_alt_l; auto.
  - apply andb_prop in Hn as [H1 H2]. apply M_alt_r; auto.
Qed.

(** What a match of [\b body \b] amounts to. *)
Lemma bounded_inv b l w rest :
  matches (bounded b) l w rest ->
  boundary l (w ++ rest) = true /\ matches b l w rest /\
  boundary (lastc l w) rest = true.
Proof.
  unfold bounded. intros H.
  inversion H as [| | |? ? ? w1 w2' ? H1 H2| |]; subst.
  inversion H1; subst. simpl in *.
  inversion H2 as [| | |? ? ? w2 w3 ? H3 H4| |]; subst.
  inversion H4; subst. rewrite app_nil_r in *. simpl in *.
  repeat split; auto.
Qed.

Lemma bounded_intro b l w rest :
  boundary l (w ++ rest) = true -> matches b l w rest ->
  boundary (lastc l w) rest = true ->
  matches (bounded b) l w rest.
Proof.
  intros H1 H2 H3. unfold bounded.
  apply (M_seq Bnd (Seq b Bnd) l [] w rest).
  - constructor. exact H1.
  - simpl. pose proof (M_seq b Bnd l w [] rest) as M.
    rewrite app_nil_r in M. apply M.
    + simpl. exact H2.
    + constructor. exact H3.
Qed.

Lemma boundary_head l c w a b :
  boundary l ((c :: w) ++ a) = boundary l ((c :: w) ++ b).
Proof. reflexivity. Qed.

(** The facts about a match of a well-formed rule. *)
Lemma good_match b l w rest :
  good_body b = true -> matches (bounded b) l w rest ->
  w <> [] /\ Forall (fun c => bracket c = false) w /\
  boundary l (w ++ rest) = true /\ boundary (lastc l w) rest = true /\
  forall l' rest',
    boundary l' (w ++ rest') = true -> boundary (lastc l' w) rest' = true ->
    matches (bounded b) l' w rest'.
Proof.
  unfold good_body. intros Hg Hm.
  apply andb_prop in Hg as [Hg Hnull]. apply andb_prop in Hg as [Hbnd Hbr].
  apply bounded_inv in Hm as (Hl & Hb & Hr).
  repeat split; auto.
  - intros ->. rewrite (nullable_complete _ _ _ _ Hb) in Hnull by auto.
    discriminate.
  - eapply no_bracket_sound; eauto.
  - intros l' rest' Hl' Hr'. apply bounded_intro; auto.
    eapply no_bnd_context; eauto.
Qed.

Lemma match_at_nonempty b l s rest :
  good_body b = true -> match_at (bounded b) l s = Some rest ->
  exists c w, s = (c :: w) ++ rest /\ matches (bounded b) l (c :: w) rest.
Proof.
  intros Hg H. apply match_at_sound in H as (w & -> & Hm).
  destruct (good_match _ _ _ _ Hg Hm) as (Hne & _).
  destruct w as [|c w]; [congruence|]. eauto.
Qed.

(** [sub] runs along a derivation of [Subst]. *)
Lemma sub_go_Subst b tok : good_body b = true ->
  forall n s l, (length s <= n)%nat ->
  Subst (bounded b) tok l s (sub_go (bounded b) tok l s 0).
Proof.
  intros Hg. induction n as [|n IH]; intros s l Hlen.
  - destruct s; [|simpl in Hlen; lia]. simpl. unfold match_len.
    destruct (match_at (bounded b) l []) eqn:E; [|constructor].
    apply (match_at_nonempty _ _ _ _ Hg) in E as (c & w & E & _).
    discriminate.
  - destruct s as [|c s].
    + simpl. unfold match_len.
      destruct (match_at (bounded b) l []) eqn:E; [|constructor].
      apply (match_at_nonempty _ _ _ _ Hg) in E as (c & w & E & _).
      discriminate.
    + simpl in Hlen. simpl. unfold match_len.
      destruct (match_at (bounded b) l (c :: s)) as [rest|] eqn:E.
      * apply (match_at_nonempty _ _ _ _ Hg) in E as (c' & w & E & Hm).
        injection E as <- ->.
        replace (length (c :: w ++ rest) - length rest)%nat
          with (S (length w)) by (simpl; rewrite length_app; lia).
        rewrite sub_go_skip.
        apply (Subst_rep _ _ l (c :: w) rest); [discriminate|exact Hm|].
        apply IH. rewrite length_app in Hlen. lia.
      * apply Subst_keep; [exact E|]. apply IH. lia.
Qed.

Lemma sub_Subst b tok s : good_body b = true ->
  Subst (bounded b) tok None s (sub (bounded b) tok s).
Proof. intros Hg. apply (sub_go_Subst b tok Hg (length s)). lia. Qed.

(** Text without a match is left as it is. *)
Lemma no_match_fixed r tok s : forall l,
  no_match r l s -> sub_go r tok l s 0 = s.
Proof.
  induction s as [|c s IH]; intros l [Hh Ht]; simpl; unfold match_len.
  - apply match_at_none in Hh. rewrite Hh. reflexivity.
  - apply match_at_none in Hh. rewrite Hh. f_equal. auto.
Qed.

Lemma no_match_app r u v : forall l,
  no_match_in r l u v -> no_match r (lastc l u) v -> no_match r l (u ++ v).
Proof.
  induction u as [|c u IH]; intros l Hin Hv; simpl in *; auto.
  destruct Hin as [Hh Hin]. split; auto.
Qed.

Lemma no_match_left r l l' s :
  no_match r l s -> ~ head_match r l' s -> no_match r l' s.
Proof. destruct s; simpl; intros [_ Ht] Hh; auto. Qed.

Lemma safe_suffix ri rj m rest : forall l,
  safe ri rj l (m ++ rest) -> safe ri rj (lastc l m) rest.
Proof.
  induction m as [|c m IH]; intros l H; simpl in *; auto.
  destruct H as [_ H]. auto.
Qed.

Lemma safe_self r s : forall l, safe r r l s.
Proof.
  induction s as [|c s IH]; intros l; simpl; split; auto;
    apply match_at_none.
Qed.

Lemma no_match_safe ri rj s : forall l, no_match ri l s -> safe ri rj l s.
Proof.
  induction s as [|c s IH]; intros l [Hh Ht]; simpl; split; auto.
Qed.

Lemma lastc_snoc u c : forall l, lastc l (u ++ [c]) = Some c.
Proof. induction u as [|x u IH]; intros l; simpl; auto. Qed.

Section TwoRules.
Variables (bi bj : regex) (name : str).
Hypothesis Hgi : good_body bi = true.
Hypothesis Hgj : good_body bj = true.
Hypothesis Hname : forallb Py.is_word name = true.
Hypothesis Hni : match_at (bounded bi) (Some 91) (name ++ [93]) = None.

Local Abbreviation ri := (bounded bi).
Local Abbreviation rj := (bounded bj).
Local Abbreviation tok := (token name).

(** The part of the output before the first replacement is a part of
    the input. *)
Lemma Subst_prefix w : forall l s rest,
  Subst rj tok l s (w ++ rest) ->
  Forall (fun c => bracket c = false) w ->
  exists rest', s = w ++ rest' /\ Subst rj tok (lastc l w) rest' rest.
Proof using Type.
  induction w as [|c w IH]; intros l s rest HS Hw; simpl in *.
  - exists s. auto.
  - inversion Hw as [|? ? Hc Hw']; subst.
    inversion HS as [|? ? s0 o0 Hnone HS'|? m rest0 o0 Hne Hm HS']; subst.
    + apply IH in HS' as (rest' & -> & HS'); auto. exists rest'. auto.
    + discriminate Hc.
Qed.

Lemma Subst_boundary l s o :
  Subst rj tok l s o -> boundary l o = true -> boundary l s = true.
Proof using Type.
  intros HS Hb. inversion HS as [| |? m rest o0 Hne Hm HS']; subst; auto.
  apply bounded_inv in Hm as (H & _). exact H.
Qed.

(** A match of [ri] at the head of the output is one at the head of the
    input. *)
Lemma head_transfer l0 s o l :
  Subst rj tok l0 s o -> head_match ri l o -> head_match ri l s.
Proof using Hgi.
  intros HS (w & rest & -> & Hm).
  destruct (good_match _ _ _ _ Hgi Hm) as (Hne & Hbr & Hl & Hr & Hre).
  destruct (Subst_prefix _ _ _ _ HS Hbr) as (rest' & -> & HS').
  exists w, rest'. split; auto. apply Hre.
  - destruct w; [congruence|]. exact Hl.
  - rewrite (lastc_nonempty l l0) in * by auto.
    eapply Subst_boundary; eauto.
Qed.

Lemma is_word_bracket c : Py.is_word c = true -> bracket c = false.
Proof using Type.
  unfold bracket. destruct (N.eqb_spec c 91) as [->|];
    [discriminate|]. destruct (N.eqb_spec c 93) as [->|]; [discriminate|].
  reflexivity.
Qed.

(** Inside a run of word characters that follows a word character, no
    match starts. *)
Lemma word_run_no_match u o : forall q,
  Py.is_word q = true -> forallb Py.is_word u = true ->
  no_match_in ri (Some q) (u ++ [93]) o.
Proof using Hgi.
  induction u as [|c u IH]; intros q Hq Hu; simpl in *.
  - split; auto. intros (w & rest & E & Hm).
    destruct (good_match _ _ _ _ Hgi Hm) as (Hne & Hbr & _).
    destruct w as [|c w]; [congruence|]. injection E as <- _.
    inversion Hbr; subst. discriminate.
  - apply andb_prop in Hu as [Hc Hu]. split; [|apply IH; auto].
    intros (w & rest & E & Hm).
    destruct (good_match _ _ _ _ Hgi Hm) as (Hne & _ & Hl & _).
    destruct w as [|c' w]; [congruence|]. injection E as <- _.
    unfold boundary in Hl. simpl in Hl. rewrite Hq, Hc in Hl. discriminate.
Qed.

Lemma prefix_of_name w : forall nm rest o,
  nm ++ 93 :: o = w ++ rest ->
  Forall (fun c => bracket c = false) w ->
  exists n2, nm = w ++ n2 /\ rest = n2 ++ 93 :: o.
Proof using Type.
  induction w as [|c w IH]; intros nm rest o E Hw; simpl in *.
  - exists nm. auto.
  - inversion Hw as [|? ? Hc Hw']; subst.
    destruct nm as [|x nm]; simpl in E.
    + injection E as <- _. discriminate.
    + injection E as <- E. apply IH in E as (n2 & -> & ->); auto.
      exists n2. auto.
Qed.

Lemma lastc_word w : forall l,
  w <> [] -> forallb Py.is_word w = true -> wordb (lastc l w) = true.
Proof using Type.
  induction w as [|c w IH]; intros l Hne Hw; [congruence|].
  simpl in *. apply andb_prop in Hw as [Hc Hw].
  destruct w as [|c' w]; [simpl; exact Hc|].
  apply IH; [discriminate|exact Hw].
Qed.

(** No match of [ri] starts inside the replacement. *)
Lemma token_no_match l o : no_match_in ri l tok o.
Proof using Hgi Hname Hni.
  unfold tok, token. simpl. split.
  - intros (w & rest & E & Hm).
    destruct (good_match _ _ _ _ Hgi Hm) as (Hne & Hbr & _).
    destruct w as [|c w]; [congruence|]. injection E as <- _.
    inversion Hbr; subst. discriminate.
  - destruct name as [|c u] eqn:En.
    + simpl. split; auto. intros (w & rest & E & Hm).
      destruct (good_match _ _ _ _ Hgi Hm) as (Hne & Hbr & _).
      destruct w as [|c w]; [congruence|]. injection E as <- _.
      inversion Hbr; subst. discriminate.
    + rewrite <- En in *. assert (Hnm : name <> []) by (rewrite En; discriminate).
      assert (Hfirst : ~ head_match ri (Some 91) ((name ++ [93]) ++ o)).
      { intros (w & rest & E & Hm).
        destruct (good_match _ _ _ _ Hgi Hm) as (Hne & Hbr & Hl & Hr & Hre).
        rewrite <- app_assoc in E. simpl in E.
        destruct (prefix_of_name _ _ _ _ E Hbr) as (n2 & En2 & ->).
        destruct n2 as [|x n2].
        - rewrite app_nil_r in En2. subst w.
          assert (Hm' : matches ri (Some 91) name [93]).
          { apply Hre.
            - destruct name; [congruence|]. exact Hl.
            - unfold boundary. rewrite lastc_word by auto. reflexivity. }
          apply match_at_complete in Hm'. apply Hm'. exact Hni.
        - unfold boundary in Hr. simpl in Hr.
          assert (Hw : forallb Py.is_word w = true).
          { rewrite En2, forallb_app in Hname.
            apply andb_prop in Hname as [H _]. exact H. }
          assert (Hx : Py.is_word x = true).
          { rewrite En2, forallb_app in Hname.
            apply andb_prop in Hname as [_ H]. simpl in H.
            apply andb_prop in H as [H _]. exact H. }
          rewrite lastc_word in Hr by auto. rewrite Hx in Hr. discriminate. }
      rewrite En in *. simpl in *. split; [exact Hfirst|].
      apply andb_prop in Hname as [Hc Hu]. apply word_run_no_match; auto.
Qed.

Lemma lastc_token l : lastc l tok = Some 93.
Proof using Type.
  unfold tok, token. simpl. apply lastc_snoc.
Qed.

(** After the substitution of [rj], [ri] has no match, provided it had
    none in the text kept. *)
Lemma Subst_no_match l s o :
  Subst rj tok l s o -> safe ri rj l s -> no_match ri l o.
Proof using Hgi Hgj Hname Hni.
  induction 1 as [l|l c s o Hnone HS IH|l m rest o Hne Hm HS IH]; intros Hsafe.
  - simpl. split; auto. intros (w & rest & E & Hm).
    destruct (good_match _ _ _ _ Hgi Hm) as (Hne & _).
    destruct w; [congruence|discriminate].
  - simpl in Hsafe. destruct Hsafe as [Hh Hsafe]. simpl. split; auto.
    intros Hhead. apply (Hh Hnone).
    eapply head_transfer; [|exact Hhead].
    apply Subst_keep; eauto.
  - apply safe_suffix in Hsafe. specialize (IH Hsafe).
    apply no_match_app; [apply token_no_match|].
    rewrite lastc_token. apply (no_match_left _ _ _ _ IH).
    intros Hhead.
    assert (Hhead' := head_transfer _ _ _ _ HS Hhead).
    destruct Hhead as (w & rest2 & -> & Hw).
    destruct (good_match _ _ _ _ Hgi Hw) as (Hne2 & Hbr & Hl & Hr & _).
    destruct w as [|c0 w]; [congruence|].
    inversion Hbr as [|? ? Hc0 _]; subst.
    assert (Hword : Py.is_word c0 = true).
    { unfold boundary in Hl. simpl in Hl. exact Hl. }
    destruct Hhead' as (w' & rest3 & E & Hw').
    destruct (good_match _ _ _ _ Hgi Hw') as (Hne3 & _ & _ & Hr' & Hre).
    destruct w' as [|c1 w']; [congruence|].
    apply bounded_inv in Hm as (_ & _ & Hmr).
    subst rest. simpl in HS, Hmr, Hsafe.
    assert (Hc1 : c1 = c0).
    { inversion HS; subst; [reflexivity|discriminate Hc0]. }
    subst c1.
    destruct Hsafe as [Hh _]. apply Hh.
    + inversion HS; subst; auto; discriminate Hc0.
    + exists (c0 :: w'), rest3. split; [reflexivity|].
      apply Hre; [exact Hmr|exact Hr'].
Qed.

End TwoRules.

(** [sub] removes every match of its own pattern. *)
Lemma sub_no_match_own b name s :
  good_body b = true -> forallb Py.is_word name = true ->
  match_at (bounded b) (Some 91) (name ++ [93]) = None ->
  no_match (bounded b) None (sub (bounded b) (token name) s).
Proof.
  intros Hg Hname Hn.
  apply (Subst_no_match b b name Hg Hg Hname Hn None s).
  - apply sub_Subst; auto.
  - apply safe_self.
Qed.

(** [sub] introduces no match of another pattern. *)
Lemma sub_no_match_other bi bj name s :
  good_body bi = true -> good_body bj = true ->
  forallb Py.is_word name = true ->
  match_at (bounded bi) (Some 91) (name ++ [93]) = None ->
  no_match (bounded bi) None s ->
  no_match (bounded bi) None (sub (bounded bj) (token name) s).
Proof.
  intros Hgi Hgj Hname Hn Hs.
  apply (Subst_no_match bi bj name Hgi Hgj Hname Hn None s).
  - apply sub_Subst; auto.
  - apply no_match_safe; auto.
Qed.

End Facts.
End SubFacts.

(** ** ContentMasker *)

Module MaskerFacts.
Import Re ReFacts SubFacts ContentMasker.

Section Facts.
Context {U : Unicode}.

Lemma mask_as_rules text :
  mask_sensitive_info text = fold_left apply_rule rules text.
Proof. reflexivity. Qed.

Lemma rules_good : good_rules rules = true.
Proof. vm_compute. reflexivity. Qed.

Section Rules.
Variable rs : list rule.
Hypothesis Hgood : good_rules rs = true.

Lemma good_rule_in rl : In rl rs -> good_rule rs rl = true.
Proof using Hgood.
  intros H. unfold good_rules in Hgood.
  rewrite forallb_forall in Hgood. auto.
Qed.

Lemma good_rule_parts rl rl' :
  In rl rs -> In rl' rs ->
  good_body (fst rl) = true /\ forallb Py.is_word (snd rl) = true /\
  match_at (bounded (fst rl')) (Some 91) (snd rl ++ [93]) = None.
Proof using Hgood.
  intros H H'. apply good_rule_in in H. unfold good_rule in H.
  apply andb_prop in H as [H H3]. apply andb_prop in H as [H1 H2].
  repeat split; auto.
  rewrite forallb_forall in H3. specialize (H3 _ H').
  destruct (match_at _ _ _); [discriminate|reflexivity].
Qed.

(** Once a rule has been applied, no later rule brings its pattern
    back. *)
Lemma fold_no_match todo : forall done x,
  incl done rs -> incl todo rs ->
  (forall rl, In rl done -> no_match (bounded (fst rl)) None x) ->
  forall rl, In rl (done ++ todo) ->
    no_match (bounded (fst rl)) None (fold_left apply_rule todo x).
Proof using Hgood.
  induction todo as [|rj todo IH]; intros done x Hd Ht Hx rl Hin; simpl.
  - rewrite app_nil_r in Hin. auto.
  - assert (Hj : In rj rs) by (apply Ht; left; auto).
    apply (IH (done ++ [rj])).
    + intros y Hy. apply in_app_or in Hy as [Hy|[<-|[]]]; auto.
    + intros y Hy. apply Ht. right; auto.
    + intros ri Hi. apply in_app_or in Hi as [Hi|[<-|[]]].
      * destruct (good_rule_parts rj ri Hj (Hd _ Hi)) as (Hgj & Hname & Hn).
        destruct (good_rule_parts ri ri (Hd _ Hi) (Hd _ Hi)) as (Hgi & _).
        apply sub_no_match_other; auto.
      * destruct (good_rule_parts rj rj Hj Hj) as (Hgj & Hname & Hn).
        apply sub_no_match_own; auto.
    + rewrite <- app_assoc. exact Hin.
Qed.

Lemma fold_fixed todo x :
  (forall rl, In rl todo -> no_match (bounded (fst rl)) None x) ->
  fold_left apply_rule todo x = x.
Proof using Type.
  induction todo as [|rj todo IH]; intros Hx; simpl; auto.
  assert (E : apply_rule x rj = x).
  { unfold apply_rule, sub. apply no_match_fixed. apply Hx. left; auto. }
  rewrite E. apply IH. intros rl Hin. apply Hx. right; auto.
Qed.

Lemma rules_idempotent x :
  fold_left apply_rule rs (fold_left apply_rule rs x) =
  fold_left apply_rule rs x.
Proof using Hgood.
  apply fold_fixed. intros rl Hin.
  apply (fold_no_match rs [] x); auto.
  - intros y [].
  - intros y Hy; exact Hy.
  - intros y [].
Qed.

End Rules.

(** C7. Masking is idempotent: for every text [x],
    [mask(mask(x)) = mask(x)]; applying the whole ordered sequence of
    rules to a masked text changes nothing. *)
Theorem mask_idempotent (x : str) :
  mask_sensitive_info (mask_sensitive_info x) = mask_sensitive_info x.
Proof.
  rewrite !mask_as_rules. apply rules_idempotent. exact rules_good.
Qed.

(** Masked text holds no match of any of the patterns. *)
Lemma mask_clean (x : str) (rl : rule) :
  In rl rules -> no_match (bounded (fst rl)) None (mask_sensitive_info x).
Proof.
  intros Hin. rewrite mask_as_rules.
  apply (fold_no_match rules rules_good rules [] x); auto.
  - intros y [].
  - intros y Hy; exact Hy.
  - intros y [].
Qed.

End Facts.
End MaskerFacts.

(** ** PDFProcessor *)

Module PDFFacts.
Import PDFProcessor.

Section Facts.
Context {U : Unicode}.



(** C5, at an input on which the claim fails.  The block after the
    matched one has the lines [SECTION TWO] and [body text]: its first
    line is classified as a heading, but the loop tests
    [next_block_text.split('\n')[0]], and the assembled text, joined by
    spaces, has no line break, so the test is made on
    [SECTION TWO body text], fails, and the window goes on to the block
    after the heading. *)
Theorem find_window_passes_heading :
  nth_error blocks_heading_over_body 1 = Some block_heading_over_body /\
  first_line_is_heading block_heading_over_body = Ok true /\
  first_line (_get_block_text block_heading_over_body)
    = txt "SECTION TWO body text" /\
  _find_keyword_context blocks_heading_over_body (txt "claim") 0
    = Ok (Some (txt "the claim is filed SECTION TWO body text later text")).
Proof. repeat split; reflexivity. Qed.

(** C10, at an input on which the claim fails: the block after the
    matched one has text, but its first line has an empty list of
    spans; the heading test reads [spans[0]] and [_find_keyword_context]
    raises [IndexError]. *)
Theorem find_window_index_error :
  _find_keyword_context blocks_first_line_without_spans (txt "claim") 0
  = Raise IndexError.
Proof. reflexivity. Qed.

(** C2, at an input on which the claim fails: the blank line of a block
    that holds the keyword yields a finding whose selected text is
    empty. *)
Theorem empty_selected_text (num2words : N -> str) (now : nat -> str) :
  exists st first second,
    process_single_pdf num2words [txt "Hartford"] now new_processor (txt "a.pdf")
      (Ok doc_with_blank_line)
    = (st, Ok [(txt "Hartford", [first; second])]) /\
    selected_text first = txt "[COMPANY_NAME] policy" /\
    line_number second = num2words 2 /\
    selected_text second = [].
Proof.
  eexists. eexists. eexists. split; [vm_compute; reflexivity|].
  repeat split; reflexivity.
Qed.

End Facts.


End PDFFacts.

(** ** Document identifiers *)

Module IdFacts.
Import PDFProcessor.

Section Facts.
Context {U : Unicode}.

Lemma uint_digits d :
  Forall (fun c => Py.ascii_digit c = true)
         (Py.of_string (NilEmpty.string_of_uint d)).
Proof. induction d; simpl; constructor; auto. Qed.

Lemma digit_value c :
  Py.ascii_digit c = true -> Py.decimal_value c = Some (c - 48).
Proof.
  intros H. unfold Py.decimal_value. rewrite H.
  unfold Py.ascii_digit, Py.in_range in H.
  apply andb_prop in H as [_ H]. apply N.leb_le in H.
  destruct (N.ltb_spec c 128); [reflexivity|lia].
Qed.

(** Reading the digits of [d] after [acc] gives what [Nat.of_uint_acc]
    gives. *)
Lemma int_go_uint d : forall acc,
  Py.int_go (N.of_nat acc) (Py.of_string (NilEmpty.string_of_uint d))
  = Some (N.of_nat (Nat.of_uint_acc d acc)).
Proof.
  induction d; intros acc; simpl; auto;
    (etransitivity; [|apply IHd]); unfold Py.of_string; f_equal;
    rewrite Nat.tail_mul_spec; lia.
Qed.

Lemma to_uint_nonnil n : Nat.to_uint n <> Nil.
Proof.
  rewrite <- (DecimalNat.Unsigned.of_to n) at 1.
  rewrite DecimalNat.Unsigned.to_of. apply DecimalFacts.unorm_nonnil.
Qed.

Lemma str_of_nat_nonempty n : str_of_nat n <> [].
Proof.
  unfold str_of_nat. pose proof (to_uint_nonnil n) as H.
  destruct (Nat.to_uint n); unfold Py.of_string; simpl;
    [congruence|discriminate..].
Qed.

Lemma str_of_nat_digits n :
  Forall (fun c => Py.ascii_digit c = true) (str_of_nat n).
Proof. apply uint_digits. Qed.

Lemma int_go_str_of_nat n :
  Py.int_go 0 (str_of_nat n) = Some (N.of_nat n).
Proof.
  unfold str_of_nat. rewrite (int_go_uint _ 0).
  change (Nat.of_uint_acc (Nat.to_uint n) 0) with (Nat.of_uint (Nat.to_uint n)).
  rewrite DecimalNat.Unsigned.of_to. reflexivity.
Qed.

Lemma int_go_zeros k s : Py.int_go 0 (repeat 48 k ++ s) = Py.int_go 0 s.
Proof. induction k; simpl; auto. Qed.

(** [int] reads back the number that [{n:03d}] has written. *)
Lemma int_zero_pad n :
  Py.int (zero_pad 3 (str_of_nat n)) = Some (N.of_nat n).
Proof.
  unfold Py.int, zero_pad.
  destruct (repeat 48 (3 - length (str_of_nat n)) ++ str_of_nat n) eqn:E.
  - apply app_eq_nil in E as [_ E]. now apply str_of_nat_nonempty in E.
  - rewrite <- E, int_go_zeros. apply int_go_str_of_nat.
Qed.

Lemma zero_pad_digits n :
  Forall (fun c => Py.ascii_digit c = true) (zero_pad 3 (str_of_nat n)).
Proof.
  unfold zero_pad. apply List.Forall_app. split.
  - induction (3 - length (str_of_nat n))%nat; simpl; constructor; auto.
  - apply str_of_nat_digits.
Qed.

Lemma split_on_go_none sep s : forall cur,
  Forall (fun c => (c =? sep) = false) s ->
  Py.split_on_go sep cur s = [rev cur ++ s].
Proof.
  induction s as [|c s IH]; intros cur H; simpl.
  - rewrite app_nil_r. reflexivity.
  - inversion H as [|? ? Hc Hs]; subst. rewrite Hc, IH by auto.
    simpl. rewrite <- app_assoc. reflexivity.
Qed.

(** The number read from the identifier of counter [n] is [n]. *)
Lemma doc_number_of n : doc_number (doc_id_of n) = Some (N.of_nat n).
Proof.
  unfold doc_number, doc_id_of, Py.split_on. simpl.
  rewrite split_on_go_none.
  - simpl. apply int_zero_pad.
  - eapply List.Forall_impl; [|apply zero_pad_digits].
    intros c Hc. unfold Py.ascii_digit, Py.in_range in Hc.
    apply andb_prop in Hc as [_ Hc]. apply N.leb_le in Hc.
    apply N.eqb_neq. lia.
Qed.

Lemma doc_id_of_inj m n : doc_id_of m = doc_id_of n -> m = n.
Proof using U.
  intros E. apply (f_equal doc_number) in E.
  rewrite !doc_number_of in E. injection E as E. lia.
Qed.

Section Run.
Variable num2words : N -> str.
Variable keywords : list str.

Lemma process_single_pdf_counter st j :
  issued_id st j = firstn (length (issued_id st j)) [doc_id_of (file_counter st)] /\
  file_counter (fst (process_single_pdf num2words keywords (now j) st
                       (pdf_path j) (opened j)))
  = (file_counter st + length (issued_id st j))%nat.
Proof using Type.
  unfold issued_id, process_single_pdf. destruct (opened j) as [doc|e]; simpl.
  - split; [reflexivity|].
    destruct (for_each _ _ _) as [[fs clk]|e]; simpl; reflexivity.
  - split; [reflexivity|]. lia.
Qed.

(** The identifiers of a run are those of the successive values of the
    counter. *)
Lemma process_documents_ids jobs : forall st,
  let ids := fst (process_documents num2words keywords st jobs) in
  ids = map doc_id_of (seq (file_counter st) (length ids)).
Proof using Type.
  induction jobs as [|j jobs IH]; intros st; simpl; [reflexivity|].
  destruct (process_single_pdf_counter st j) as [Hid Hc].
  destruct (process_single_pdf num2words keywords (now j) st (pdf_path j)
              (opened j)) as [st' r] eqn:E.
  simpl in Hc. specialize (IH st').
  destruct (process_documents num2words keywords st' jobs) as [ids st''].
  simpl in *. rewrite length_app.
  destruct (issued_id st j) as [|x [|y l]]; simpl in *.
  - rewrite Nat.add_0_r in Hc. rewrite Hc in IH. exact IH.
  - injection Hid as ->. f_equal.
    replace (file_counter st + 1)%nat with (S (file_counter st)) in Hc by lia.
    rewrite Hc in IH. exact IH.
  - discriminate.
Qed.

Lemma NoDup_map_doc_id l : List.NoDup l -> List.NoDup (map doc_id_of l).
Proof using U.
  induction 1 as [|x l Hx Hl IH]; simpl; constructor; auto.
  intros Hin. apply in_map_iff in Hin as (y & E & Hy).
  apply doc_id_of_inj in E. subst. contradiction.
Qed.

(** When the calls are made one after the other (a pool of one
    worker), the identifiers drawn by one processor are [doc_001],
    [doc_002], ... in the order of the calls, whatever the documents
    and their order: the [n]-th one carries the number [n], larger than
    every number drawn before it, and no two of them are equal. *)
Lemma doc_ids_increasing_unique (jobs : list job) :
  let ids := fst (process_documents num2words keywords new_processor jobs) in
  ids = map doc_id_of (seq 1 (length ids)) /\
  map doc_number ids = map (fun n => Some (N.of_nat n)) (seq 1 (length ids)) /\
  (forall m n a b, (m < n)%nat ->
     nth_error ids m = Some a -> nth_error ids n = Some b ->
     exists x y, doc_number a = Some x /\ doc_number b = Some y /\ x < y) /\
  List.NoDup ids.
Proof using Type.
  intros ids.
  assert (E : ids = map doc_id_of (seq 1 (length ids)))
    by apply (process_documents_ids jobs new_processor).
  assert (En : map doc_number ids =
               map (fun n => Some (N.of_nat n)) (seq 1 (length ids))).
  { rewrite E at 1. rewrite map_map. apply map_ext. intros n.
    apply doc_number_of. }
  split; [exact E|]. split; [exact En|]. split.
  - intros m n a b Hmn Ha Hb.
    assert (Hm : nth_error (map doc_number ids) m = Some (doc_number a))
      by (rewrite nth_error_map, Ha; reflexivity).
    assert (Hn : nth_error (map doc_number ids) n = Some (doc_number b))
      by (rewrite nth_error_map, Hb; reflexivity).
    rewrite En, nth_error_map in Hm, Hn.
    assert (Hlm : (m < length ids)%nat)
      by (apply nth_error_Some; congruence).
    assert (Hln : (n < length ids)%nat)
      by (apply nth_error_Some; congruence).
    rewrite nth_error_seq in Hm, Hn.
    destruct (Nat.ltb_spec m (length ids)); [|lia].
    destruct (Nat.ltb_spec n (length ids)); [|lia].
    simpl in Hm, Hn. injection Hm as Hm. injection Hn as Hn.
    exists (N.of_nat (1 + m)), (N.of_nat (1 + n)). repeat split; auto. lia.
  - rewrite E. apply NoDup_map_doc_id. apply List.seq_NoDup.
Qed.

End Run.

End Facts.

(** A worker that runs the two statements of [_generate_doc_id] with no
    other worker in between does what the method does. *)
Lemma worker_alone (st : processor_state) :
  Workers.run [0; 0]%nat (file_counter st) [Workers.Entering]
  = (file_counter (snd (_generate_doc_id st)),
     [Workers.Returned (fst (_generate_doc_id st))]).
Proof. reflexivity. Qed.

(** C8, at a schedule on which the claim fails.  Two workers of the
    pool are in [_generate_doc_id] of a processor just made; both run
    [doc_id = f"doc_{self.file_counter:03d}"] before either runs
    [self.file_counter += 1]: both return [doc_001], and the counter
    ends at 3.  When the second worker starts after the first has
    returned, the identifiers are [doc_001] and [doc_002]. *)
Theorem doc_id_race :
  Workers.run [0; 1; 0; 1]%nat (file_counter new_processor)
    [Workers.Entering; Workers.Entering]
  = (3%nat, [Workers.Returned (txt "doc_001");
             Workers.Returned (txt "doc_001")]) /\
  Workers.returned
    (snd (Workers.run [0; 1; 0; 1]%nat (file_counter new_processor)
            [Workers.Entering; Workers.Entering]))
  = [txt "doc_001"; txt "doc_001"] /\
  Workers.returned
    (snd (Workers.run [0; 0; 1; 1]%nat (file_counter new_processor)
            [Workers.Entering; Workers.Entering]))
  = [txt "doc_001"; txt "doc_002"].
Proof. repeat split; reflexivity. Qed.

End IdFacts.

(** ** QAGenerator: parsing and the retry loop *)

Module QAFacts.
Import ConfigurationManager QAGenerator.

Section Facts.
Context {U : Unicode}.

Lemma flush_filter prompt_type acc q a :
  flush prompt_type acc q a
  = acc ++ List.filter (valid prompt_type) (pending_pairs [] q a).
Proof.
  unfold flush, valid. simpl. destruct q as [q|], a as [a|]; simpl;
    rewrite ?app_nil_r; auto.
  destruct (Py.truthy q), (Py.truthy a); simpl; rewrite ?app_nil_r; auto.
  destruct (accepts prompt_type q a); simpl; rewrite ?app_nil_r; auto.

Qed.

Lemma parse_lines_cons prompt_type line lines acc q a :
  parse_lines prompt_type (line :: lines) acc q a =
  if Py.startswith (txt "Q:") line then
    parse_lines prompt_type lines (flush prompt_type acc q a)
      (Some (Py.strip (skipn 2 line))) None
  else if Py.startswith (txt "A:") line then
    parse_lines prompt_type lines acc q (Some (Py.strip (skipn 2 line)))
  else parse_lines prompt_type lines acc q a.
Proof. reflexivity. Qed.

Lemma pending_pairs_cons line lines q a :
  pending_pairs (line :: lines) q a =
  if Py.startswith (txt "Q:") line then
    pending_pairs [] q a
    ++ pending_pairs lines (Some (Py.strip (skipn 2 line))) None
  else if Py.startswith (txt "A:") line then
    pending_pairs lines q (Some (Py.strip (skipn 2 line)))
  else pending_pairs lines q a.
Proof. reflexivity. Qed.

(** Parsing keeps the pairs the text holds that pass the validation of
    the variant. *)
Lemma parse_lines_filter prompt_type lines : forall acc q a,
  parse_lines prompt_type lines acc q a
  = acc ++ List.filter (valid prompt_type) (pending_pairs lines q a).
Proof.
  induction lines as [|line lines IH]; intros acc q a.
  - apply flush_filter.
  - rewrite parse_lines_cons, pending_pairs_cons.
    destruct (Py.startswith (txt "Q:") line).
    + rewrite IH, flush_filter, List.filter_app, <- app_assoc. reflexivity.
    + destruct (Py.startswith (txt "A:") line); apply IH.
Qed.

Lemma parse_filter text prompt_type :
  parse_qa_response text prompt_type
  = List.filter (valid prompt_type) (pairs_of text).
Proof. unfold parse_qa_response, pairs_of. apply parse_lines_filter. Qed.

Lemma pending_pairs_nonempty lines : forall q a p,
  In p (pending_pairs lines q a) ->
  question p <> [] /\ answer p <> [].
Proof.
  assert (Hhere : forall q a p,
    In p (match q, a with
          | Some q, Some a =>
              if Py.truthy q && Py.truthy a
              then [{| question := q; answer := a |}] else []
          | _, _ => []
          end) -> question p <> [] /\ answer p <> []).
  { intros [q|] [a|] p; simpl; try contradiction.
    destruct q, a; simpl; try contradiction; intros [<-|[]]; simpl;
      split; discriminate. }
  induction lines as [|line lines IH]; intros q a p.
  - apply Hhere.
  - rewrite pending_pairs_cons. destruct (Py.startswith (txt "Q:") line).
    + intros H. apply in_app_or in H as [H|H]; eauto.
    + destruct (Py.startswith (txt "A:") line); apply IH.
Qed.

(** C6. Parsing depends on the variant: a pair of the response text
    whose question does not end with a question mark is left out under
    the default variant and kept under the alternative one, which asks
    no more than a question and an answer that are not empty; the
    default variant keeps the pairs whose question ends with [?] and
    holds "based on" or "as per" and whose answer ends with [)]. *)
Theorem parse_variant_asymmetric (text : str) (p : qa_pair) :
  In p (pairs_of text) ->
  Py.endswith (txt "?") (question p) = false ->
  (question p <> [] /\ answer p <> []) /\
  In p (parse_qa_response text alternative) /\
  ~ In p (parse_qa_response text default) /\
  parse_qa_response text alternative = pairs_of text /\
  parse_qa_response text default
  = List.filter (fun p => Py.endswith (txt "?") (question p) &&
                     (Py.contains (txt "based on") (question p) ||
                      Py.contains (txt "as per") (question p)) &&
                     Py.endswith (txt ")") (answer p))
           (pairs_of text).
Proof.
  intros Hin Hq. split; [|split; [|split; [|split]]].
  - eapply pending_pairs_nonempty. exact Hin.
  - rewrite parse_filter. apply List.filter_In. split; auto.
  - rewrite parse_filter. intros H. apply List.filter_In in H as [_ H].
    unfold valid, accepts in H. rewrite Hq in H. discriminate.
  - rewrite parse_filter. clear. induction (pairs_of text); simpl; congruence.
  - rewrite parse_filter. reflexivity.
Qed.

Section Retry.
Variable config : ConfigurationManager.t.
Variable format_template : str -> prompt_fields -> result str.
Variable set_order : list str -> list str.
Variable service : nat -> reply.


(** The loop ends by itself: fuel beyond [retries - retry_count] changes
    nothing. *)
Lemma attempts_enough_fuel policy_doc_name keyword prompt_type prompt extra
    fuel : forall retry_count st,
  (retries (ollama config) - retry_count <= fuel)%nat ->
  attempts config service (fuel + extra) policy_doc_name keyword prompt_type
    prompt retry_count st
  = attempts config service fuel policy_doc_name keyword prompt_type prompt
      retry_count st.
Proof using Type.
  induction fuel as [|fuel IH]; intros rc st Hf.
  - simpl. destruct extra; simpl; auto.
    destruct (Nat.ltb_spec rc (retries (ollama config))); [lia|reflexivity].
  - simpl. destruct (Nat.ltb_spec rc (retries (ollama config))); auto.
    unfold post. destruct (success_text (service (posted st))); auto.
    apply IH. lia.
Qed.

End Retry.

End Facts.


(** The response "Q: What is covered / A: Everything" holds one pair;
    the alternative variant keeps it and the default variant drops it. *)
Lemma parse_variant_asymmetric_witness :
  let text := txt "Q: What is covered" ++ 10 :: txt "A: Everything" in
  let p := {| question := txt "What is covered";
              answer := txt "Everything" |} in
  @pairs_of ascii_only text = [p] /\
  @parse_qa_response ascii_only text alternative = [p] /\
  @parse_qa_response ascii_only text default = [] /\
  In p (@parse_qa_response ascii_only text alternative) /\
  ~ In p (@parse_qa_response ascii_only text default).
Proof.
  intros text p.
  destruct (@parse_variant_asymmetric ascii_only text p)
    as (_ & Hin & Hout & _); [left; reflexivity|reflexivity|].
  repeat split; auto.
Defined.

End QAFacts.

(** ** QAGenerator: the page field of a prompt *)

Module PageFacts.
Import ConfigurationManager QAGenerator.

Section Order.

Lemma str_ltb_irrefl a : str_ltb a a = false.
Proof.
  induction a as [|x a IH]; simpl; auto.
  rewrite N.ltb_irrefl, N.eqb_refl, IH. reflexivity.
Qed.

Lemma str_ltb_trans a : forall b c,
  str_ltb a b = true -> str_ltb b c = true -> str_ltb a c = true.
Proof.
  induction a as [|x a IH]; intros [|y b] [|z c]; simpl; auto;
    try discriminate.
  intros H1 H2.
  apply orb_true_iff in H1 as [H1|H1]; apply orb_true_iff in H2 as [H2|H2];
    apply orb_true_iff.
  - left. apply N.ltb_lt in H1, H2. apply N.ltb_lt. lia.
  - apply andb_prop in H2 as [H2 _]. apply N.eqb_eq in H2. subst. auto.
  - apply andb_prop in H1 as [H1 _]. apply N.eqb_eq in H1. subst. auto.
  - apply andb_prop in H1 as [E1 H1]. apply andb_prop in H2 as [E2 H2].
    apply N.eqb_eq in E1, E2. subst. right. rewrite N.eqb_refl. simpl.
    eapply IH; eauto.
Qed.

Lemma str_ltb_total a : forall b,
  str_ltb a b = false -> str_ltb b a = false -> a = b.
Proof.
  induction a as [|x a IH]; intros [|y b]; simpl; auto; try discriminate.
  intros H1 H2.
  apply orb_false_iff in H1 as [L1 H1]. apply orb_false_iff in H2 as [L2 H2].
  apply N.ltb_ge in L1, L2. assert (x = y) by lia. subst.
  rewrite N.eqb_refl in H1, H2. simpl in *. f_equal. auto.
Qed.

Lemma str_ltb_asym a b : str_ltb a b = true -> str_ltb b a = false.
Proof.
  intros H. destruct (str_ltb b a) eqn:E; auto.
  rewrite <- (str_ltb_irrefl a). symmetry. eapply str_ltb_trans; eauto.
Qed.

Lemma str_le_trans a b c : str_le a b -> str_le b c -> str_le a c.
Proof.
  unfold str_le. intros H1 H2. destruct (str_ltb c a) eqn:E; auto.
  destruct (str_ltb a b) eqn:Eab.
  - rewrite <- H2. symmetry. eapply str_ltb_trans; eauto.
  - assert (a = b) by (apply str_ltb_total; auto). subst. congruence.
Qed.

(** Insertion keeps a list sorted, for an order that is transitive and
    whose strict part is asymmetric. *)
Section Sort.
Variables (A : Type) (ltb : A -> A -> bool).
Local Abbreviation le := (le_of ltb).
Hypothesis le_trans : forall a b c, le a b -> le b c -> le a c.
Hypothesis ltb_asym : forall a b, ltb a b = true -> ltb b a = false.

Lemma insert_by_perm x l : Permutation (insert_by ltb x l) (x :: l).
Proof using Type.
  induction l as [|y l IH]; simpl; auto.
  destruct (ltb x y); auto.
  rewrite IH. apply perm_swap.
Qed.

Lemma insert_by_sorted x l :
  StronglySorted le l -> StronglySorted le (insert_by ltb x l).
Proof using le_trans ltb_asym.
  induction 1 as [|y l Hs IH Hall]; simpl.
  - repeat constructor.
  - destruct (ltb x y) eqn:E.
    + constructor; [constructor; auto|].
      constructor; [apply ltb_asym; exact E|].
      eapply List.Forall_impl; [|exact Hall].
      intros z Hz. eapply le_trans; [|exact Hz]. apply ltb_asym. exact E.
    + constructor; auto.
      rewrite List.Forall_forall. intros z Hz.
      apply (Permutation_in _ (insert_by_perm x l)) in Hz.
      destruct Hz as [<-|Hz]; [exact E|].
      rewrite List.Forall_forall in Hall. auto.
Qed.

Lemma stable_sort_spec l :
  Permutation (stable_sort ltb l) l /\ StronglySorted le (stable_sort ltb l).
Proof using le_trans ltb_asym.
  unfold stable_sort.
  assert (H : forall acc,
    StronglySorted le acc ->
    Permutation (fold_left (fun acc x => insert_by ltb x acc) l acc)
                (acc ++ l) /\
    StronglySorted le (fold_left (fun acc x => insert_by ltb x acc) l acc)).
  { induction l as [|x l IH]; intros acc Hacc; simpl.
    - rewrite app_nil_r. auto.
    - destruct (IH (insert_by ltb x acc)) as [Hp Hs];
        [apply insert_by_sorted; auto|].
      split; auto. rewrite Hp, insert_by_perm.
      apply Permutation_middle. }
  destruct (H []) as [Hp Hs]; [constructor|]. auto.
Qed.

End Sort.

(** Sorting pairs by a key that is a function of the element is sorting
    the elements. *)
Lemma insert_by_keyed {K} (key : str -> K) (kltb : K -> K -> bool) x l :
  map snd (insert_by (fun a b => kltb (fst a) (fst b)) (key x, x)
                     (map (fun y => (key y, y)) l))
  = insert_by (fun a b => kltb (key a) (key b)) x l.
Proof.
  induction l as [|y l IH]; simpl; auto.
  destruct (kltb (key x) (key y)); simpl.
  - rewrite map_map. simpl. rewrite map_id. reflexivity.
  - rewrite IH. reflexivity.
Qed.



End Order.

Section Facts.
Context {U : Unicode}.
Variable set_order : list str -> list str.
Hypothesis set_order_perm : forall l, Permutation (set_order l) l.

Lemma str_eqb_eq a : forall b, Py.str_eqb a b = true <-> a = b.
Proof using Type.
  induction a as [|x a IH]; intros [|y b]; simpl; split; try congruence.
  - intros H. apply andb_prop in H as [E H]. apply N.eqb_eq in E.
    apply IH in H. congruence.
  - intros E. injection E as -> ->. rewrite N.eqb_refl. simpl.
    apply IH. reflexivity.
Qed.







End Facts.

Section Mixed.
Context {U : Unicode}.
Variable config : ConfigurationManager.t.
Variable format_template : str -> prompt_fields -> result str.


End Mixed.
End PageFacts.

(** ** QAGenerator: the checkpoint contract *)

Module CheckpointFacts.
Import ConfigurationManager QAGenerator.

Section Facts.
Context {U : Unicode}.
Variable config : ConfigurationManager.t.
Variable format_template : str -> prompt_fields -> result str.
Variable set_order : list str -> list str.
Variable service : nat -> reply.

Lemma set_manager_sections pt m st :
  processed_sections (set_manager pt m st) = processed_sections st.
Proof. destruct pt; reflexivity. Qed.

Lemma set_manager_log pt m st : log (set_manager pt m st) = log st.
Proof. destruct pt; reflexivity. Qed.

(** The loop of the attempts posts requests for its unit and sleeps,
    and ends on a request when it has pairs to return. *)
Lemma attempts_spec policy kw pt prompt fuel : forall rc st st' qs,
  attempts config service fuel policy kw pt prompt rc st = (st', qs) ->
  processed_sections st' = processed_sections st /\
  exists new, log st' = log st ++ new /\
    Forall (fun e => e = Post policy kw pt prompt \/ exists n, e = Sleep n)
           new /\
    (qs <> [] -> exists new', new = new' ++ [Post policy kw pt prompt]).
Proof.
  induction fuel as [|fuel IH]; intros rc st st' qs H; simpl in H.
  - injection H as <- <-. split; auto. exists []. rewrite app_nil_r.
    repeat split; auto. congruence.
  - destruct (rc <? retries (ollama config))%nat.
    + unfold post in H.
      destruct (success_text (service (posted st))) as [text|].
      * injection H as <- <-. split; auto.
        exists [Post policy kw pt prompt]. repeat split; auto.
        exists []. reflexivity.
      * apply IH in H as (Hs & new & Hlog & Hall & Hlast).
        split.
        { rewrite Hs. destruct (_ <? _)%nat; reflexivity. }
        destruct (rc + 1 <? retries (ollama config))%nat; simpl in Hlog.
        -- exists (Post policy kw pt prompt
                   :: Sleep (retry_delay (ollama config) * (rc + 1 + 1))
                   :: new).
           rewrite Hlog, <- !app_assoc. repeat split; auto.
           ++ constructor; auto. constructor; eauto.
           ++ intros Hq. destruct (Hlast Hq) as (new' & ->).
              exists (Post policy kw pt prompt
                      :: Sleep (retry_delay (ollama config) * (rc + 1 + 1))
                      :: new'). reflexivity.
        -- exists (Post policy kw pt prompt :: new).
           rewrite Hlog, <- !app_assoc. repeat split; auto.
           intros Hq. destruct (Hlast Hq) as (new' & ->).
           exists (Post policy kw pt prompt :: new'). reflexivity.
    + injection H as <- <-. split; auto. exists []. rewrite app_nil_r.
      repeat split; auto. congruence.
Qed.

Lemma generate_spec policy kw occurrences pt st st' r :
  generate_qa_pairs config format_template set_order service policy kw
    occurrences pt st = (st', r) ->
  processed_sections st' = processed_sections st /\
  exists new, log st' = log st ++ new /\
    Forall (fun e => (exists prompt, e = Post policy kw pt prompt) \/
                     exists n, e = Sleep n) new /\
    (forall qs, r = Ok qs -> qs <> [] ->
       exists new' prompt, new = new' ++ [Post policy kw pt prompt]).
Proof.
  unfold generate_qa_pairs. intros H.
  assert (Hnone : (st', r) = (st, Ok []) \/
                  (exists e, (st', r) = (st, Raise e)) ->
    processed_sections st' = processed_sections st /\
    exists new, log st' = log st ++ new /\
      Forall (fun e => (exists prompt, e = Post policy kw pt prompt) \/
                       exists n, e = Sleep n) new /\
      (forall qs, r = Ok qs -> qs <> [] ->
         exists new' prompt, new = new' ++ [Post policy kw pt prompt])).
  { intros [E|[e E]]; injection E as -> ->; split; auto; exists [];
      rewrite app_nil_r; repeat split; auto; intros qs Hq; congruence. }
  destruct occurrences as [|o os].
  - apply Hnone. left. unfold ret in H. congruence.
  - unfold mbind, lift in H.
    destruct (generate_prompt config format_template set_order policy kw
                (o :: os) pt) as [prompt|e].
    + destruct (attempts config service (retries (ollama config)) policy kw
                  pt prompt 0 st) as [st1 qs] eqn:E.
      injection H as <- <-.
      apply attempts_spec in E as (Hs & new & Hlog & Hall & Hlast).
      split; auto. exists new. repeat split; auto.
      * eapply List.Forall_impl; [|exact Hall].
        intros e [->|Hn]; eauto.
      * intros qs' Hq Hne. injection Hq as <-.
        destruct (Hlast Hne) as (new' & ->). eauto.
    + apply Hnone. right. exists e. congruence.
Qed.

Lemma add_qa_pairs_spec doc_id pt qs : forall st st' r,
  mfold (fun (_ : unit) qa => add_qa_pair doc_id (qa_text_of qa) pt) qs tt st
  = (st', r) ->
  r = Ok tt /\ processed_sections st' = processed_sections st /\
  log st' = log st ++ map (fun qa => AddQAPair doc_id pt (qa_text_of qa)) qs.
Proof.
  induction qs as [|qa qs IH]; intros st st' r H; cbn [mfold] in H.
  - unfold ret in H. injection H as <- <-. rewrite app_nil_r. auto.
  - unfold mbind at 1 in H. unfold add_qa_pair, modify in H.
    apply IH in H as (-> & Hs & Hlog). split; auto.
    rewrite Hs, Hlog. simpl. rewrite set_manager_sections, set_manager_log.
    rewrite <- app_assoc. auto.
Qed.

Lemma contract_nil doc_id pt done : contract doc_id pt done done [].
Proof.
  repeat split.
  - intros keyword _ e [].
  - intros pre key post E. destruct pre; discriminate.
  - auto.
  - intros [H|[]]. exact H.
Qed.

(** Effects that are neither requests nor checkpoints fulfil the
    contract. *)
Lemma contract_quiet doc_id pt done new :
  Forall (fun e => exists p, e = WriteFile p) new ->
  contract doc_id pt done done new.
Proof.
  intros Hall. rewrite List.Forall_forall in Hall. repeat split.
  - intros keyword _ e He Hp. destruct (Hall e He) as (p & ->). exact Hp.
  - intros pre key post E.
    destruct (Hall (Checkpoint key)) as (p & Hp); [|discriminate].
    rewrite E. apply in_or_app. right. left. reflexivity.
  - auto.
  - intros [H|H]; auto. destruct (Hall _ H) as (p & Hp). discriminate.
Qed.

Lemma contract_compose doc_id pt d0 d1 d2 n1 n2 :
  contract doc_id pt d0 d1 n1 -> contract doc_id pt d1 d2 n2 ->
  contract doc_id pt d0 d2 (n1 ++ n2).
Proof.
  intros (A1 & B1 & C1) (A2 & B2 & C2). repeat split.
  - intros keyword Hk e He. apply in_app_or in He as [He|He].
    + eapply A1; eauto.
    + eapply A2; eauto. apply C1. left. exact Hk.
  - intros pre key post E.
    apply app_eq_app in E as (l & [[E1 E2]|[E1 E2]]).
    + destruct l as [|x l]; simpl in E2.
      * destruct (B2 [] key post) as (pre' & p & k & pr & qs & _ & _ & E);
          [symmetry; exact E2|]. destruct pre'; discriminate.
      * injection E2 as <- ->. apply (B1 pre key l). exact E1.
    + destruct (B2 l key post E2) as (pre' & p & k & pr & qs & Hq & Hk & ->).
      exists (n1 ++ pre'), p, k, pr, qs. repeat split; auto.
      rewrite E1, <- app_assoc. reflexivity.
  - intros H. apply C2 in H as [H|H].
    + apply C1 in H as [H|H]; auto. right. apply in_or_app. auto.
    + right. apply in_or_app. auto.
  - intros [H|H].
    + apply C2. left. apply C1. auto.
    + apply in_app_or in H as [H|H].
      * apply C2. left. apply C1. auto.
      * apply C2. auto.
Qed.

Lemma snoc_checkpoint l k pre k' post :
  (forall e, In e l -> ~ is_checkpoint e) ->
  l ++ [Checkpoint k] = pre ++ Checkpoint k' :: post ->
  pre = l /\ k' = k /\ post = [].
Proof.
  intros Hno E. apply app_eq_app in E as (x & [[E1 E2]|[E1 E2]]).
  - destruct x as [|e x]; simpl in E2.
    + injection E2 as <- <-. rewrite app_nil_r in E1. auto.
    + injection E2 as <- _. exfalso.
      apply (Hno (Checkpoint k')); simpl; auto.
      rewrite E1. apply in_or_app. right. left. reflexivity.
  - destruct x as [|e x]; simpl in E2.
    + injection E2 as <- <-. rewrite app_nil_r in E1. auto.
    + injection E2 as _ E2. destruct x; discriminate.
Qed.

Section Document.
Variables (doc_id : str) (findings : PDFProcessor.findings)
          (original_filename : filename) (pt : PromptType).

Lemma checkpoint_key_inj k1 k2 :
  checkpoint_key doc_id k1 pt = checkpoint_key doc_id k2 pt -> k1 = k2.
Proof using Type.
  unfold checkpoint_key. intros E.
  apply app_inv_head in E. apply app_inv_head in E.
  apply app_inv_tail in E. exact E.
Qed.

(** One keyword: the step of the loop fulfils the contract. *)
Lemma process_keyword_contract policy hc kw st st' r :
  process_keyword config format_template set_order service doc_id findings
    original_filename pt policy hc kw st = (st', r) ->
  exists new, log st' = log st ++ new /\
    contract doc_id pt (processed_sections st) (processed_sections st') new.
Proof using Type.
  unfold process_keyword. intros H.
  assert (Hsame : (st', r) = (st, Ok hc) ->
    exists new, log st' = log st ++ new /\
      contract doc_id pt (processed_sections st) (processed_sections st') new).
  { intros E. injection E as -> ->. exists []. rewrite app_nil_r.
    split; auto. apply contract_nil. }
  destruct (PDFProcessor.lookup kw findings) as [occurrences|];
    [|apply Hsame; unfold ret in H; congruence].
  destruct (decide (checkpoint_key doc_id kw pt ∈ processed_sections st))
    as [Hdone|Hnew]; [apply Hsame; congruence|].
  destruct occurrences as [|o os]; [apply Hsame; congruence|].
  unfold mbind at 1 in H.
  destruct (generate_qa_pairs config format_template set_order service policy
              kw (o :: os) pt st) as [st1 r1] eqn:Hgen.
  apply generate_spec in Hgen as (Hs1 & gen & Hlog1 & Hall & Hlast).
  rewrite List.Forall_forall in Hall.
  (* a request of this step is for [kw], which is not in the set *)
  assert (Hposts : forall keyword,
            checkpoint_key doc_id keyword pt ∈ processed_sections st ->
            forall e, In e gen -> ~ is_post_for keyword pt e).
  { intros keyword Hk e He Hp.
    destruct (Hall e He) as [(prompt & ->)|(n & ->)]; [|exact Hp].
    destruct Hp as [-> _]. contradiction. }
  assert (Hnock : forall e, In e gen -> ~ is_checkpoint e).
  { intros e He. destruct (Hall e He) as [(p & ->)|(n & ->)]; simpl; auto. }
  (* the requests and sleeps alone fulfil the contract *)
  assert (Hgenc : contract doc_id pt (processed_sections st)
                    (processed_sections st) gen).
  { repeat split; auto.
    - intros pre key post E. exfalso.
      apply (Hnock (Checkpoint key)); simpl; auto.
      rewrite E. apply in_or_app. right. left. reflexivity.
    - intros [Hk|Hk]; auto. apply Hnock in Hk. simpl in Hk. tauto. }
  destruct r1 as [qs|e].
  - destruct qs as [|q qs].
    + unfold ret in H. injection H as <- <-. exists gen.
      rewrite Hs1. auto.
    + destruct (Hlast (q :: qs) eq_refl) as (gen' & prompt & Egen);
        [discriminate|].
      unfold mbind at 1 in H. unfold add_keyword_content, modify in H.
      unfold mbind at 1 in H.
      match type of H with
      | context [mfold ?f ?l ?b ?s] =>
          destruct (mfold f l b s) as [st2 r2] eqn:Hadd
      end.
      apply add_qa_pairs_spec in Hadd as (-> & Hs2 & Hlog2).
      unfold mbind, modify, ret in H. simpl in H. injection H as <- <-.
      simpl in Hlog2, Hs2. rewrite set_manager_sections in Hs2.
      rewrite set_manager_log in Hlog2. simpl.
      set (key := checkpoint_key doc_id kw pt) in *.
      set (body := gen ++ recorded doc_id kw pt (q :: qs)).
      assert (Hbody : forall e, In e body -> ~ is_checkpoint e).
      { intros e He. apply in_app_or in He as [He|He]; auto.
        unfold recorded in He. simpl in He.
        destruct He as [<-|[<-|He]]; simpl; auto.
        apply in_map_iff in He as (qa & <- & _). simpl. auto. }
      exists (body ++ [Checkpoint key]).
      split.
      { rewrite Hlog2, Hlog1. unfold body, recorded. simpl.
        rewrite <- !app_assoc. simpl. rewrite <- ?app_assoc. reflexivity. }
      rewrite Hs2, Hs1. repeat split.
      * intros keyword Hk e He Hp.
        apply in_app_or in He as [He|[<-|[]]]; [|exact Hp].
        apply in_app_or in He as [He|He]; [eapply Hposts; eauto|].
        unfold recorded in He. simpl in He.
        destruct He as [<-|[<-|He]]; try exact Hp.
        apply in_map_iff in He as (qa & <- & _). exact Hp.
      * intros pre key' post E.
        apply snoc_checkpoint in E as (-> & -> & ->); auto.
        exists gen', policy, kw, prompt, (q :: qs).
        repeat split; auto; try discriminate.
        unfold body. rewrite Egen, <- app_assoc. reflexivity.
      * intros Hk. apply elem_of_union in Hk as [Hk|Hk]; auto.
        apply elem_of_singleton in Hk. subst. right.
        apply in_or_app. right. left. reflexivity.
      * intros [Hk|Hk]; [apply elem_of_union; auto|].
        apply in_app_or in Hk as [Hk|[Hk|[]]].
        -- apply Hbody in Hk. simpl in Hk. tauto.
        -- injection Hk as <-. apply elem_of_union. left.
           apply elem_of_singleton. reflexivity.
  - injection H as <- <-. exists gen. rewrite Hs1. auto.
Qed.

Lemma keywords_contract policy kws : forall hc st st' r,
  mfold (process_keyword config format_template set_order service doc_id
           findings original_filename pt policy) kws hc st = (st', r) ->
  exists new, log st' = log st ++ new /\
    contract doc_id pt (processed_sections st) (processed_sections st') new.
Proof using Type.
  induction kws as [|kw kws IH]; intros hc st st' r H; cbn [mfold] in H.
  - unfold ret in H. injection H as <- <-. exists []. rewrite app_nil_r.
    split; auto. apply contract_nil.
  - unfold mbind at 1 in H.
    destruct (process_keyword config format_template set_order service doc_id
                findings original_filename pt policy hc kw st)
      as [st1 r1] eqn:Hstep.
    apply process_keyword_contract in Hstep as (n1 & Hlog1 & Hc1).
    destruct r1 as [hc'|e].
    + apply IH in H as (n2 & Hlog2 & Hc2). exists (n1 ++ n2). split.
      * rewrite Hlog2, Hlog1, <- app_assoc. reflexivity.
      * eapply contract_compose; eauto.
    + injection H as <- <-. eauto.
Qed.

Lemma save_doc_outputs_spec policy st st' r :
  save_doc_outputs config doc_id policy pt st = (st', r) ->
  processed_sections st' = processed_sections st /\
  exists new, log st' = log st ++ new /\
    Forall (fun e => exists p, e = WriteFile p) new.
Proof using Type.
  unfold save_doc_outputs. intros H.
  assert (Hsame : forall x, (st', r) = (st, x) ->
    processed_sections st' = processed_sections st /\
    exists new, log st' = log st ++ new /\
      Forall (fun e => exists p, e = WriteFile p) new).
  { intros x E. injection E as -> ->. split; auto. exists [].
    rewrite app_nil_r. auto. }
  destruct (get doc_id (qa_text (output_manager st pt))) as [[|t ts]|];
    try (eapply Hsame; symmetry; exact H).
  destruct (get_output_dir config pt) as [dir|e];
    try (eapply Hsame; symmetry; exact H).
  destruct (get policy (qa_json (output_manager st pt))); injection H as <- <-;
    simpl; rewrite set_manager_sections, set_manager_log; split; auto.
  - eexists [_; _]. rewrite <- app_assoc. split; [reflexivity|].
    repeat constructor; eauto.
  - eexists [_]. split; [reflexivity|]. repeat constructor; eauto.
Qed.

Lemma document_contract st st' r :
  process_document_keywords config format_template set_order service doc_id
    findings original_filename pt st = (st', r) ->
  exists new, log st' = log st ++ new /\
    contract doc_id pt (processed_sections st) (processed_sections st') new.
Proof using Type.
  unfold process_document_keywords. intros H.
  unfold mbind at 1, lift in H.
  destruct (_get_policy_doc_name doc_id) as [policy|e].
  - unfold mbind at 1 in H.
    destruct (mfold _ (keywords config) false st) as [st1 r1] eqn:Hloop.
    apply keywords_contract in Hloop as (n1 & Hlog1 & Hc1).
    destruct r1 as [[|]|e].
    + apply save_doc_outputs_spec in H as (Hs2 & n2 & Hlog2 & Hall).
      exists (n1 ++ n2). split.
      * rewrite Hlog2, Hlog1, <- app_assoc. reflexivity.
      * apply (contract_compose _ _ _ (processed_sections st1)); auto.
        rewrite Hs2. apply contract_quiet. exact Hall.
    + unfold ret in H. injection H as <- <-. eauto.
    + injection H as <- <-. eauto.
  - injection H as <- <-. exists []. rewrite app_nil_r. split; auto.
    apply contract_nil.
Qed.

(** A second call for the same document and variant posts no request
    for the units the first call has completed. *)
Lemma repeated_call_skips st st1 r1 st2 r2 new1 new2 keyword :
  process_document_keywords config format_template set_order service doc_id
    findings original_filename pt st = (st1, r1) ->
  process_document_keywords config format_template set_order service doc_id
    findings original_filename pt st1 = (st2, r2) ->
  log st1 = log st ++ new1 -> log st2 = log st1 ++ new2 ->
  In (Checkpoint (checkpoint_key doc_id keyword pt)) new1 ->
  forall e, In e new2 -> ~ is_post_for keyword pt e.
Proof using Type.
  intros H1 H2 L1 L2 Hin.
  apply document_contract in H1 as (n1 & L1' & _ & _ & C1).
  apply document_contract in H2 as (n2 & L2' & A2 & _).
  rewrite L1 in L1'. apply app_inv_head in L1'. subst n1.
  rewrite L2 in L2'. apply app_inv_head in L2'. subst n2.
  apply A2. apply C1. right. exact Hin.
Qed.

(** C3. A call of [process_document_keywords] for a document and a
    variant fulfils the checkpoint contract: for a unit whose key is in
    the completed-set when the call starts, no generation request is
    posted; a key enters the completed-set only right after a result
    that is not empty has been returned by a request of its unit and
    recorded; and the completed-set changes in no other way, so that an
    empty result leaves it as it was. *)
Theorem checkpoint_contract (st : generator_state) :
  let st' := fst (process_document_keywords config format_template set_order
                    service doc_id findings original_filename pt st) in
  exists new,
    log st' = log st ++ new /\
    (forall keyword,
       checkpoint_key doc_id keyword pt ∈ processed_sections st ->
       forall e, In e new -> ~ is_post_for keyword pt e) /\
    (forall pre key post,
       new = pre ++ Checkpoint key :: post ->
       exists pre' policy_doc_name keyword prompt qa_pairs,
         qa_pairs <> [] /\
         key = checkpoint_key doc_id keyword pt /\
         pre = pre' ++ Post policy_doc_name keyword pt prompt
                    :: recorded doc_id keyword pt qa_pairs) /\
    (forall key,
       key ∈ processed_sections st' <->
       key ∈ processed_sections st \/ In (Checkpoint key) new).
Proof using Type.
  destruct (process_document_keywords config format_template set_order
              service doc_id findings original_filename pt st)
    as [st' r] eqn:E.
  apply document_contract in E as (new & Hlog & Hc).
  exists new. split; [exact Hlog|exact Hc].
Qed.

End Document.
End Facts.

(** A first call records the result of its request and marks the unit;
    a second call in the state it has left does nothing. *)
Example repeated_call_example :
  let first := Main.example_call new_generator in
  let second := Main.example_call (fst first) in
  log (fst first) =
    [ Post (txt "[POLICY_DOC_001]") (txt "claim") alternative (txt "T");
      AddKeywordContent (txt "doc_001") (txt "claim") alternative
        [{| question := txt "Why"; answer := txt "Because" |}];
      AddQAPair (txt "doc_001") alternative
        (txt "Q: Why" ++ 10 :: txt "A: Because");
      Checkpoint (txt "doc_001|claim|alternative");
      WriteFile (txt "out/qa_outputs/alternative/doc_001_qa.txt");
      WriteFile (txt "out/qa_outputs/alternative/doc_001_qa.json") ] /\
  snd first = Ok tt /\
  log (fst second) = log (fst first) /\ snd second = Ok tt.
Proof. vm_compute. repeat split; reflexivity. Qed.

End CheckpointFacts.

(** ** main.py *)

Module MainFacts.
Import ConfigurationManager Main.

Section Facts.
Context {U : Unicode}.
Variable num2words : N -> str.
Variable format_template : str -> QAGenerator.prompt_fields -> result str.
Variable set_order : list str -> list str.
Variable service : nat -> QAGenerator.reply.
Variable load_config : str -> result ConfigurationManager.t.
Variable list_files : str -> list str.
Variable open_pdf : str -> result (list PDFProcessor.page).
Variable clock : str -> nat -> str.
Variable connect : StorageConfig -> result unit.

Lemma for_each_skip {A S} (body : S -> A -> result S) l :
  (forall st a, body st a = Ok st) -> forall st, for_each body l st = Ok st.
Proof using Type.
  intros Hb. induction l as [|a l IH]; intros st; simpl; auto.
  rewrite Hb. simpl. apply IH.
Qed.

(** Without keywords the extraction finds nothing, whatever the
    document. *)
Lemma extraction_without_keywords now st pdf_path doc :
  snd (PDFProcessor.process_single_pdf num2words [] now st pdf_path (Ok doc))
  = Ok [].
Proof using Type.
  unfold PDFProcessor.process_single_pdf. simpl.
  rewrite for_each_skip; [reflexivity|].
  intros acc np. unfold PDFProcessor.scan_page. apply for_each_skip.
  intros acc' nb. unfold PDFProcessor.scan_block.
  destruct (PDFProcessor.block_lines (snd nb)); auto.
  apply for_each_skip. intros acc'' nl. unfold PDFProcessor.scan_line.
  destruct (PDFProcessor.line_spans (snd nl)) as [[|s ss]|]; reflexivity.
Qed.

(** A configuration without keywords is not valid, and a single-file
    run with it extracts and ends without an error. *)
Lemma run_without_keywords config args doc provider_ :
  keywords config = [] ->
  StorageFactory.create_provider connect (storage config) = Ok provider_ ->
  load_config (arg_config args) = Ok config ->
  arg_single_file args = true ->
  arg_keyword args = None ->
  open_pdf (arg_input args) = Ok doc ->
  validate config = false /\
  main num2words format_template set_order service load_config list_files
       open_pdf clock connect args
  = Some ([Extraction (arg_input args)], Ok tt).
Proof using Type.
  intros Hk Hp Hl Hs Ha Ho. split.
  - unfold validate. rewrite Hk. reflexivity.
  - unfold main, run_configured. rewrite Hl, Hp, Hs, Ho, Hk, Ha.
    rewrite extraction_without_keywords. reflexivity.
Qed.

End Facts.

(** C1, at inputs on which the claim fails.  [validate] rejects a
    configuration without keywords and one without a default prompt
    template, but [main] never calls it: with the first, the run
    extracts and ends without an error; with the second, the error comes
    from the generation, after the extraction. *)
Theorem main_skips_validation :
  (@validate config_without_keywords = false /\
   example_main config_without_keywords single_file_arguments
   = Some ([Extraction (txt "a.pdf")], Ok tt)) /\
  (@validate config_without_prompts = false /\
   example_main config_without_prompts single_file_arguments
   = Some ([Extraction (txt "a.pdf")], Raise (KeyError (txt "default")))).
Proof. repeat split; vm_compute; reflexivity. Qed.

(** With a storage provider that is neither [local] nor [gcp], in any
    case of the letters, the run stops before any extraction. *)
Lemma unsupported_provider_raises {U : Unicode} num2words format_template
    set_order service load_config list_files open_pdf clock connect config
    args :
  load_config (arg_config args) = Ok config ->
  Py.str_eqb (Py.lower (provider (storage config))) (txt "local") = false ->
  Py.str_eqb (Py.lower (provider (storage config))) (txt "gcp") = false ->
  main num2words format_template set_order service load_config list_files
       open_pdf clock connect args
  = Some ([], Raise (ValueError (txt "Unsupported storage provider: "
                                 ++ Py.lower (provider (storage config))))).
Proof.
  intros Hl H1 H2. unfold main, run_configured, StorageFactory.create_provider.
  rewrite Hl, H1, H2. reflexivity.
Qed.

End MainFacts.
(** ** Strings *)

Module StrFacts.
Import Text.

Lemma startswith_iff p : forall s,
  Py.startswith p s = true <-> exists v, s = p ++ v.
Proof.
  induction p as [|x p IH]; intros s; simpl.
  - split; eauto.
  - destruct s as [|y s].
    + split; [discriminate|]. intros (v & E). discriminate.
    + rewrite andb_true_iff, N.eqb_eq, IH. split.
      * intros (-> & v & ->). eauto.
      * intros (v & E). injection E as -> ->. eauto.
Qed.

Lemma contains_iff p : forall s,
  Py.contains p s = true <-> exists u v, s = u ++ p ++ v.
Proof.
  induction s as [|c s IH]; simpl.
  - rewrite orb_false_r, startswith_iff. split.
    + intros (v & E). exists [], v. exact E.
    + intros (u & v & E). destruct u; [eauto|discriminate].
  - rewrite orb_true_iff, IH, startswith_iff. split.
    + intros [(v & E)|(u & v & ->)].
      * exists [], v. exact E.
      * exists (c :: u), v. reflexivity.
    + intros (u & v & E). destruct u as [|c' u]; simpl in E.
      * left. eauto.
      * injection E as <- ->. right. eauto.
Qed.

Lemma contains_refl s : Py.contains s s = true.
Proof. apply contains_iff. exists [], []. now rewrite app_nil_r. Qed.

Lemma contains_trans a b c :
  Py.contains a b = true -> Py.contains b c = true -> Py.contains a c = true.
Proof.
  rewrite !contains_iff. intros (u & v & ->) (u' & v' & ->).
  exists (u' ++ u), (v ++ v'). now rewrite <- !app_assoc.
Qed.

Lemma join_cons sep p ps :
  ps <> [] -> Py.join sep (p :: ps) = p ++ sep ++ Py.join sep ps.
Proof. destruct ps; [congruence|reflexivity]. Qed.

Lemma join_app sep l1 : forall l2,
  l1 <> [] -> l2 <> [] ->
  Py.join sep (l1 ++ l2) = Py.join sep l1 ++ sep ++ Py.join sep l2.
Proof.
  induction l1 as [|p l1 IH]; intros l2 H1 H2; [congruence|].
  destruct l1 as [|q l1].
  - simpl app. now rewrite join_cons.
  - change ((p :: q :: l1) ++ l2) with (p :: (q :: l1) ++ l2).
    rewrite (join_cons sep p ((q :: l1) ++ l2)) by (simpl; discriminate).
    rewrite (join_cons sep p (q :: l1)) by discriminate.
    rewrite IH; [|discriminate|exact H2].
    now rewrite <- !app_assoc.
Qed.

Lemma contains_join sep x parts :
  In x parts -> Py.contains x (Py.join sep parts) = true.
Proof.
  intros H. apply in_split in H as (l1 & l2 & ->). apply contains_iff.
  destruct l1 as [|a l1], l2 as [|b l2].
  - exists [], []. simpl. now rewrite app_nil_r.
  - exists [], (sep ++ Py.join sep (b :: l2)).
    simpl app. now rewrite (join_cons sep x (b :: l2)).
  - exists (Py.join sep (a :: l1) ++ sep), [].
    rewrite join_app by discriminate. simpl.
    now rewrite !app_nil_r, <- app_assoc.
  - exists (Py.join sep (a :: l1) ++ sep), (sep ++ Py.join sep (b :: l2)).
    rewrite join_app, (join_cons sep x (b :: l2)) by discriminate.
    now rewrite <- !app_assoc.
Qed.

(** Joining a list in which a group has been joined beforehand gives
    the join of the whole list. *)
Lemma join_flatten sep done group rest :
  group <> [] ->
  Py.join sep (done ++ [Py.join sep group] ++ rest)
  = Py.join sep (done ++ group ++ rest).
Proof.
  intros Hg.
  assert (E : Py.join sep ([Py.join sep group] ++ rest)
              = Py.join sep (group ++ rest)).
  { destruct rest as [|r rest].
    - now rewrite !app_nil_r.
    - rewrite (join_app sep group) by (auto; discriminate).
      simpl app. now rewrite join_cons by discriminate. }
  destruct done as [|a done]; [exact E|].
  rewrite !(join_app sep (a :: done)); try discriminate.
  - now rewrite E.
  - destruct group; [congruence|discriminate].
Qed.

Section Strip.
Context {U : Unicode}.

Lemma lstrip_head s : head_ok (Py.lstrip s).
Proof.
  induction s as [|c s IH]; simpl; auto.
  destruct (Py.is_space c) eqn:E; simpl; auto.
Qed.

Lemma lstrip_fixed s : head_ok s -> Py.lstrip s = s.
Proof. destruct s as [|c s]; simpl; auto. now intros ->. Qed.

Lemma lstrip_snoc s c :
  Py.is_space c = false -> Py.lstrip (s ++ [c]) = Py.lstrip s ++ [c].
Proof.
  intros Hc. induction s as [|x s IH]; simpl.
  - now rewrite Hc.
  - destruct (Py.is_space x); auto.
Qed.

Lemma rstrip_cons c s :
  Py.is_space c = false -> Py.rstrip (c :: s) = c :: Py.rstrip s.
Proof.
  intros Hc. unfold Py.rstrip. simpl. rewrite lstrip_snoc by exact Hc.
  rewrite rev_app_distr. reflexivity.
Qed.

Lemma rstrip_head s : head_ok s -> head_ok (Py.rstrip s).
Proof.
  destruct s as [|c s]; simpl.
  - intros _. exact I.
  - intros Hc. rewrite rstrip_cons by exact Hc. exact Hc.
Qed.

Lemma strip_ends s : head_ok (Py.strip s) /\ head_ok (rev (Py.strip s)).
Proof.
  unfold Py.strip. split.
  - apply rstrip_head, lstrip_head.
  - unfold Py.rstrip. rewrite rev_involutive. apply lstrip_head.
Qed.

Lemma strip_fixed s : head_ok s -> head_ok (rev s) -> Py.strip s = s.
Proof.
  intros H1 H2. unfold Py.strip, Py.rstrip.
  rewrite (lstrip_fixed s H1), (lstrip_fixed (rev s) H2).
  apply rev_involutive.
Qed.

Lemma strip_idempotent s : Py.strip (Py.strip s) = Py.strip s.
Proof. destruct (strip_ends s). now apply strip_fixed. Qed.

Lemma lstrip_In c s : In c (Py.lstrip s) -> In c s.
Proof.
  induction s as [|x s IH]; simpl; auto.
  destruct (Py.is_space x); simpl; auto.
Qed.

Lemma strip_In c s : In c (Py.strip s) -> In c s.
Proof.
  unfold Py.strip, Py.rstrip. intros H. rewrite <- in_rev in H.
  apply lstrip_In in H. rewrite <- in_rev in H. now apply lstrip_In in H.
Qed.

(** A stripped string stays stripped behind a prefix that begins with
    a character other than a space. *)
Lemma strip_prefixed u s :
  u <> [] -> head_ok u -> s <> [] -> Py.strip s = s ->
  Py.strip (u ++ s) = u ++ s.
Proof.
  intros Hu Hh Hs E. destruct (strip_ends s) as [_ H2]. rewrite E in H2.
  apply strip_fixed.
  - destruct u; [congruence|exact Hh].
  - rewrite rev_app_distr. destruct (rev s) as [|c r] eqn:Er.
    + apply (f_equal (@rev N)) in Er. rewrite rev_involutive in Er.
      simpl in Er. congruence.
    + exact H2.
Qed.

End Strip.

Lemma skipn_In {A} (x : A) n : forall l, In x (skipn n l) -> In x l.
Proof.
  induction n as [|n IH]; intros [|y l]; simpl; auto.
Qed.

Lemma split_on_go_pieces sep s : forall cur piece,
  ~ In sep cur -> In piece (Py.split_on_go sep cur s) -> ~ In sep piece.
Proof.
  induction s as [|c s IH]; intros cur piece Hcur; simpl.
  - intros [<-|[]] H. rewrite <- in_rev in H. contradiction.
  - destruct (c =? sep) eqn:E.
    + intros [<-|H].
      * intros H. rewrite <- in_rev in H. contradiction.
      * apply (IH [] piece); [intros []|exact H].
    + apply IH. intros [->|H]; auto. now rewrite N.eqb_refl in E.
Qed.

Lemma split_on_go_cut sep u v : forall cur,
  ~ In sep u ->
  Py.split_on_go sep cur (u ++ sep :: v)
  = (rev cur ++ u) :: Py.split_on_go sep [] v.
Proof.
  induction u as [|c u IH]; intros cur Hu; simpl.
  - now rewrite N.eqb_refl, app_nil_r.
  - destruct (c =? sep) eqn:E.
    + apply N.eqb_eq in E. subst. exfalso. apply Hu. now left.
    + rewrite IH by (intros H; apply Hu; now right).
      simpl. now rewrite <- app_assoc.
Qed.

End StrFacts.
(** ** PDFProcessor: the assembled texts, the window and the records *)

Module ExtractionFacts.
Import PDFProcessor Extraction StrFacts.

(** Loops whose body may raise. *)
Lemma for_each_inv {A S} (P : S -> Prop) (body : S -> A -> result S) l :
  (forall st a st', In a l -> P st -> body st a = Ok st' -> P st') ->
  forall st st', P st -> for_each body l st = Ok st' -> P st'.
Proof.
  induction l as [|a l IH]; intros Hb st st' HP H; simpl in H.
  - now injection H as <-.
  - destruct (body st a) as [st1|e] eqn:E; [|discriminate]. simpl in H.
    apply (IH (fun st a st' Hin => Hb st a st' (or_intror Hin)) st1); auto.
    apply (Hb st a); auto. now left.
Qed.

Lemma for_each_total {A S} (body : S -> A -> result S) l :
  (forall st a, In a l -> exists st', body st a = Ok st') ->
  forall st, exists st', for_each body l st = Ok st'.
Proof.
  induction l as [|a l IH]; intros Hb st; simpl; eauto.
  destruct (Hb st a) as (st1 & ->); [now left|]. simpl.
  apply IH. intros st2 a' Hin. apply Hb. now right.
Qed.

Lemma enumerate_In {A} (l : list A) : forall start i a,
  In (i, a) (enumerate start l) ->
  (start <= i < start + length l)%nat /\ nth_error l (i - start) = Some a.
Proof.
  induction l as [|x l IH]; intros start i a H; simpl in H; [contradiction|].
  destruct H as [H|H].
  - injection H as <- <-. rewrite Nat.sub_diag. simpl. split; [lia|auto].
  - apply IH in H as [H1 H2]. simpl. split; [lia|].
    replace (i - start)%nat with (S (i - S start)) by lia. exact H2.
Qed.

Lemma lookup_In {A} k (d : list (str * A)) v :
  lookup k d = Some v -> exists k', In (k', v) d.
Proof.
  induction d as [|[k' v'] d IH]; simpl; [discriminate|].
  destruct (Py.str_eqb k k').
  - intros H. injection H as <-. eauto.
  - intros H. apply IH in H as (k0 & H). eauto.
Qed.

Lemma store_In {A} k (v : A) d k' v' :
  In (k', v') (store k v d) -> (k', v') = (k, v) \/ In (k', v') d.
Proof.
  induction d as [|[k0 v0] d IH]; simpl.
  - intros [H|[]]; auto.
  - destruct (Py.str_eqb k k0); simpl.
    + intros [H|H]; auto.
    + intros [H|H]; auto. apply IH in H as [H|H]; auto.
Qed.


Section Facts.
Context {U : Unicode}.

(** *** [_get_block_text] *)

Lemma block_sentences_join lines : forall sentences current,
  Py.join (txt " ") (block_sentences lines sentences current)
  = Py.join (txt " ") (sentences ++ current ++ line_texts lines).
Proof.
  induction lines as [|ln lines IH]; intros sentences current.
  - cbn [block_sentences]. change (line_texts []) with (@nil str).
    rewrite app_nil_r. destruct current as [|c current].
    + now rewrite app_nil_r.
    + pose proof (join_flatten (txt " ") sentences (c :: current) []) as E.
      rewrite !app_nil_r in E. apply E. discriminate.
  - change (line_texts (ln :: lines))
      with (match line_spans ln with
            | None | Some [] => []
            | Some spans =>
                if Py.truthy (line_text spans) then [line_text spans] else []
            end ++ line_texts lines).
    cbn [block_sentences].
    destruct (line_spans ln) as [[|s spans]|]; auto.
    destruct (Py.truthy (line_text (s :: spans))) eqn:Ht; cbn [negb]; auto.
    assert (Hgo : Py.join (txt " ")
                    (block_sentences lines sentences
                       (current ++ [line_text (s :: spans)]))
                  = Py.join (txt " ")
                      (sentences ++ current ++
                       [line_text (s :: spans)] ++ line_texts lines)).
    { rewrite IH, <- app_assoc. reflexivity. }
    destruct (last_char (Py.rstrip (line_text (s :: spans)))) as [c|]; auto.
    destruct (Re.one_of (txt ".!?") c); auto.
    rewrite IH. cbn [app]. rewrite <- app_assoc.
    pose proof (join_flatten (txt " ") sentences
                  (current ++ [line_text (s :: spans)]) (line_texts lines)) as E.
    cbn [app] in *. rewrite E by (destruct current; discriminate).
    rewrite <- app_assoc. reflexivity.
Qed.

(** X1. The text that [_get_block_text] assembles for a block is the
    texts of its lines that have spans and are not blank, stripped and
    joined by single spaces: grouping the lines into sentences at the
    characters [.], [!] and [?] does not change the result. *)
Theorem block_text_joins_lines (lines : list line) :
  _get_block_text {| block_lines := Some lines |}
  = Py.join (txt " ") (line_texts lines).
Proof. unfold _get_block_text. simpl. apply block_sentences_join. Qed.

Lemma line_text_in_block b lines ln spans :
  block_lines b = Some lines -> In ln lines -> line_spans ln = Some spans ->
  Py.contains (line_text spans) (_get_block_text b) = true.
Proof.
  intros Hb Hin Hs. unfold _get_block_text. rewrite Hb.
  rewrite block_sentences_join. simpl.
  destruct (Py.truthy (line_text spans)) eqn:Ht.
  - apply contains_join. unfold line_texts. apply in_flat_map.
    exists ln. split; auto. rewrite Hs.
    destruct spans as [|s spans]; [discriminate Ht|].
    rewrite Ht. now left.
  - destruct (line_text spans); [|discriminate].
    apply contains_iff. exists [], (Py.join (txt " ") (line_texts lines)).
    reflexivity.
Qed.

(** *** [_find_keyword_context] *)

Lemma extend_forward_appends blocks idx offsets : forall parts parts',
  extend_forward blocks idx offsets parts = Ok parts' ->
  exists more, parts' = parts ++ more.
Proof.
  induction offsets as [|i offs IH]; intros parts parts' H; simpl in H.
  - injection H as <-. exists []. now rewrite app_nil_r.
  - destruct (nth_error blocks (idx + i)) as [b|]; [|eauto].
    destruct (Py.truthy (_get_block_text b)); [|eauto].
    destruct (first_line_spans b) as [spans|e]; simpl in H; [|discriminate].
    destruct (_is_header (first_line (_get_block_text b)) spans) as [[|]|e];
      simpl in H; [| |discriminate].
    + injection H as <-. eauto.
    + apply IH in H as (more & ->). rewrite <- app_assoc. eauto.
Qed.

(** X2. A window that [_find_keyword_context] returns holds the keyword
    and the assembled text of the matched block, hence the text of each
    of its lines: what [process_single_pdf] passes to [_create_metadata]
    as selected text is a part of what it passes as full content. *)
Theorem window_holds_selected_text (blocks : list block) (keyword : str)
    (idx : nat) (window : str) :
  _find_keyword_context blocks keyword idx = Ok (Some window) ->
  Py.contains keyword window = true /\
  Py.contains (text_at blocks idx) window = true /\
  forall b lines ln spans,
    nth_error blocks idx = Some b -> block_lines b = Some lines ->
    In ln lines -> line_spans ln = Some spans ->
    Py.contains (line_text spans) window = true.
Proof.
  unfold _find_keyword_context. intros H.
  destruct (nth_error blocks idx) as [cur|] eqn:Hcur; [|discriminate].
  destruct (Py.contains keyword (_get_block_text cur)) eqn:Hk; cbn [negb] in H;
    [|discriminate].
  match type of H with
  | context [extend_forward _ _ _ (?before ++ _)] => set (prior := before) in H
  end.
  destruct (extend_forward blocks idx [1; 2; 3]%nat
              (prior ++ [_get_block_text cur])) as [parts|e] eqn:Hext;
    unfold bind in H; [|discriminate].
  injection H as <-.
  apply extend_forward_appends in Hext as (more & ->).
  assert (Hcw : Py.contains (_get_block_text cur)
                  (Py.join (txt " ")
                     ((prior ++ [_get_block_text cur]) ++ more)) = true).
  { apply contains_join. apply in_or_app. left. apply in_or_app. right.
    now left. }
  split; [|split].
  - eapply contains_trans; eauto.
  - unfold text_at. rewrite Hcur. exact Hcw.
  - intros b lines ln spans Hb Hl Hin Hs. injection Hb as <-.
    eapply contains_trans; [|exact Hcw].
    eapply line_text_in_block; eauto.
Qed.

Lemma block_without_lines_blank b :
  block_lines b = Some [] -> _get_block_text b = [].
Proof. intros H. unfold _get_block_text. now rewrite H. Qed.

Lemma extend_forward_total blocks idx offsets :
  (forall b, In b blocks -> first_line_has_span b) ->
  forall parts, exists parts',
    extend_forward blocks idx offsets parts = Ok parts'.
Proof.
  intros Hw. induction offsets as [|i offs IH]; intros parts; simpl; eauto.
  destruct (nth_error blocks (idx + i)) as [b|] eqn:Hb; [|apply IH].
  destruct (Py.truthy (_get_block_text b)) eqn:Ht; [|apply IH].
  assert (Hs : exists s spans, first_line_spans b = Ok (s :: spans)).
  { unfold first_line_spans.
    destruct (block_lines b) as [[|ln lines]|] eqn:Hl.
    - rewrite (block_without_lines_blank b Hl) in Ht. discriminate.
    - destruct (line_spans ln) as [[|s spans]|] eqn:Hsp; simpl; eauto.
      exfalso. eapply Hw; eauto. eapply nth_error_In; eauto.
    - eauto. }
  destruct Hs as (s & spans & ->). simpl.
  unfold _is_header.
  destruct (negb (Py.truthy (first_line (_get_block_text b)))); simpl; eauto.
  destruct (Py.isupper (first_line (_get_block_text b))); simpl; eauto.
  destruct (Py.endswith _ _); simpl; eauto.
  destruct (size_gt_12 s || bold_bit s); simpl; eauto.
Qed.

Lemma find_window_ok blocks keyword idx :
  (idx < length blocks)%nat ->
  (forall b, In b blocks -> first_line_has_span b) ->
  exists r, _find_keyword_context blocks keyword idx = Ok r.
Proof.
  intros Hidx Hw. unfold _find_keyword_context.
  destruct (nth_error blocks idx) as [cur|] eqn:Hcur.
  2:{ apply nth_error_None in Hcur. lia. }
  destruct (Py.contains keyword (_get_block_text cur)); cbn [negb]; eauto.
  match goal with
  | |- context [extend_forward _ _ _ ?p] =>
      destruct (extend_forward_total blocks idx [1; 2; 3]%nat Hw p)
        as (parts & ->)
  end.
  simpl. eauto.
Qed.

(** X3. When the first line of every block of the page has at least one
    span (or no [spans] key), [_find_keyword_context] raises nothing at
    an index of the page: it returns [None] when the assembled text of
    the block does not hold the keyword, and a window otherwise. *)
Theorem find_window_total (blocks : list block) (keyword : str) (idx : nat) :
  (idx < length blocks)%nat ->
  (forall b, In b blocks -> first_line_has_span b) ->
  exists r,
    _find_keyword_context blocks keyword idx = Ok r /\
    (r = None <-> Py.contains keyword (text_at blocks idx) = false).
Proof.
  intros Hidx Hw.
  destruct (find_window_ok blocks keyword idx Hidx Hw) as (r & Hr).
  exists r. split; auto. revert Hr. unfold _find_keyword_context, text_at.
  destruct (nth_error blocks idx) as [cur|]; [|discriminate].
  destruct (Py.contains keyword (_get_block_text cur)); cbn [negb].
  - destruct (extend_forward _ _ _ _); simpl; [|discriminate].
    intros H. injection H as <-. split; discriminate.
  - intros H. injection H as <-. tauto.
Qed.

(** *** [_create_metadata] *)

Section Host.
Variable num2words : N -> str.
Variable keywords : list str.

Lemma digits_not_space s :
  Forall (fun c => Py.ascii_digit c = true) s ->
  Forall (fun c => Py.is_space c = false) s.
Proof.
  apply List.Forall_impl. intros c H. unfold Py.ascii_digit, Py.in_range in H.
  apply andb_prop in H as [H1 H2]. apply N.leb_le in H1, H2.
  unfold Py.is_space, Py.in_range.
  replace (c <? 128) with true by (symmetry; apply N.ltb_lt; lia).
  apply orb_false_iff. split; apply andb_false_iff.
  - right. apply N.leb_gt. lia.
  - right. apply N.leb_gt. lia.
Qed.

Lemma split_ws_go_word s : forall cur,
  Forall (fun c => Py.is_space c = false) s ->
  rev cur ++ s <> [] ->
  Py.split_ws_go cur s = [rev cur ++ s].
Proof.
  induction s as [|c s IH]; intros cur Hall Hne; simpl.
  - rewrite app_nil_r in *. destruct cur; [simpl in Hne; congruence|reflexivity].
  - inversion Hall as [|? ? Hc Hs]; subst. rewrite Hc.
    rewrite IH; auto; simpl; rewrite <- app_assoc; auto.
Qed.

Lemma isdigit_digits s :
  s <> [] -> Forall (fun c => Py.ascii_digit c = true) s ->
  Py.isdigit s = true.
Proof.
  intros Hne Hall. unfold Py.isdigit. destruct s as [|c s]; [congruence|].
  apply forallb_forall. rewrite List.Forall_forall in Hall.
  intros x Hx. specialize (Hall x Hx). unfold Py.is_digit. rewrite Hall.
  destruct (x <? 128) eqn:E; auto.
  unfold Py.ascii_digit, Py.in_range in Hall.
  apply andb_prop in Hall as [_ H2]. apply N.leb_le in H2.
  apply N.ltb_ge in E. lia.
Qed.

(** The number words of [str(n)]: [_convert_numbers_to_words] sees one
    word, made of digits, and hands its value to [num2words]. *)
Lemma convert_number n :
  _convert_numbers_to_words num2words (str_of_nat n)
  = Ok (num2words (N.of_nat n)).
Proof.
  unfold _convert_numbers_to_words, Py.split_ws.
  rewrite split_ws_go_word.
  - simpl. rewrite isdigit_digits.
    + unfold Py.int. pose proof (IdFacts.str_of_nat_nonempty n) as Hne.
      destruct (str_of_nat n) eqn:E; [congruence|]. rewrite <- E.
      rewrite IdFacts.int_go_str_of_nat. reflexivity.
    + apply IdFacts.str_of_nat_nonempty.
    + apply IdFacts.str_of_nat_digits.
  - apply digits_not_space, IdFacts.str_of_nat_digits.
  - simpl. apply IdFacts.str_of_nat_nonempty.
Qed.

Lemma create_metadata_ok now doc_id page line selected full clk :
  _create_metadata num2words now doc_id page line selected full clk
  = Ok ({| source_file := doc_id;
           page_number := num2words (N.of_nat page);
           line_number := num2words (N.of_nat line);
           selected_text := ContentMasker.mask_sensitive_info selected;
           full_extracted_part := ContentMasker.mask_sensitive_info full;
           extraction_timestamp := now clk |},
        S clk).
Proof. unfold _create_metadata. rewrite !convert_number. reflexivity. Qed.

(** *** [process_single_pdf] *)

Lemma sub_nonempty r tok s : tok <> [] -> s <> [] -> Re.sub r tok s <> [].
Proof.
  intros Ht Hs. destruct s as [|c s]; [congruence|]. unfold Re.sub. simpl.
  destruct (Re.match_len r None (c :: s)) as [[|n]|]; try discriminate;
    destruct tok; try congruence; discriminate.
Qed.

Lemma mask_nonempty text :
  text <> [] -> ContentMasker.mask_sensitive_info text <> [].
Proof.
  rewrite MaskerFacts.mask_as_rules. generalize ContentMasker.rules.
  intros rs. revert text. induction rs as [|rl rs IH]; intros text H; simpl.
  - exact H.
  - apply IH. unfold Re.apply_rule. apply sub_nonempty; auto; discriminate.
Qed.

Lemma append_to_In k f d kw l :
  In (kw, l) (append_to k f d) ->
  In (kw, l) d \/
  (kw = k /\ exists xs, l = xs ++ [f] /\ (xs = [] \/ exists k', In (k', xs) d)).
Proof.
  unfold append_to. destruct (lookup k d) as [xs|] eqn:E; intros H;
    apply store_In in H as [H|H]; auto; injection H as -> ->; right;
    split; auto.
  - exists xs. split; auto. right. eapply lookup_In; eauto.
  - exists []. auto.
Qed.

Section Document.
Variable now : nat -> str.
Variable doc_id : str.
Variable pages : nat.

Local Abbreviation sound := (fun acc : findings * nat =>
  forall kw l, In (kw, l) (fst acc) ->
    In kw keywords /\ l <> [] /\
    Forall (recorded_in num2words doc_id pages) l).

Lemma scan_keyword_sound blocks page_num block_num line_num text acc kw acc' :
  (1 <= page_num <= pages)%nat -> (1 <= line_num)%nat -> In kw keywords ->
  sound acc ->
  scan_keyword num2words now blocks doc_id page_num block_num line_num text
    acc kw = Ok acc' ->
  sound acc'.
Proof.
  intros Hp Hl Hk Hacc. unfold scan_keyword.
  destruct (_find_keyword_context blocks kw block_num) as [[ctx|]|e];
    simpl; try discriminate.
  2:{ intros H. injection H as <-. exact Hacc. }
  destruct (Py.truthy ctx) eqn:Ht.
  2:{ intros H. injection H as <-. exact Hacc. }
  rewrite create_metadata_ok. simpl. intros H. injection H as <-.
  cbn [fst]. intros kw' l Hin.
  apply append_to_In in Hin as [Hin|(-> & xs & -> & Hxs)]; [auto|].
  split; [auto|]. split; [destruct xs; discriminate|].
  apply List.Forall_app. split.
  - destruct Hxs as [->|(k' & Hin)]; [constructor|]. apply (Hacc _ _ Hin).
  - constructor; [|constructor]. unfold recorded_in. simpl.
    repeat split; eauto.
    apply mask_nonempty. destruct ctx; [discriminate|discriminate].
Qed.

Lemma scan_page_sound acc np acc' :
  (1 <= fst np <= pages)%nat -> sound acc ->
  scan_page num2words keywords now doc_id acc np = Ok acc' -> sound acc'.
Proof.
  intros Hp Hacc. unfold scan_page.
  apply (for_each_inv sound); auto. clear acc acc' Hacc.
  intros acc nb acc' _ Hacc. unfold scan_block.
  destruct (block_lines (snd nb)) as [lines|].
  2:{ intros H. injection H as <-. exact Hacc. }
  apply (for_each_inv sound); auto. clear acc acc' Hacc.
  intros acc nl acc' Hnl Hacc. unfold scan_line.
  destruct nl as [line_num ln]. apply enumerate_In in Hnl as [Hnl _].
  cbn [fst snd]. destruct (line_spans ln) as [[|s spans]|]; simpl;
    try (intros H; injection H as <-; exact Hacc).
  apply (for_each_inv sound); auto. clear acc acc' Hacc.
  intros acc kw acc' Hkw Hacc. apply scan_keyword_sound; auto. simpl. lia.
Qed.

Lemma scan_page_total acc np :
  (forall b, In b (snd np) -> first_line_has_span b) ->
  exists acc', scan_page num2words keywords now doc_id acc np = Ok acc'.
Proof.
  destruct np as [page_num blocks]. cbn [fst snd]. intros Hw.
  unfold scan_page. cbn [fst snd]. apply for_each_total.
  intros acc1 [block_num b] Hnb. unfold scan_block. simpl.
  destruct (block_lines b) as [lines|]; eauto.
  apply for_each_total. intros acc2 nl _. unfold scan_line.
  destruct (line_spans (snd nl)) as [[|s spans]|]; eauto.
  apply for_each_total. intros acc3 kw _. unfold scan_keyword.
  apply enumerate_In in Hnb as [Hnb _]. cbn [fst snd].
  assert (Hidx : (block_num < length blocks)%nat) by exact (proj2 Hnb).
  destruct (find_window_ok blocks kw block_num Hidx Hw) as (r & ->).
  simpl. destruct r as [ctx|]; eauto.
  destruct (Py.truthy ctx); eauto.
  rewrite create_metadata_ok. simpl. eauto.
Qed.

End Document.

Lemma scan_document_sound now doc_id doc acc' :
  for_each (scan_page num2words keywords now doc_id) (enumerate 1 doc)
    ([], 0%nat) = Ok acc' ->
  forall kw l, In (kw, l) (fst acc') ->
    In kw keywords /\ l <> [] /\
    Forall (recorded_in num2words doc_id (length doc)) l.
Proof.
  apply (for_each_inv
           (fun acc : findings * nat =>
              forall kw l, In (kw, l) (fst acc) ->
                In kw keywords /\ l <> [] /\
                Forall (recorded_in num2words doc_id (length doc)) l)).
  - intros acc np acc1 Hnp Hacc. apply scan_page_sound; auto.
    destruct np as [i pg]. apply enumerate_In in Hnp as [Hnp _]. simpl. lia.
  - intros kw l [].
Qed.

Lemma findings_sound now st pdf_path doc fs :
  snd (process_single_pdf num2words keywords now st pdf_path (Ok doc)) = Ok fs ->
  forall keyword occurrences, In (keyword, occurrences) fs ->
    In keyword keywords /\ occurrences <> [] /\
    Forall (recorded_in num2words (doc_id_of (file_counter st)) (length doc))
           occurrences.
Proof.
  unfold process_single_pdf. simpl.
  destruct (for_each _ _ _) as [[fs' clk]|e] eqn:E; simpl; [|discriminate].
  intros H. injection H as <-.
  apply (scan_document_sound now _ doc _ E).
Qed.

(** X4. The occurrence records that [process_single_pdf] returns: every
    key is a configured keyword and has at least one record; every
    record carries the identifier drawn for the document, a masked full
    context that is not empty, and the words of a page of the document
    and of a line number from one on. *)
Theorem findings_recorded (now : nat -> str) (st : processor_state)
    (pdf_path : str) (doc : list page) (fs : findings) :
  snd (process_single_pdf num2words keywords now st pdf_path (Ok doc)) = Ok fs ->
  forall keyword occurrences, In (keyword, occurrences) fs ->
    In keyword keywords /\ occurrences <> [] /\
    Forall (recorded_in num2words (doc_id_of (file_counter st)) (length doc))
           occurrences.
Proof. apply findings_sound. Qed.

(** X5. A document in which the first line of every block has at least
    one span (or no [spans] key) is scanned to the end: once it is
    opened, [process_single_pdf] returns its findings and raises
    nothing, whatever the keywords. *)
Theorem extraction_total (now : nat -> str) (st : processor_state)
    (pdf_path : str) (doc : list page) :
  (forall pg b, In pg doc -> In b pg -> first_line_has_span b) ->
  exists fs,
    snd (process_single_pdf num2words keywords now st pdf_path (Ok doc)) = Ok fs.
Proof.
  intros Hw. unfold process_single_pdf. simpl.
  destruct (for_each_total
              (scan_page num2words keywords now (fst (_generate_doc_id st)))
              (enumerate 1 doc)) with (st := (@nil (str * list finding), 0%nat))
    as ([fs clk] & E).
  - intros acc [i pg] Hnp. apply scan_page_total.
    apply enumerate_In in Hnp as [_ Hnp]. apply nth_error_In in Hnp.
    simpl. eauto.
  - simpl in E. rewrite E. simpl. eauto.
Qed.

(** *** The registry of a run *)

Local Abbreviation tidy := (fun st : processor_state =>
  List.NoDup (map fst (combined_results st)) /\
  (forall k, In k (map fst (combined_results st)) ->
     exists n, (n < file_counter st)%nat /\ k = doc_id_of n) /\
  (forall k d, In (k, d) (combined_results st) -> doc_findings d <> [])).







End Host.
End Facts.

Lemma window_holds_selected_text_witness :
  @_find_keyword_context ascii_only blocks_with_heading (txt "claim") 1
    = Ok (Some (txt "intro the claim is filed NEXT SECTION")) /\
  Py.contains (txt "claim") (txt "intro the claim is filed NEXT SECTION")
    = true.
Proof.
  split; [reflexivity|].
  apply (@window_holds_selected_text ascii_only blocks_with_heading
           (txt "claim") 1 (txt "intro the claim is filed NEXT SECTION")).
  reflexivity.
Defined.

Lemma find_window_total_witness :
  exists r,
    @_find_keyword_context ascii_only blocks_with_heading (txt "claim") 1
      = Ok r /\
    (r = None <->
     Py.contains (txt "claim") (@text_at ascii_only blocks_with_heading 1)
       = false).
Proof.
  apply (@find_window_total ascii_only blocks_with_heading (txt "claim") 1).
  - simpl. lia.
  - intros b Hb ln lines Hl.
    repeat (destruct Hb as [<-|Hb]; [injection Hl as <- _; discriminate|]).
    destruct Hb.
Defined.

Lemma findings_recorded_witness :
  exists fs,
    snd (@process_single_pdf ascii_only Main.words [txt "claim"]
           (fun _ => txt "t") new_processor (txt "a.pdf") (Ok two_pages))
      = Ok fs /\
    fs <> [] /\
    forall keyword occurrences, In (keyword, occurrences) fs ->
      In keyword [txt "claim"] /\ occurrences <> [] /\
      Forall (@recorded_in Main.words (txt "doc_001") 2) occurrences.
Proof.
  eexists. split; [vm_compute; reflexivity|]. split; [discriminate|].
  apply (@findings_recorded ascii_only Main.words [txt "claim"]
           (fun _ => txt "t") new_processor (txt "a.pdf") two_pages).
  vm_compute. reflexivity.
Defined.

Lemma extraction_total_witness :
  exists fs,
    snd (@process_single_pdf ascii_only Main.words [txt "claim"]
           (fun _ => txt "t") new_processor (txt "a.pdf") (Ok two_pages))
      = Ok fs.
Proof.
  apply (@extraction_total ascii_only Main.words [txt "claim"]
           (fun _ => txt "t") new_processor (txt "a.pdf") two_pages).
  intros pg b Hpg Hb ln lines Hl.
  repeat (destruct Hpg as [<-|Hpg];
          [repeat (destruct Hb as [<-|Hb];
                   [injection Hl as <- _; discriminate|]);
           destruct Hb|]).
  destruct Hpg.
Defined.

End ExtractionFacts.
(** ** QAGenerator: parsing, retries, variants and checkpoint keys *)

Module GenerationFacts.
Import ConfigurationManager QAGenerator Text StrFacts Generation.

Lemma bar_split (a : str) : forall a' r r',
  ~ In 124 a -> ~ In 124 a' -> a ++ 124 :: r = a' ++ 124 :: r' ->
  a = a' /\ r = r'.
Proof.
  induction a as [|x a IH]; intros [|y a'] r r' Ha Ha' E; simpl in E.
  - injection E as <-. auto.
  - injection E as <- _. exfalso. apply Ha'. now left.
  - injection E as -> _. exfalso. apply Ha. now left.
  - injection E as <- E. apply IH in E as [-> ->]; auto.
    + intros H. apply Ha. now right.
    + intros H. apply Ha'. now right.
Qed.

Lemma not_In_neqb sep (s : str) :
  ~ In sep s -> Forall (fun c => (c =? sep) = false) s.
Proof.
  intros H. apply List.Forall_forall. intros c Hc. apply N.eqb_neq.
  intros ->. contradiction.
Qed.

Section Parse.
Context {U : Unicode}.

Lemma response_line_one_line text line :
  In line (response_lines text) -> one_line line.
Proof.
  unfold response_lines. intros H. apply List.filter_In in H as [H Ht].
  apply in_map_iff in H as (piece & <- & Hp). repeat split.
  - destruct (Py.strip piece); [discriminate|discriminate].
  - apply strip_idempotent.
  - intros H10. apply strip_In in H10. revert H10.
    eapply split_on_go_pieces; eauto. intros [].
Qed.

Lemma field_of_line line :
  ~ In 10 line ->
  Py.strip (Py.strip (skipn 2 line)) = Py.strip (skipn 2 line) /\
  ~ In 10 (Py.strip (skipn 2 line)).
Proof.
  intros H. split; [apply strip_idempotent|].
  intros H10. apply strip_In, skipn_In in H10. contradiction.
Qed.

Local Abbreviation kept := (fun o : option str =>
  forall x, o = Some x -> Py.strip x = x /\ ~ In 10 x).

Lemma pending_pairs_one_line lines : forall q a p,
  (forall line, In line lines -> ~ In 10 line) -> kept q -> kept a ->
  In p (pending_pairs lines q a) ->
  one_line (question p) /\ one_line (answer p).
Proof.
  assert (Hhere : forall q a p, kept q -> kept a ->
            In p (pending_pairs [] q a) ->
            one_line (question p) /\ one_line (answer p)).
  { intros [q|] [a|] p Hq Ha Hin; simpl in Hin; try contradiction.
    destruct (Py.truthy q) eqn:Tq; [|contradiction].
    destruct (Py.truthy a) eqn:Ta; [|contradiction].
    destruct Hin as [<-|[]]. simpl.
    destruct (Hq q eq_refl), (Ha a eq_refl).
    repeat split; auto; intros ->; discriminate. }
  induction lines as [|line lines IH]; intros q a p Hl Hq Ha Hin.
  - exact (Hhere q a p Hq Ha Hin).
  - rewrite QAFacts.pending_pairs_cons in Hin.
    assert (Hl' : forall l, In l lines -> ~ In 10 l)
      by (intros l Hin'; apply Hl; now right).
    assert (Hf : kept (Some (Py.strip (skipn 2 line)))).
    { intros x E. injection E as <-. apply field_of_line. apply Hl. now left. }
    destruct (Py.startswith (txt "Q:") line).
    + apply in_app_or in Hin as [Hin|Hin]; [exact (Hhere q a p Hq Ha Hin)|].
      apply (IH _ None p Hl' Hf); auto. intros x E. discriminate.
    + destruct (Py.startswith (txt "A:") line).
      * exact (IH q _ p Hl' Hq Hf Hin).
      * exact (IH q a p Hl' Hq Ha Hin).
Qed.

Lemma parsed_one_line text p :
  In p (pairs_of text) -> one_line (question p) /\ one_line (answer p).
Proof.
  unfold pairs_of. apply pending_pairs_one_line.
  - intros line H. apply response_line_one_line in H as (_ & _ & H). exact H.
  - intros x E. discriminate.
  - intros x E. discriminate.
Qed.

(** X7. Every pair that [parse_qa_response] returns, under either
    variant, has a question and an answer that are not empty, stripped
    and free of line breaks; under the default variant the question
    ends with [?] and holds "based on" or "as per", and the answer ends
    with [)]. *)
Theorem parsed_pairs_well_formed (text : str) (prompt_type : PromptType)
    (p : qa_pair) :
  In p (parse_qa_response text prompt_type) ->
  one_line (question p) /\ one_line (answer p) /\
  (prompt_type = default ->
   Py.endswith (txt "?") (question p) = true /\
   (Py.contains (txt "based on") (question p) = true \/
    Py.contains (txt "as per") (question p) = true) /\
   Py.endswith (txt ")") (answer p) = true).
Proof.
  rewrite QAFacts.parse_filter. intros H.
  apply List.filter_In in H as [Hin Hv].
  destruct (parsed_one_line text p Hin) as [Hq Ha].
  split; [exact Hq|]. split; [exact Ha|].
  intros ->. unfold valid, accepts in Hv.
  apply andb_prop in Hv as [Hv H3]. apply andb_prop in Hv as [H1 H2].
  apply orb_prop in H2. auto.
Qed.

Lemma pairs_of_qa_text p :
  one_line (question p) -> one_line (answer p) ->
  pairs_of (qa_text_of p) = [p].
Proof.
  destruct p as [q a]. simpl.
  intros (Hq & Sq & Nq) (Ha & Sa & Na).
  unfold pairs_of, response_lines, Py.split_on, qa_text_of. simpl question.
  simpl answer.
  assert (Nbar : forall s, ~ In 10 s -> ~ In 10 (81 :: 58 :: 32 :: s)).
  { intros s Hs [H|[H|[H|H]]]; try discriminate. contradiction. }
  assert (Nbar' : forall s, ~ In 10 s -> ~ In 10 (65 :: 58 :: 32 :: s)).
  { intros s Hs [H|[H|[H|H]]]; try discriminate. contradiction. }
  change (txt "Q: " ++ q ++ 10 :: txt "A: " ++ a)
    with ((81 :: 58 :: 32 :: q) ++ 10 :: 65 :: 58 :: 32 :: a).
  rewrite split_on_go_cut by (apply Nbar; exact Nq).
  rewrite IdFacts.split_on_go_none by (apply not_In_neqb, Nbar'; exact Na).
  cbn [rev app map].
  assert (E1 : Py.strip (81 :: 58 :: 32 :: q) = 81 :: 58 :: 32 :: q).
  { apply (strip_prefixed [81; 58; 32] q); auto; try discriminate; reflexivity. }
  assert (E2 : Py.strip (65 :: 58 :: 32 :: a) = 65 :: 58 :: 32 :: a).
  { apply (strip_prefixed [65; 58; 32] a); auto; try discriminate; reflexivity. }
  rewrite E1, E2. cbn [List.filter Py.truthy].
  rewrite QAFacts.pending_pairs_cons.
  change (Py.startswith (txt "Q:") (81 :: 58 :: 32 :: q)) with true.
  cbn iota. rewrite QAFacts.pending_pairs_cons.
  change (Py.startswith (txt "Q:") (65 :: 58 :: 32 :: a)) with false.
  change (Py.startswith (txt "A:") (65 :: 58 :: 32 :: a)) with true.
  cbn iota.
  change (Py.strip (skipn 2 (81 :: 58 :: 32 :: q))) with (Py.strip q).
  change (Py.strip (skipn 2 (65 :: 58 :: 32 :: a))) with (Py.strip a).
  rewrite Sq, Sa. simpl.
  destruct q; [congruence|]. destruct a; [congruence|]. reflexivity.
Qed.

(** X8. The text that [add_qa_pair] is given for a pair,
    [Q: question], a line break, [A: answer], reads back as that pair:
    for every pair that [parse_qa_response] has returned under a
    variant, parsing its text under the same variant gives the pair
    alone, and under the alternative variant as well. *)
Theorem parsed_pair_round_trip (text : str) (prompt_type : PromptType)
    (p : qa_pair) :
  In p (parse_qa_response text prompt_type) ->
  parse_qa_response (qa_text_of p) prompt_type = [p] /\
  parse_qa_response (qa_text_of p) alternative = [p].
Proof.
  rewrite !QAFacts.parse_filter. intros H.
  apply List.filter_In in H as [Hin Hv].
  destruct (parsed_one_line text p Hin) as [Hq Ha].
  rewrite (pairs_of_qa_text p Hq Ha). simpl. rewrite Hv. auto.
Qed.

End Parse.
(** *** Checkpoint keys and policy names *)

Lemma prompt_type_name_inj p1 p2 :
  prompt_type_name p1 = prompt_type_name p2 -> p1 = p2.
Proof. destruct p1, p2; auto; discriminate. Qed.

Lemma prompt_type_name_bar p : ~ In 124 (rev (prompt_type_name p)).
Proof.
  rewrite <- in_rev. destruct p; simpl; intuition discriminate.
Qed.

(** X9. The key of a unit of work, [doc_id|keyword|variant], determines
    the unit: when the document identifiers hold no [|] (those that
    [_generate_doc_id] draws hold none), two keys are equal only for the
    same document, the same keyword and the same variant, whatever the
    keywords are. *)
Theorem checkpoint_key_determines_unit (d1 k1 d2 k2 : str)
    (p1 p2 : PromptType) :
  ~ In 124 d1 -> ~ In 124 d2 ->
  checkpoint_key d1 k1 p1 = checkpoint_key d2 k2 p2 ->
  d1 = d2 /\ k1 = k2 /\ p1 = p2.
Proof.
  intros H1 H2 E. unfold checkpoint_key in E.
  change (d1 ++ 124 :: k1 ++ 124 :: prompt_type_name p1
          = d2 ++ 124 :: k2 ++ 124 :: prompt_type_name p2) in E.
  apply bar_split in E as [-> E]; auto. split; auto.
  apply (f_equal (@rev N)) in E. rewrite !rev_app_distr in E. simpl in E.
  rewrite <- !app_assoc in E. simpl in E.
  apply bar_split in E as [En Ek]; auto using prompt_type_name_bar.
  apply (f_equal (@rev N)) in En, Ek. rewrite !rev_involutive in En, Ek.
  split; auto. now apply prompt_type_name_inj.
Qed.

Section Names.
Context {U : Unicode}.

(** X10. [_get_policy_doc_name] reads back the number that
    [_generate_doc_id] has written: for the identifier drawn at counter
    [n] it returns [[POLICY_DOC_nnn]] with the same zero-padded number
    and raises nothing, and two identifiers of different counters get
    different names. *)
Theorem policy_name_of_doc_id (n : nat) :
  _get_policy_doc_name (PDFProcessor.doc_id_of n)
  = Ok (txt "[POLICY_DOC_" ++ zero_pad 3 (str_of_nat n) ++ txt "]") /\
  forall m, _get_policy_doc_name (PDFProcessor.doc_id_of m)
            = _get_policy_doc_name (PDFProcessor.doc_id_of n) -> m = n.
Proof.
  assert (Hname : forall k,
    _get_policy_doc_name (PDFProcessor.doc_id_of k)
    = Ok (txt "[POLICY_DOC_" ++ zero_pad 3 (str_of_nat k) ++ txt "]")).
  { intros k. pose proof (IdFacts.doc_number_of k) as H.
    unfold PDFProcessor.doc_number in H. unfold _get_policy_doc_name.
    destruct (nth_error _ 1) as [part|]; [|discriminate].
    rewrite H, Nat2N.id. reflexivity. }
  split; [apply Hname|].
  intros m E. rewrite !Hname in E. injection E as E.
  apply app_inv_tail in E.
  pose proof (IdFacts.int_zero_pad m) as Hm.
  pose proof (IdFacts.int_zero_pad n) as Hn.
  rewrite E in Hm. rewrite Hm in Hn. injection Hn as Hn. lia.
Qed.

End Names.

(** *** The loop of the attempts *)

Section Retry.
Context {U : Unicode}.
Variable config : ConfigurationManager.t.
Variable format_template : str -> prompt_fields -> result str.
Variable set_order : list str -> list str.
Variable service : nat -> reply.

Local Abbreviation limit := (retries (ollama config)).
Local Abbreviation delay := (retry_delay (ollama config)).

Lemma attempts_S fuel policy kw pt prompt rc st :
  attempts config service (S fuel) policy kw pt prompt rc st
  = if (rc <? limit)%nat then
      match success_text (service (posted st)) with
      | Some qa_text =>
          (fst (post service policy kw pt prompt st),
           parse_qa_response qa_text pt)
      | None =>
          attempts config service fuel policy kw pt prompt (rc + 1)
            (if (rc + 1 <? limit)%nat
             then emit (Sleep (delay * (rc + 1 + 1)))
                    (fst (post service policy kw pt prompt st))
             else fst (post service policy kw pt prompt st))
      end
    else (st, []).
Proof. reflexivity. Qed.





End Retry.

(** *** The two variants and the units already done *)

Section Variants.
Context {U : Unicode}.
Variable config : ConfigurationManager.t.
Variable format_template : str -> prompt_fields -> result str.
Variable set_order : list str -> list str.
Variable service : nat -> reply.
Variable doc_id : str.
Variable findings : PDFProcessor.findings.
Variable original_filename : filename.
Variable pt : PromptType.

Lemma set_manager_other m st :
  output_manager (set_manager pt m st) (other pt)
  = output_manager st (other pt).
Proof. destruct pt; reflexivity. Qed.

Lemma emit_manager e st pt' :
  output_manager (emit e st) pt' = output_manager st pt'.
Proof. destruct pt'; reflexivity. Qed.

Lemma add_checkpoint_manager key st pt' :
  output_manager (add_checkpoint key st) pt' = output_manager st pt'.
Proof. destruct pt'; reflexivity. Qed.

Lemma attempts_managers policy kw prompt fuel : forall rc st pt',
  output_manager
    (fst (attempts config service fuel policy kw pt prompt rc st)) pt'
  = output_manager st pt'.
Proof.
  induction fuel as [|fuel IH]; intros rc st pt'; [reflexivity|].
  rewrite attempts_S. destruct (rc <? retries (ollama config))%nat; auto.
  destruct (success_text (service (posted st))).
  - destruct pt'; reflexivity.
  - rewrite IH. destruct (rc + 1 <? retries (ollama config))%nat;
      destruct pt'; reflexivity.
Qed.

Lemma generate_managers policy kw occurrences st pt' :
  output_manager
    (fst (generate_qa_pairs config format_template set_order service policy
            kw occurrences pt st)) pt'
  = output_manager st pt'.
Proof.
  unfold generate_qa_pairs. destruct occurrences as [|o os]; [reflexivity|].
  unfold mbind, lift.
  destruct (generate_prompt _ _ _ _ _ _ _) as [prompt|e]; [|reflexivity].
  pose proof (attempts_managers policy kw prompt (retries (ollama config))
                0%nat st pt') as H.
  destruct (attempts _ _ _ _ _ _ _ _ _) as [st' qs]. exact H.
Qed.

Lemma add_qa_pairs_other qs : forall st,
  output_manager
    (fst (mfold (fun (_ : unit) qa => add_qa_pair doc_id (qa_text_of qa) pt)
            qs tt st)) (other pt)
  = output_manager st (other pt).
Proof.
  induction qs as [|qa qs IH]; intros st; cbn [mfold]; [reflexivity|].
  unfold mbind at 1. unfold add_qa_pair at 1, modify.
  rewrite IH, emit_manager, set_manager_other. reflexivity.
Qed.

Lemma process_keyword_other policy hc kw st :
  output_manager
    (fst (process_keyword config format_template set_order service doc_id
            findings original_filename pt policy hc kw st)) (other pt)
  = output_manager st (other pt).
Proof.
  unfold process_keyword.
  destruct (PDFProcessor.lookup kw findings) as [occurrences|];
    [|reflexivity].
  destruct (decide (checkpoint_key doc_id kw pt ∈ processed_sections st));
    [reflexivity|].
  destruct occurrences as [|o os]; [reflexivity|].
  unfold mbind at 1.
  pose proof (generate_managers policy kw (o :: os) st (other pt)) as Hgen.
  destruct (generate_qa_pairs _ _ _ _ _ _ _ _ _) as [st1 [qs|e]];
    simpl in Hgen; [|exact Hgen].
  destruct qs as [|q qs]; [exact Hgen|].
  unfold mbind at 1. unfold add_keyword_content, modify.
  unfold mbind at 1.
  match goal with
  | |- context [mfold ?f ?l ?b ?s] =>
      pose proof (add_qa_pairs_other l s) as Hadd;
      destruct (mfold f l b s) as [st2 [[]|e]]
  end; simpl in Hadd.
  - unfold mbind, modify, ret. simpl.
    rewrite add_checkpoint_manager, Hadd, emit_manager, set_manager_other.
    exact Hgen.
  - simpl. rewrite Hadd, emit_manager, set_manager_other. exact Hgen.
Qed.

Lemma keywords_other policy kws : forall hc st,
  output_manager
    (fst (mfold (process_keyword config format_template set_order service
                   doc_id findings original_filename pt policy) kws hc st))
    (other pt)
  = output_manager st (other pt).
Proof.
  induction kws as [|kw kws IH]; intros hc st; cbn [mfold]; [reflexivity|].
  unfold mbind at 1.
  pose proof (process_keyword_other policy hc kw st) as Hstep.
  destruct (process_keyword _ _ _ _ _ _ _ _ _ _ _ _) as [st1 [hc'|e]];
    simpl in Hstep; [|exact Hstep].
  rewrite IH. exact Hstep.
Qed.

Lemma save_doc_outputs_other policy st :
  output_manager (fst (save_doc_outputs config doc_id policy pt st)) (other pt)
  = output_manager st (other pt).
Proof.
  unfold save_doc_outputs.
  destruct (get doc_id (qa_text (output_manager st pt))) as [[|t ts]|];
    try reflexivity.
  destruct (get_output_dir config pt); [|reflexivity].
  destruct (get policy (qa_json (output_manager st pt)));
    destruct pt; reflexivity.
Qed.

(** X13. The two variants keep their records apart: a call of
    [process_document_keywords] for one variant leaves the output
    manager of the other variant as it was, whatever the service
    answers and however the call ends. *)
Theorem variants_kept_apart (st : generator_state) :
  output_manager
    (fst (process_document_keywords config format_template set_order service
            doc_id findings original_filename pt st)) (other pt)
  = output_manager st (other pt).
Proof.
  unfold process_document_keywords. unfold mbind at 1, lift.
  destruct (_get_policy_doc_name doc_id) as [policy|e]; [|reflexivity].
  unfold mbind.
  pose proof (keywords_other policy (keywords config) false st) as Hk.
  destruct (mfold _ _ _ _) as [st1 [hc|e]]; simpl in Hk; [|exact Hk].
  destruct hc; [|exact Hk].
  rewrite save_doc_outputs_other. exact Hk.
Qed.

Lemma keywords_done policy kws : forall hc st,
  (forall kw occurrences, In kw kws ->
     PDFProcessor.lookup kw findings = Some occurrences ->
     occurrences = [] \/
     checkpoint_key doc_id kw pt ∈ processed_sections st) ->
  mfold (process_keyword config format_template set_order service doc_id
           findings original_filename pt policy) kws hc st
  = (st, Ok hc).
Proof.
  induction kws as [|kw kws IH]; intros hc st Hdone; cbn [mfold];
    [reflexivity|].
  unfold mbind at 1.
  assert (Hstep : process_keyword config format_template set_order service
                    doc_id findings original_filename pt policy hc kw st
                  = (st, Ok hc)).
  { unfold process_keyword.
    destruct (PDFProcessor.lookup kw findings) as [occurrences|] eqn:El;
      [|reflexivity].
    destruct (decide (checkpoint_key doc_id kw pt ∈ processed_sections st))
      as [Hin|Hout]; [reflexivity|].
    destruct (Hdone kw occurrences (or_introl eq_refl) El) as [->|Hin];
      [reflexivity|contradiction]. }
  rewrite Hstep. apply IH. intros kw' occ Hin. apply Hdone. now right.
Qed.

(** X14. A document whose units are all done is passed over: when
    every configured keyword is absent from the findings, has no
    occurrence, or has its key in the set of completed units, the call
    of [process_document_keywords] changes nothing at all; no request,
    no record, no file. *)
Theorem completed_document_untouched (st : generator_state)
    (policy_doc_name : str) :
  _get_policy_doc_name doc_id = Ok policy_doc_name ->
  (forall keyword occurrences, In keyword (keywords config) ->
     PDFProcessor.lookup keyword findings = Some occurrences ->
     occurrences = [] \/
     checkpoint_key doc_id keyword pt ∈ processed_sections st) ->
  process_document_keywords config format_template set_order service doc_id
    findings original_filename pt st
  = (st, Ok tt).
Proof.
  intros Hname Hdone. unfold process_document_keywords.
  unfold mbind at 1, lift. rewrite Hname. unfold mbind.
  rewrite keywords_done by exact Hdone. reflexivity.
Qed.

End Variants.

(** *** The page field of recorded occurrences *)

Section Pages.
Context {U : Unicode}.
Variable num2words : N -> str.
Variable set_order : list str -> list str.


End Pages.

(** *** Instances *)

Lemma parsed_pairs_well_formed_witness :
  @parse_qa_response ascii_only two_pairs default
    = [{| question := txt "What is covered as per the policy?";
          answer := txt "Everything (page one)" |}] /\
  (@one_line ascii_only (txt "What is covered as per the policy?") /\
   @one_line ascii_only (txt "Everything (page one)") /\
   (default = default ->
    Py.endswith (txt "?") (txt "What is covered as per the policy?") = true /\
    (Py.contains (txt "based on") (txt "What is covered as per the policy?")
       = true \/
     Py.contains (txt "as per") (txt "What is covered as per the policy?")
       = true) /\
    Py.endswith (txt ")") (txt "Everything (page one)") = true)).
Proof.
  assert (E : @parse_qa_response ascii_only two_pairs default
              = [{| question := txt "What is covered as per the policy?";
                    answer := txt "Everything (page one)" |}])
    by (vm_compute; reflexivity).
  split; [exact E|].
  apply (@parsed_pairs_well_formed ascii_only two_pairs default
           {| question := txt "What is covered as per the policy?";
              answer := txt "Everything (page one)" |}).
  rewrite E. left. reflexivity.
Defined.

Lemma parsed_pair_round_trip_witness :
  @parse_qa_response ascii_only two_pairs alternative
    = [{| question := txt "Why"; answer := txt "Because" |};
       {| question := txt "What is covered as per the policy?";
          answer := txt "Everything (page one)" |}] /\
  @parse_qa_response ascii_only
    (qa_text_of {| question := txt "Why"; answer := txt "Because" |})
    alternative
    = [{| question := txt "Why"; answer := txt "Because" |}] /\
  @parse_qa_response ascii_only
    (qa_text_of {| question := txt "Why"; answer := txt "Because" |})
    alternative
    = [{| question := txt "Why"; answer := txt "Because" |}].
Proof.
  assert (E : @parse_qa_response ascii_only two_pairs alternative
              = [{| question := txt "Why"; answer := txt "Because" |};
                 {| question := txt "What is covered as per the policy?";
                    answer := txt "Everything (page one)" |}])
    by (vm_compute; reflexivity).
  split; [exact E|].
  apply (@parsed_pair_round_trip ascii_only two_pairs alternative
           {| question := txt "Why"; answer := txt "Because" |}).
  rewrite E. left. reflexivity.
Defined.

Lemma checkpoint_key_determines_unit_witness :
  txt "doc_001" = txt "doc_001" /\ txt "a|b" = txt "a|b" /\ default = default.
Proof.
  apply (checkpoint_key_determines_unit (txt "doc_001") (txt "a|b")
           (txt "doc_001") (txt "a|b") default default).
  - vm_compute. intuition discriminate.
  - vm_compute. intuition discriminate.
  - reflexivity.
Defined.



Lemma completed_document_untouched_witness :
  @process_document_keywords ascii_only config3 (fun t _ => Ok t)
    (fun l => l) flaky_service (txt "doc_001")
    [(txt "claim", [one_finding])] (FileName (txt "a.pdf")) alternative
    resumed
  = (resumed, Ok tt).
Proof.
  apply (@completed_document_untouched ascii_only config3 (fun t _ => Ok t)
           (fun l => l) flaky_service (txt "doc_001")
           [(txt "claim", [one_finding])] (FileName (txt "a.pdf")) alternative
           resumed (txt "[POLICY_DOC_001]")).
  - vm_compute. reflexivity.
  - intros keyword occurrences [<-|[]] _. right.
    unfold resumed. cbn [processed_sections].
    apply elem_of_singleton_2. reflexivity.
Defined.


End GenerationFacts.
(** ** ContentMasker: what masking leaves and what it leaves alone *)

Module MaskingFacts.
Import Re ReFacts SubFacts ContentMasker Masking.

Section Facts.
Context {U : Unicode}.

Lemma no_match_positions r s : forall l,
  no_match r l s <->
  forall u v, s = u ++ v -> match_at r (lastc l u) v = None.
Proof.
  induction s as [|c s IH]; intros l; simpl.
  - split.
    + intros [Hh _] u v E. symmetry in E. apply app_eq_nil in E as [-> ->].
      simpl. now apply match_at_none.
    + intros H. split; auto. apply match_at_none. apply (H [] []). reflexivity.
  - rewrite IH. split.
    + intros [Hh Ht] u v E. destruct u as [|x u]; simpl in E.
      * subst v. simpl. now apply match_at_none.
      * injection E as <- E. simpl. now apply Ht.
    + intros H. split.
      * apply match_at_none. apply (H [] (c :: s)). reflexivity.
      * intros u v E. apply (H (c :: u) v). simpl. now rewrite E.
Qed.

Lemma mask_leaves_no_match x : clean (mask_sensitive_info x).
Proof.
  intros rl u v Hin E.
  apply (proj1 (no_match_positions _ _ None)
           (MaskerFacts.mask_clean x rl Hin) u v E).
Qed.

(** X16. In a masked text none of the twelve patterns has a match, at
    any position, whatever the text that was masked: a search for an
    e-mail address, a phone number, a company name and so on finds
    nothing. *)
Theorem masked_text_clean (x : str) : clean (mask_sensitive_info x).
Proof. apply mask_leaves_no_match. Qed.

(** X17. The texts that masking leaves unchanged are exactly those in
    which no pattern has a match. *)
Theorem mask_fixed_iff_clean (x : str) :
  mask_sensitive_info x = x <-> clean x.
Proof.
  split.
  - intros E. rewrite <- E. apply mask_leaves_no_match.
  - intros H. rewrite MaskerFacts.mask_as_rules. apply MaskerFacts.fold_fixed.
    intros rl Hin. apply no_match_positions. intros u v E.
    now apply (H rl u v).
Qed.

Lemma needs_sound P r l w rest :
  needs P r -> matches r l w rest -> exists c, In c w /\ P c = true.
Proof.
  intros Hn Hm. induction Hm as [l rest|l rest Hb|cls lo hi l w rest Hall Hlo Hhi
                                 |r1 r2 l w1 w2 rest _ IH1 _ IH2
                                 |r1 r2 l w rest _ IH|r1 r2 l w rest _ IH];
    simpl in Hn.
  - contradiction.
  - contradiction.
  - destruct Hn as [H1 HP]. destruct w as [|c w]; [simpl in Hlo; lia|].
    exists c. split; [now left|]. apply HP.
    now inversion Hall.
  - destruct Hn as [Hn|Hn].
    + destruct (IH1 Hn) as (c & Hc & Pc). exists c. split; auto.
      apply in_or_app. auto.
    + destruct (IH2 Hn) as (c & Hc & Pc). exists c. split; auto.
      apply in_or_app. auto.
  - apply IH, Hn.
  - apply IH, Hn.
Qed.

Lemma needs_no_match P b s :
  needs P b -> Forall (fun c => P c = false) s ->
  forall l, no_match (bounded b) l s.
Proof.
  intros Hn. induction s as [|c s IH]; intros Hall l.
  - simpl. split; auto. intros (w & rest & E & Hm).
    apply bounded_inv in Hm as (_ & Hm & _).
    destruct (needs_sound P b l w rest Hn Hm) as (x & Hx & Px).
    symmetry in E. apply app_eq_nil in E as [-> _]. contradiction.
  - simpl. split.
    + intros (w & rest & E & Hm).
      apply bounded_inv in Hm as (_ & Hm & _).
      destruct (needs_sound P b l w rest Hn Hm) as (x & Hx & Px).
      rewrite List.Forall_forall in Hall.
      rewrite (Hall x) in Px; [discriminate|].
      rewrite E. apply in_or_app. auto.
    + apply IH. now inversion Hall.
Qed.

Lemma sub_skip P b tok s :
  needs P b -> Forall (fun c => P c = false) s -> sub (bounded b) tok s = s.
Proof.
  intros Hn Hall. unfold sub. apply no_match_fixed.
  eapply needs_no_match; eauto.
Qed.

Lemma needs_email : needs digit_or_at email_body.
Proof. find_needed. Qed.

Lemma needs_phone : needs digit_or_at phone_body.
Proof. find_needed. Qed.

Lemma needs_ssn : needs digit_or_at ssn_body.
Proof. find_needed. Qed.

Lemma needs_address : needs digit_or_at address_body.
Proof. find_needed. Qed.

Lemma needs_zip : needs digit_or_at zip_body.
Proof. find_needed. Qed.

Lemma needs_policy : needs digit_or_at policy_body.
Proof. find_needed. Qed.

Lemma needs_date : needs digit_or_at date_body.
Proof. find_needed. Qed.

Lemma needs_numeric_date : needs digit_or_at numeric_date_body.
Proof. find_needed. Qed.

Lemma needs_time_period : needs digit_or_at time_period_body.
Proof. find_needed. Qed.

(** X18. A text that holds no decimal digit and no [@] is changed by
    the substitutions of the company names only: the patterns for
    e-mail addresses, phone numbers, social security numbers,
    addresses, ZIP codes, policy numbers, dates and time periods all
    need one of these characters and leave the text as it is. *)
Theorem mask_without_digits (text : str) :
  Forall (fun c => digit_or_at c = false) text ->
  mask_sensitive_info text = mask_company_names text.
Proof.
  intros H. unfold mask_sensitive_info, mask_company_names.
  rewrite (sub_skip digit_or_at email_body _ text needs_email H).
  rewrite (sub_skip digit_or_at phone_body _ text needs_phone H).
  rewrite (sub_skip digit_or_at ssn_body _ text needs_ssn H).
  rewrite (sub_skip digit_or_at address_body _ text needs_address H).
  rewrite (sub_skip digit_or_at zip_body _ text needs_zip H).
  rewrite (sub_skip digit_or_at policy_body _ text needs_policy H).
  rewrite (sub_skip digit_or_at date_body _ text needs_date H).
  rewrite (sub_skip digit_or_at numeric_date_body _ text needs_numeric_date H).
  rewrite (sub_skip digit_or_at time_period_body _ text needs_time_period H).
  reflexivity.
Qed.

(** X19. Masking never empties a text: the masked text is empty only
    when the text was, so a full context that is not empty stays so
    after masking. *)
Theorem mask_empty_iff (x : str) :
  mask_sensitive_info x = [] <-> x = [].
Proof.
  split.
  - intros E. destruct x as [|c x]; [reflexivity|]. exfalso.
    apply (ExtractionFacts.mask_nonempty (c :: x)); [discriminate|exact E].
  - intros ->. reflexivity.
Qed.

End Facts.

Lemma mask_without_digits_witness :
  @mask_sensitive_info ascii_only (txt "Ask Unum or Lincoln")
  = @mask_company_names ascii_only (txt "Ask Unum or Lincoln") /\
  @mask_company_names ascii_only (txt "Ask Unum or Lincoln")
  = txt "Ask [COMPANY_NAME] or [COMPANY_NAME]".
Proof.
  split; [|vm_compute; reflexivity].
  apply (@mask_without_digits ascii_only (txt "Ask Unum or Lincoln")).
  vm_compute. repeat constructor.
Defined.

End MaskingFacts.
(** ** Configuration, command line and the budget of requests *)

Module RunFacts.
Import ConfigurationManager QAGenerator Generation OutputSection.

Section Config.
Context {U : Unicode}.
Variable connect : StorageConfig -> result unit.

(** X20. A configuration that [validate] accepts passes the checks of
    [StorageFactory.create_provider], which raises none of its own
    [ValueError] on it: for the provider [local] it returns the local
    provider; for [gcp], with project and bucket, it comes to the
    constructor of the cloud provider and returns that provider or
    raises what the constructor raises. *)
Theorem validated_storage_accepted (c : ConfigurationManager.t) :
  validate c = true ->
  (provider (storage c) = txt "local" /\
   StorageFactory.create_provider connect (storage c)
   = Ok StorageFactory.LocalStorageProvider) \/
  (provider (storage c) = txt "gcp" /\
   StorageFactory.create_provider connect (storage c)
   = (_ <- connect (storage c) ;; Ok StorageFactory.GCPStorageProvider)).
Proof.
  unfold validate, StorageFactory.create_provider.
  destruct (keywords c); [discriminate|]. cbn [negb].
  destruct (negb (truthy_opt (get (txt "default") (prompts c))));
    [discriminate|].
  destruct (Py.str_eqb (provider (storage c)) (txt "local")) eqn:El.
  - apply PageFacts.str_eqb_eq in El. rewrite El. intros _.
    left. split; reflexivity.
  - destruct (Py.str_eqb (provider (storage c)) (txt "gcp")) eqn:Eg;
      [|discriminate].
    apply PageFacts.str_eqb_eq in Eg. rewrite Eg. cbn [orb negb andb].
    change (Py.str_eqb (Py.lower (txt "gcp")) (txt "local")) with false.
    change (Py.str_eqb (Py.lower (txt "gcp")) (txt "gcp")) with true.
    cbn iota.
    destruct (negb (truthy_opt (project_id (storage c))) ||
              negb (truthy_opt (bucket_name (storage c))));
      [discriminate|].
    intros _. right. split; reflexivity.
Qed.

(** X21. With the sub-folder names that [_init_output_config] supplies
    when the configuration file gives none, [masked] and [qa] alone,
    [get_output_dir] raises [KeyError] for both variants, and so does
    [save_doc_outputs] for every document that has a text to save;
    nothing is written. *)
Theorem default_output_dirs_missing (c : ConfigurationManager.t)
    (section : option yaml) (prompt_type : PromptType) :
  output c = _init_output_config section ->
  (forall s, section = Some s -> yaml_subfolder_names s = None) ->
  get_output_dir c prompt_type
    = Raise (KeyError (prompt_type_name prompt_type ++ txt "_prompt")) /\
  forall doc_id policy_doc_name st text texts,
    get doc_id (qa_text (output_manager st prompt_type))
      = Some (text :: texts) ->
    save_doc_outputs c doc_id policy_doc_name prompt_type st
    = (st, Raise (KeyError (prompt_type_name prompt_type ++ txt "_prompt"))).
Proof.
  intros Hout Hnames.
  assert (E : get_output_dir c prompt_type
              = Raise (KeyError (prompt_type_name prompt_type
                                 ++ txt "_prompt"))).
  { unfold get_output_dir. rewrite Hout. unfold _init_output_config.
    destruct section as [s|]; [rewrite (Hnames s eq_refl)|];
      destruct prompt_type; reflexivity. }
  split; [exact E|].
  intros doc_id policy st text texts Ht. unfold save_doc_outputs.
  rewrite Ht, E. reflexivity.
Qed.

End Config.

Lemma lookup_absent {A} k (d : list (str * A)) :
  ~ In k (map fst d) -> PDFProcessor.lookup k d = None.
Proof.
  induction d as [|[k' v] d IH]; simpl; intros H; auto.
  destruct (Py.str_eqb k k') eqn:E.
  - apply PageFacts.str_eqb_eq in E. subst. tauto.
  - apply IH. tauto.
Qed.

Lemma str_eqb_refl s : Py.str_eqb s s = true.
Proof. now apply PageFacts.str_eqb_eq. Qed.

Section Run.
Context {U : Unicode}.
Variable num2words : N -> str.
Variable format_template : str -> prompt_fields -> result str.
Variable set_order : list str -> list str.
Variable service : nat -> reply.
Variable load_config : str -> result ConfigurationManager.t.
Variable list_files : str -> list str.
Variable open_pdf : str -> result (list PDFProcessor.page).
Variable clock : str -> nat -> str.
Variable connect : StorageConfig -> result unit.

(** X22. The option [--keyword] never leads to a generation: [main]
    calls [process_single_keyword], which [QAGenerator] does not have,
    so a run with [--single-file] and a keyword always ends with an
    exception, at the latest the [AttributeError] after the
    extraction, and posts no request. *)
Theorem keyword_option_fails (args : Main.arguments) (c : N) (k : str) :
  Main.arg_single_file args = true ->
  Main.arg_keyword args = Some (c :: k) ->
  exists trace e,
    Main.main num2words format_template set_order service load_config
      list_files open_pdf clock connect args
    = Some (trace, Raise e) /\
    forall ev, ~ In (Main.Generation ev) trace.
Proof.
  intros Hs Hk. unfold Main.main.
  destruct (load_config (Main.arg_config args)) as [config|e].
  2:{ exists [], e. split; [reflexivity|intros ev []]. }
  unfold Main.run_configured.
  destruct (StorageFactory.create_provider connect (storage config))
    as [kind|e].
  2:{ exists [], e. split; [reflexivity|intros ev []]. }
  rewrite Hs, Hk.
  destruct (snd (PDFProcessor.process_single_pdf _ _ _ _ _ _)) as [fs|e].
  - exists [Main.Extraction (Main.arg_input args)], AttributeError.
    split; [reflexivity|]. intros ev [H|[]]. discriminate.
  - exists [Main.Extraction (Main.arg_input args)], e.
    split; [reflexivity|]. intros ev [H|[]]. discriminate.
Qed.

(** X23. What [process_single_pdf] returns for a file is always taken
    by [process_content] for the findings of a single file: when it is
    not empty, and neither [findings] nor [original_filename] is a
    configured keyword, it is wrapped as the one document [doc_001]
    with the file name [single_file.pdf], and the branch that reads
    [doc_data['findings']] from a list of occurrences is not taken. *)
Theorem single_file_findings_wrapped (config : ConfigurationManager.t)
    (now : nat -> str) (pst : PDFProcessor.processor_state) (pdf_path : str)
    (doc : list PDFProcessor.page) (fs : PDFProcessor.findings)
    (st : generator_state) :
  snd (PDFProcessor.process_single_pdf num2words (keywords config) now pst
         pdf_path (Ok doc)) = Ok fs ->
  fs <> [] ->
  ~ In (txt "findings") (keywords config) ->
  ~ In (txt "original_filename") (keywords config) ->
  Main.process_content format_template set_order service config
    (Main.Single fs) st
  = Some (Main.process_each_document format_template set_order service config
            [(txt "doc_001", FileName (txt "single_file.pdf"), fs)] st).
Proof.
  intros Hfs Hne Hf Ho.
  pose proof (ExtractionFacts.findings_sound num2words (keywords config) now
                pst pdf_path doc fs Hfs) as Hkeys.
  assert (Habsent : forall k, ~ In k (keywords config) ->
            PDFProcessor.lookup k fs = None).
  { intros k Hk. apply lookup_absent. intros Hin.
    apply in_map_iff in Hin as ([k' l] & <- & Hin).
    apply Hk. apply (Hkeys k' l Hin). }
  destruct fs as [|[k0 l0] fs]; [congruence|].
  unfold Main.process_content, Main.has_key.
  rewrite (Habsent _ Hf), (Habsent _ Ho). cbn [negb andb].
  assert (E : existsb
                (fun k => match PDFProcessor.lookup k ((k0, l0) :: fs) with
                          | Some _ => true
                          | None => false
                          end) (keywords config) = true).
  { apply existsb_exists. exists k0. split.
    - apply (Hkeys k0 l0). now left.
    - simpl. now rewrite str_eqb_refl. }
  rewrite E. reflexivity.
Qed.

Lemma set_add_keeps x s p : In p s -> In p (set_add x s).
Proof.
  unfold set_add. destruct (existsb (Py.str_eqb x) s); auto.
  intros H. apply in_or_app. auto.
Qed.

Lemma run_submitted_spec config files : forall trace st processed,
  let run :=
    fold_left
      (fun acc pdf_path =>
         let call :=
           PDFProcessor.process_single_pdf num2words (keywords config)
             (clock pdf_path) (fst (snd acc)) pdf_path (open_pdf pdf_path) in
         (fst acc ++ [Main.Extraction pdf_path],
          (fst call,
           match snd call with
           | Ok _ => set_add pdf_path (snd (snd acc))
           | Raise _ => snd (snd acc)
           end)))
      files (trace, (st, processed)) in
  fst run = trace ++ map Main.Extraction files /\
  forall p, In p processed -> In p (snd (snd run)).
Proof.
  induction files as [|f files IH]; intros trace st processed; simpl.
  - rewrite app_nil_r. auto.
  - match goal with
    | |- context [fold_left _ files (?t, (?s, ?p))] =>
        destruct (IH t s p) as [Ht Hp]
    end.
    simpl in Ht, Hp. split.
    + rewrite Ht, <- app_assoc. reflexivity.
    + intros p Hin. apply Hp.
      destruct (snd (PDFProcessor.process_single_pdf _ _ _ _ _ _)); auto.
      now apply set_add_keeps.
Qed.

(** X24. [process_directory] on any processor and any set
    [processed_files]: with an empty listing it raises [ValueError]
    before any file is read; with a number of workers that is not
    positive the pool raises [ValueError] and no file is read; with one
    worker every listed path that is not in [processed_files] is handed
    to [process_single_pdf] once, in the order of the code points of
    the paths, whatever the order of the listing, the only thing that
    may follow is the saving of the combined masked file, and no path
    leaves [processed_files]. *)
Theorem directory_extraction_order (config : ConfigurationManager.t)
    (st : PDFProcessor.processor_state) (processed_files : list str)
    (directory_path : str) :
  let listing := list_files directory_path in
  let call := Main.process_directory num2words list_files open_pdf clock
                config st processed_files directory_path in
  (listing = [] ->
   call = Some {| Main.run_trace := []; Main.run_processor := st;
                  Main.run_processed_files := processed_files;
                  Main.run_result :=
                    Raise (ValueError (txt "No PDF files found in "
                                       ++ directory_path)) |}) /\
  (listing <> [] -> (max_workers (processing config) <= 0)%Z ->
   call = Some {| Main.run_trace := []; Main.run_processor := st;
                  Main.run_processed_files := processed_files;
                  Main.run_result :=
                    Raise (ValueError
                             (txt "max_workers must be greater than 0")) |}) /\
  (listing <> [] -> max_workers (processing config) = 1%Z ->
   exists run sorted rest,
     call = Some run /\
     Permutation sorted listing /\ StronglySorted str_le sorted /\
     Main.run_trace run
     = map Main.Extraction
         (List.filter (Main.not_processed processed_files) sorted) ++ rest /\
     (rest = [] \/ exists path, rest = [Main.SaveMasked path]) /\
     (forall p, In p processed_files -> In p (Main.run_processed_files run))).
Proof.
  cbv zeta. unfold Main.process_directory. split; [|split].
  - intros ->. reflexivity.
  - intros Hne Hw. destruct (list_files directory_path) as [|f files];
      [congruence|].
    replace (max_workers (processing config) <=? 0)%Z with true
      by (symmetry; apply Z.leb_le; exact Hw).
    reflexivity.
  - intros Hne Hw. destruct (list_files directory_path) as [|f files] eqn:El;
      [congruence|]. rewrite <- El. clear Hne. rewrite Hw. cbn [Z.leb Z.eqb].
    change ((1 ?= 0)%Z) with Gt. cbn iota.
    change (Pos.eqb 1 1) with true. cbn iota.
    destruct (PageFacts.stable_sort_spec _ str_ltb PageFacts.str_le_trans
                PageFacts.str_ltb_asym (list_files directory_path))
      as [Hp Hs].
    unfold Main.run_submitted.
    match goal with
    | |- context [fold_left ?f ?l (?t, (?s, ?p))] =>
        destruct (run_submitted_spec config l t s p) as [Ht Hkeep];
        destruct (fold_left f l (t, (s, p))) as [trace [st' processed']]
    end.
    simpl in Ht, Hkeep. cbn [fst snd].
    destruct (PDFProcessor.combined_results st') as [|r results].
    + eexists. exists (stable_sort str_ltb (list_files directory_path)), [].
      split; [reflexivity|]. rewrite app_nil_r. cbn. auto 10.
    + destruct (get (txt "masked") (subfolder_names (output config)))
        as [masked|].
      * eexists. exists (stable_sort str_ltb (list_files directory_path)).
        eexists. split; [reflexivity|]. cbn. rewrite Ht.
        repeat split; eauto.
      * eexists. exists (stable_sort str_ltb (list_files directory_path)), [].
        split; [reflexivity|]. rewrite app_nil_r. cbn. auto 10.
Qed.

End Run.

(** *** The budget of requests *)

Section Budget.
Context {U : Unicode}.
Variable config : ConfigurationManager.t.
Variable format_template : str -> prompt_fields -> result str.
Variable set_order : list str -> list str.
Variable service : nat -> reply.
Variable doc_id : str.
Variable findings : PDFProcessor.findings.
Variable original_filename : filename.
Variable pt : PromptType.

Local Abbreviation limit := (retries (ollama config)).

Lemma set_manager_posted m st : posted (set_manager pt m st) = posted st.
Proof. destruct pt; reflexivity. Qed.

Lemma attempts_posted policy kw prompt fuel : forall rc st st' qs,
  attempts config service fuel policy kw pt prompt rc st = (st', qs) ->
  (posted st <= posted st' <= posted st + (limit - rc))%nat.
Proof.
  induction fuel as [|fuel IH]; intros rc st st' qs H.
  - simpl in H. injection H as <- <-. lia.
  - rewrite GenerationFacts.attempts_S in H.
    destruct (rc <? limit)%nat eqn:Hlt.
    2:{ injection H as <- <-. lia. }
    apply Nat.ltb_lt in Hlt.
    destruct (success_text (service (posted st))).
    + injection H as <- <-. simpl. lia.
    + apply IH in H.
      replace (posted (if (rc + 1 <? limit)%nat then _ else _))
        with (S (posted st)) in H
        by (destruct (rc + 1 <? limit)%nat; reflexivity).
      lia.
Qed.

Lemma generate_posted policy kw occurrences st st' r :
  generate_qa_pairs config format_template set_order service policy kw
    occurrences pt st = (st', r) ->
  (posted st <= posted st' <= posted st + limit)%nat.
Proof.
  unfold generate_qa_pairs. destruct occurrences as [|o os].
  - unfold ret. intros H. injection H as <- <-. lia.
  - unfold mbind, lift.
    destruct (generate_prompt _ _ _ _ _ _ _) as [prompt|e].
    + destruct (attempts _ _ _ _ _ _ _ _ _) as [st1 qs] eqn:E.
      intros H. injection H as <- <-. apply attempts_posted in E. lia.
    + intros H. injection H as <- <-. lia.
Qed.

Lemma add_qa_pairs_posted qs : forall st st' r,
  mfold (fun (_ : unit) qa => add_qa_pair doc_id (qa_text_of qa) pt) qs tt st
  = (st', r) ->
  posted st' = posted st.
Proof.
  induction qs as [|qa qs IH]; intros st st' r H; cbn [mfold] in H.
  - unfold ret in H. now injection H as <- <-.
  - unfold mbind at 1 in H. unfold add_qa_pair at 1, modify in H.
    apply IH in H. rewrite H. simpl. apply set_manager_posted.
Qed.

Lemma process_keyword_posted policy hc kw st st' r :
  process_keyword config format_template set_order service doc_id findings
    original_filename pt policy hc kw st = (st', r) ->
  (posted st <= posted st' <= posted st + limit)%nat.
Proof.
  unfold process_keyword. intros H.
  assert (Hsame : (st', r) = (st, Ok hc) ->
            (posted st <= posted st' <= posted st + limit)%nat).
  { intros E. injection E as -> ->. lia. }
  destruct (PDFProcessor.lookup kw findings) as [occurrences|];
    [|apply Hsame; unfold ret in H; congruence].
  destruct (decide (checkpoint_key doc_id kw pt ∈ processed_sections st));
    [apply Hsame; congruence|].
  destruct occurrences as [|o os]; [apply Hsame; congruence|].
  unfold mbind at 1 in H.
  destruct (generate_qa_pairs config format_template set_order service policy
              kw (o :: os) pt st) as [st1 r1] eqn:Hgen.
  apply generate_posted in Hgen.
  destruct r1 as [qs|e].
  2:{ injection H as <- <-. exact Hgen. }
  destruct qs as [|q qs].
  { unfold ret in H. injection H as <- <-. exact Hgen. }
  unfold mbind at 1 in H. unfold add_keyword_content, modify in H.
  unfold mbind at 1 in H.
  match type of H with
  | context [mfold ?f ?l ?b ?s] =>
      destruct (mfold f l b s) as [st2 r2] eqn:Hadd
  end.
  apply add_qa_pairs_posted in Hadd. simpl in Hadd.
  rewrite set_manager_posted in Hadd.
  destruct r2 as [[]|e].
  - unfold mbind, modify, ret in H. simpl in H. injection H as <- <-.
    simpl. rewrite Hadd. exact Hgen.
  - injection H as <- <-. rewrite Hadd. exact Hgen.
Qed.

Lemma keywords_posted policy kws : forall hc st st' r,
  mfold (process_keyword config format_template set_order service doc_id
           findings original_filename pt policy) kws hc st = (st', r) ->
  (posted st' <= posted st + limit * length kws)%nat.
Proof.
  induction kws as [|kw kws IH]; intros hc st st' r H; cbn [mfold] in H.
  - unfold ret in H. injection H as <- <-. lia.
  - unfold mbind at 1 in H.
    destruct (process_keyword config format_template set_order service doc_id
                findings original_filename pt policy hc kw st)
      as [st1 r1] eqn:Hstep.
    apply process_keyword_posted in Hstep.
    destruct r1 as [hc'|e].
    + apply IH in H. simpl length. nia.
    + injection H as <- <-. simpl length. nia.
Qed.

Lemma save_doc_outputs_posted policy st :
  posted (fst (save_doc_outputs config doc_id policy pt st)) = posted st.
Proof.
  unfold save_doc_outputs.
  destruct (get doc_id (qa_text (output_manager st pt))) as [[|t ts]|];
    try reflexivity.
  destruct (get_output_dir config pt); [|reflexivity].
  destruct (get policy (qa_json (output_manager st pt)));
    simpl; apply set_manager_posted.
Qed.

(** X25. The requests of a call of [process_document_keywords] are
    bounded by the configuration: at most [retries] requests for each
    configured keyword, whatever the service answers. *)
Theorem requests_bounded (st : generator_state) :
  (posted (fst (process_document_keywords config format_template set_order
                  service doc_id findings original_filename pt st))
   <= posted st + limit * length (keywords config))%nat.
Proof.
  unfold process_document_keywords. unfold mbind at 1, lift.
  destruct (_get_policy_doc_name doc_id) as [policy|e]; [|simpl; lia].
  unfold mbind.
  destruct (mfold _ _ _ _) as [st1 r1] eqn:Hk.
  apply keywords_posted in Hk.
  destruct r1 as [hc|e]; [|exact Hk].
  destruct hc; [|exact Hk].
  rewrite save_doc_outputs_posted. exact Hk.
Qed.

End Budget.

(** *** Instances *)

Lemma validated_storage_accepted_witness :
  (provider (storage config3) = txt "local" /\
   @StorageFactory.create_provider ascii_only (fun _ => Ok tt)
     (storage config3)
   = Ok StorageFactory.LocalStorageProvider) \/
  (provider (storage config3) = txt "gcp" /\
   @StorageFactory.create_provider ascii_only (fun _ => Ok tt)
     (storage config3)
   = (_ <- Ok tt ;; Ok StorageFactory.GCPStorageProvider)).
Proof.
  apply (@validated_storage_accepted ascii_only (fun _ => Ok tt) config3).
  reflexivity.
Defined.

Lemma default_output_dirs_missing_witness :
  @get_output_dir config_default_output default
    = Raise (KeyError (prompt_type_name default ++ txt "_prompt")) /\
  forall doc_id policy_doc_name st text texts,
    get doc_id (qa_text (output_manager st default)) = Some (text :: texts) ->
    @save_doc_outputs ascii_only config_default_output doc_id policy_doc_name
      default st
    = (st, Raise (KeyError (prompt_type_name default ++ txt "_prompt"))).
Proof.
  apply (@default_output_dirs_missing ascii_only config_default_output None
           default).
  - reflexivity.
  - intros s E. discriminate.
Defined.

Lemma keyword_option_fails_witness :
  exists trace e,
    Main.example_main config3 keyword_arguments = Some (trace, Raise e) /\
    forall ev, ~ In (Main.Generation ev) trace.
Proof.
  apply (@keyword_option_fails ascii_only Main.words
           (fun template _ => Ok template) (fun l => l)
           (fun _ => ReadTimeout) (fun _ => Ok config3) (fun _ => [])
           (fun _ => Ok PDFProcessor.doc_with_blank_line)
           (fun _ _ => txt "t") (fun _ => Ok tt) keyword_arguments 99
           (txt "laim")).
  - reflexivity.
  - reflexivity.
Defined.

Lemma single_file_findings_wrapped_witness :
  exists fs,
    snd (@PDFProcessor.process_single_pdf ascii_only Main.words
           (keywords config3) (fun _ => txt "t") PDFProcessor.new_processor
           (txt "a.pdf") (Ok Extraction.two_pages)) = Ok fs /\
    @Main.process_content ascii_only (fun template _ => Ok template)
      (fun l => l) silent_service config3 (Main.Single fs) new_generator
    = Some (@Main.process_each_document ascii_only
              (fun template _ => Ok template) (fun l => l) silent_service
              config3
              [(txt "doc_001", FileName (txt "single_file.pdf"), fs)]
              new_generator).
Proof.
  eexists. split; [vm_compute; reflexivity|].
  apply (@single_file_findings_wrapped ascii_only Main.words
           (fun template _ => Ok template) (fun l => l) silent_service
           config3 (fun _ => txt "t") PDFProcessor.new_processor
           (txt "a.pdf") Extraction.two_pages).
  - vm_compute. reflexivity.
  - discriminate.
  - vm_compute. intuition discriminate.
  - vm_compute. intuition discriminate.
Defined.

Lemma directory_extraction_order_witness :
  exists run sorted rest,
    @Main.process_directory ascii_only Main.words
      (fun _ => [txt "b.pdf"; txt "a.pdf"])
      (fun _ => Ok Extraction.two_pages) (fun _ _ => txt "t") config3
      PDFProcessor.new_processor [] (txt "docs")
    = Some run /\
    Permutation sorted [txt "b.pdf"; txt "a.pdf"] /\
    StronglySorted str_le sorted /\
    Main.run_trace run
    = map Main.Extraction (List.filter (Main.not_processed []) sorted)
      ++ rest /\
    (rest = [] \/ exists path, rest = [Main.SaveMasked path]) /\
    (forall p, In p [] -> In p (Main.run_processed_files run)).
Proof.
  apply (proj2 (proj2
           (@directory_extraction_order ascii_only Main.words
              (fun _ => [txt "b.pdf"; txt "a.pdf"])
              (fun _ => Ok Extraction.two_pages) (fun _ _ => txt "t") config3
              PDFProcessor.new_processor [] (txt "docs")))).
  - discriminate.
  - reflexivity.
Defined.

End RunFacts.
